(** * Shopify ingestion service: the sync route and its helpers

    A shallow embedding of the historical-sync code of the repository:

    - [src/app/api/sync/route.ts]: [syncHistoricalData] and [POST];
    - the sync route variants kept next to the dashboard page
      ([src/app/dashboard/page.tsx], after the page itself):
      [withRetry] (lines 433-450) and [fetchAllFromShopify] (lines 706-730).

    Asynchronous code is sequentialised: every [await] is a step of a
    state-and-exception monad over a [World] holding the database tables and
    a chronological trace of the observable effects (requests, database
    calls, timers, console output).  What the outside does (Shopify's
    answers, database faults, the session) is read from an [Env]. *)

From Stdlib Require Import String Ascii List ZArith Lia Bool Arith DecimalString.
Import ListNotations.
Local Open Scope string_scope.

Set Implicit Arguments.

(** ** JavaScript strings and values *)

(** [hay.includes(needle)]. *)
Fixpoint includes (hay needle : string) : bool :=
  prefix needle hay ||
  match hay with
  | EmptyString => false
  | String _ rest => includes rest needle
  end.

(** [n.toString()] of an integral number (decimal digits).  Shopify's
    identifiers are read as integers: the rendering is the one of the source
    for identifiers that a JavaScript number holds exactly (up to [2^53]). *)
Definition toString (n : Z) : string := NilZero.string_of_int (Z.to_int n).

(** Truthiness of a [string | null] value: [null] and the empty string are falsy. *)
Definition truthy (v : option string) : bool :=
  match v with
  | Some EmptyString => false
  | Some _ => true
  | None => false
  end.

(** A thrown value: an [Error] object (class name and message) or anything else
    (kept as its [String(err)] rendering). *)
Inductive Thrown : Type :=
| JsError (name message : string)
| JsValue (repr : string).

(** [err instanceof Error ? err.message : String(err)] *)
Definition message_of (err : Thrown) : string :=
  match err with
  | JsError _ m => m
  | JsValue r => r
  end.

(** [parseFloat(s)] and [new Date(s)] are kept symbolic: the stored value is
    "the number (the date) read from [s]". *)
Inductive JsNumber : Type := parseFloat (s : string).
Inductive JsDate : Type := newDate (s : string).

(** ** Data model *)

(** Row of the [Store] table (README, schema.prisma). *)
Record Store : Type := mkStore {
  store_id : string;
  shop : string;
  accessToken : string;
  userId : string
}.

(** Local identifiers of customers and orders are generated by the database. *)
Definition LocalId : Type := nat.

Record Customer : Type := mkCustomer {
  customer_id : LocalId;
  customer_shopifyId : string;
  customer_email : option string;
  customer_firstName : option string;
  customer_lastName : option string;
  customer_storeId : string
}.

Record Order : Type := mkOrder {
  order_id : LocalId;
  order_shopifyId : string;
  order_orderNumber : option string;
  order_totalPrice : JsNumber;
  order_currency : option string;
  order_financialStatus : option string;
  order_fulfillmentStatus : option string;
  order_processedAt : option JsDate;
  order_storeId : string;
  order_customerId : option LocalId
}.

(** A property of a parsed JSON object that the source hands to Prisma as
    it is: the key may be absent ([undefined]), or hold [null] or a string. *)
Inductive JsField : Type :=
| Undefined
| Value (v : option string).     (* [Value None] is [null] *)

(** A field of an [update] clause: Prisma leaves the column as it is when
    the value is [undefined]. *)
Definition updated (f : JsField) (old : option string) : option string :=
  match f with
  | Undefined => old
  | Value v => v
  end.

(** A field of a [create] clause: an [undefined] value is left out, and the
    nullable column is [null]. *)
Definition created (f : JsField) : option string := updated f None.

(** The column [f] of the row found by a lookup, [null] when there is none. *)
Definition column {A : Type} (f : A -> option string) (row : option A) : option string :=
  match row with
  | Some a => f a
  | None => None
  end.

(** Raw records, as Shopify's JSON delivers them. *)
Record RawCustomer : Type := mkRawCustomer {
  rc_id : Z;
  rc_email : JsField;
  rc_first_name : JsField;
  rc_last_name : JsField
}.

Record RawOrder : Type := mkRawOrder {
  ro_id : Z;
  ro_name : option string;
  ro_total_price : string;
  ro_currency : option string;
  ro_financial_status : JsField;
  ro_fulfillment_status : JsField;
  ro_processed_at : option string;
  ro_customer : option RawCustomer
}.

Inductive Raw : Type :=
| RawC (c : RawCustomer)
| RawO (o : RawOrder).

(** ** The outside world *)

(** Parsed body of a response: an object whose first key holds the collection. *)
Inductive JsonBody : Type :=
| JCustomers (l : list RawCustomer)
| JOrders (l : list RawOrder).

Record Response : Type := mkResponse {
  ok : bool;
  text : string;
  json : option JsonBody;        (* [None]: the body is not JSON *)
  link : option string           (* [headers.get("link")] *)
}.

Inductive FetchResult : Type :=
| NetworkError (err : Thrown)
| Responded (r : Response).

Record Env : Type := mkEnv {
  (** answer to the [n]-th request of the run, sent to [url] with [token] *)
  net : nat -> string -> string -> FetchResult;
  (** the error thrown by the [n]-th database call, if it fails *)
  db_fault : nat -> option Thrown;
  (** [prisma.$connect()] wins the race against the 3 s timer *)
  db_reachable : bool;
  (** [currentUser()]: the id of the signed-in user *)
  current_user : option string
}.

(** Console output. *)
Inductive Log : Type :=
| LogSyncStart (shop : string)
| LogFetchedCustomers (n : nat)
| LogUpsertedCustomers (n : nat)
| LogFetchedOrders (n : nat)
| LogUpsertedOrders (n : nat)
| LogUserRequesting (uid : string)
| LogNoStore (uid : string)
| LogFoundStore (shop uid : string)
| ErrUpsertCustomer (id : Z) (err : Thrown)
| ErrUpsertOrder (id : Z) (err : Thrown)
| ErrFetchCustomers (body : string)
| ErrFetchOrders (body : string)
| ErrSync (shop : string) (err : Thrown)
| ErrBackground (err : Thrown)
| ErrStartSync (err : Thrown)
| WarnRetry (label : string) (attempt retries : nat) (delay : Z).

(** Calls of the database client. *)
Inductive DbOp : Type :=
| StoreFindUnique (id : string)
| StoreFindFirst (id owner : option string)
| CustomerUpsert (shopifyId storeId : string)
| CustomerFindUnique (shopifyId storeId : string)
| OrderUpsert (shopifyId storeId : string).

Inductive Event : Type :=
| EvConsole (l : Log)
| EvFetch (url token : string)
| EvTimeout (delay : Z)
| EvDb (op : DbOp).

Record World : Type := mkWorld {
  stores : list Store;
  customers : list Customer;
  orders : list Order;
  next_id : LocalId;
  db_calls : nat;
  net_calls : nat;
  trace : list Event
}.

(** ** The monad of effects *)

Inductive Result (A : Type) : Type :=
| Ok (a : A)
| Throw (err : Thrown).
Arguments Ok {A} a.
Arguments Throw {A} err.

Definition M (A : Type) : Type := Env -> World -> Result A * World.

Definition ret {A} (a : A) : M A := fun _ w => (Ok a, w).

Definition bind {A B} (m : M A) (k : A -> M B) : M B :=
  fun e w =>
    match m e w with
    | (Ok a, w1) => k a e w1
    | (Throw err, w1) => (Throw err, w1)
    end.

Definition throw {A} (err : Thrown) : M A := fun _ w => (Throw err, w).

(** [try { body } catch (error) { handler(error) }] *)
Definition try_catch {A} (body : M A) (handler : Thrown -> M A) : M A :=
  fun e w =>
    match body e w with
    | (Ok a, w1) => (Ok a, w1)
    | (Throw err, w1) => handler err e w1
    end.

Declare Scope js_scope.
Delimit Scope js_scope with js.
Notation "x <- m ;; k" := (bind m (fun x => k))
  (at level 61, m at next level, right associativity) : js_scope.
Notation "m ;; k" := (bind m (fun _ => k))
  (at level 61, right associativity) : js_scope.
Local Open Scope js_scope.

Definition emit (ev : Event) : M unit :=
  fun _ w => (Ok tt, mkWorld (stores w) (customers w) (orders w) (next_id w)
                             (db_calls w) (net_calls w) (trace w ++ [ev])).

Definition console (l : Log) : M unit := emit (EvConsole l).

(** [for (const x of xs) { body(x) }] *)
Fixpoint for_of {A} (xs : list A) (body : A -> M unit) : M unit :=
  match xs with
  | [] => ret tt
  | x :: rest => body x ;; for_of rest body
  end.

(** [await fetch(url, { headers: { 'X-Shopify-Access-Token': token } })] *)
Definition fetch (url token : string) : M Response :=
  fun e w =>
    let w1 := mkWorld (stores w) (customers w) (orders w) (next_id w)
                      (db_calls w) (S (net_calls w))
                      (trace w ++ [EvFetch url token]) in
    match net e (net_calls w) url token with
    | NetworkError err => (Throw err, w1)
    | Responded r => (Ok r, w1)
    end.

(** [await new Promise((r) => setTimeout(r, delay))] *)
Definition sleep (delay : Z) : M unit := emit (EvTimeout delay).

(** ** The database client

    The Prisma client is outside the repository; its calls are modelled by
    what they do to the tables.  Every call counts as one database call and
    throws, without touching the tables, when the environment says so. *)

Definition db_call {A} (op : DbOp) (query : World -> A * World) : M A :=
  fun e w =>
    let w1 := mkWorld (stores w) (customers w) (orders w) (next_id w)
                      (S (db_calls w)) (net_calls w) (trace w ++ [EvDb op]) in
    match db_fault e (db_calls w) with
    | Some err => (Throw err, w1)
    | None => let (a, w2) := query w1 in (Ok a, w2)
    end.

Definition set_customers (cs : list Customer) (n : LocalId) (w : World) : World :=
  mkWorld (stores w) cs (orders w) n (db_calls w) (net_calls w) (trace w).

Definition set_orders (os : list Order) (n : LocalId) (w : World) : World :=
  mkWorld (stores w) (customers w) os n (db_calls w) (net_calls w) (trace w).

(** The composite unique key [shopifyId_storeId]. *)
Definition customer_key (sid stid : string) (c : Customer) : bool :=
  (customer_shopifyId c =? sid) && (customer_storeId c =? stid).

Definition order_key (sid stid : string) (o : Order) : bool :=
  (order_shopifyId o =? sid) && (order_storeId o =? stid).

Fixpoint update_first {A} (p : A -> bool) (f : A -> A) (l : list A) : list A :=
  match l with
  | [] => []
  | x :: rest => if p x then f x :: rest else x :: update_first p f rest
  end.

(** [prisma.store.findUnique({ where: { id } })] *)
Definition store_findUnique (id : string) : M (option Store) :=
  db_call (StoreFindUnique id)
    (fun w => (find (fun s => store_id s =? id) (stores w), w)).

(** [prisma.store.findFirst({ where: { userId } })] *)
Definition store_findFirst_of (uid : string) : M (option Store) :=
  db_call (StoreFindFirst None (Some uid))
    (fun w => (find (fun s => userId s =? uid) (stores w), w)).

(** [prisma.store.findFirst()] *)
Definition store_findFirst : M (option Store) :=
  db_call (StoreFindFirst None None) (fun w => (hd_error (stores w), w)).

(** [prisma.customer.findUnique({ where: { shopifyId_storeId } })] *)
Definition customer_findUnique (sid stid : string) : M (option Customer) :=
  db_call (CustomerFindUnique sid stid)
    (fun w => (find (customer_key sid stid) (customers w), w)).

(** The [update] and [create] clauses of the customer upsert, route.ts lines
    30-41.  Each clause hands the properties of the record to Prisma as they
    are: a property the record lacks is [undefined] there, which [update]
    skips and [create] leaves to the column's default. *)
Definition customer_update (d : RawCustomer) (c : Customer) : Customer :=
  mkCustomer (customer_id c) (customer_shopifyId c)
             (updated (rc_email d) (customer_email c))
             (updated (rc_first_name d) (customer_firstName c))
             (updated (rc_last_name d) (customer_lastName c))
             (customer_storeId c).

Definition customer_create (d : RawCustomer) (stid : string) (id : LocalId) : Customer :=
  mkCustomer id (toString (rc_id d))
             (created (rc_email d)) (created (rc_first_name d)) (created (rc_last_name d))
             stid.

Definition customer_upsert_query (d : RawCustomer) (stid : string) (w : World) : World :=
  let sid := toString (rc_id d) in
  match find (customer_key sid stid) (customers w) with
  | Some _ =>
      set_customers (update_first (customer_key sid stid) (customer_update d) (customers w))
                    (next_id w) w
  | None =>
      set_customers (customers w ++ [customer_create d stid (next_id w)])
                    (S (next_id w)) w
  end.

(** [prisma.customer.upsert({ where, update, create })], route.ts lines 23-42 *)
Definition customer_upsert (d : RawCustomer) (stid : string) : M unit :=
  db_call (CustomerUpsert (toString (rc_id d)) stid)
    (fun w => (tt, customer_upsert_query d stid w)).

(** The [update] and [create] clauses of the order upsert, route.ts lines 80-95. *)
Definition order_update (d : RawOrder) (o : Order) : Order :=
  mkOrder (order_id o) (order_shopifyId o) (order_orderNumber o)
          (parseFloat (ro_total_price d))
          (order_currency o)
          (updated (ro_financial_status d) (order_financialStatus o))
          (updated (ro_fulfillment_status d) (order_fulfillmentStatus o))
          (order_processedAt o) (order_storeId o) (order_customerId o).

Definition order_create (d : RawOrder) (stid : string) (customer : option Customer)
    (id : LocalId) : Order :=
  mkOrder id (toString (ro_id d)) (ro_name d)
          (parseFloat (ro_total_price d))
          (ro_currency d)
          (created (ro_financial_status d)) (created (ro_fulfillment_status d))
          (match ro_processed_at d with
           | Some EmptyString => None
           | Some s => Some (newDate s)
           | None => None
           end)
          stid
          (option_map customer_id customer).

Definition order_upsert_query (d : RawOrder) (stid : string) (customer : option Customer)
    (w : World) : World :=
  let sid := toString (ro_id d) in
  match find (order_key sid stid) (orders w) with
  | Some _ =>
      set_orders (update_first (order_key sid stid) (order_update d) (orders w))
                 (next_id w) w
  | None =>
      set_orders (orders w ++ [order_create d stid customer (next_id w)])
                 (S (next_id w)) w
  end.

Definition order_upsert (d : RawOrder) (stid : string) (customer : option Customer) : M unit :=
  db_call (OrderUpsert (toString (ro_id d)) stid)
    (fun w => (tt, order_upsert_query d stid customer w)).

(** ** [syncHistoricalData], route.ts lines 10-108 *)

(** [const { customers } = await customersResponse.json()] followed by the
    first use [customers.length]. *)
Definition json_customers (r : Response) : M (list RawCustomer) :=
  match json r with
  | None => throw (JsError "SyntaxError" "Unexpected token in JSON")
  | Some (JCustomers l) => ret l
  | Some (JOrders _) => throw (JsError "TypeError" "Cannot read properties of undefined")
  end.

Definition json_orders (r : Response) : M (list RawOrder) :=
  match json r with
  | None => throw (JsError "SyntaxError" "Unexpected token in JSON")
  | Some (JOrders l) => ret l
  | Some (JCustomers _) => throw (JsError "TypeError" "Cannot read properties of undefined")
  end.

Definition customersApiUrl (store : Store) : string :=
  "https://" ++ shop store ++ "/admin/api/2024-07/customers.json?limit=250".

Definition ordersApiUrl (store : Store) : string :=
  "https://" ++ shop store ++ "/admin/api/2024-07/orders.json?status=any&limit=250".

(** Body of the customer loop, lines 22-45. *)
Definition sync_customer (store : Store) (customerData : RawCustomer) : M unit :=
  try_catch
    (customer_upsert customerData (store_id store))
    (fun error => console (ErrUpsertCustomer (rc_id customerData) error)).

(** Lines 62-71: the customer the order refers to, looked up by its Shopify id. *)
Definition lookup_customer (store : Store) (orderData : RawOrder) : M (option Customer) :=
  match ro_customer orderData with
  | Some c => customer_findUnique (toString (rc_id c)) (store_id store)
  | None => ret None
  end.

(** Body of the order loop, lines 61-99. *)
Definition sync_order (store : Store) (orderData : RawOrder) : M unit :=
  try_catch
    (customer <- lookup_customer store orderData ;;
     order_upsert orderData (store_id store) customer)
    (fun error => console (ErrUpsertOrder (ro_id orderData) error)).

(** Lines 13-50. *)
Definition customers_phase (store : Store) : M unit :=
  customersResponse <- fetch (customersApiUrl store) (accessToken store) ;;
  if ok customersResponse then
    customers <- json_customers customersResponse ;;
    console (LogFetchedCustomers (length customers)) ;;
    for_of customers (sync_customer store) ;;
    console (LogUpsertedCustomers (length customers))
  else
    console (ErrFetchCustomers (text customersResponse)).

(** Lines 52-104. *)
Definition orders_phase (store : Store) : M unit :=
  ordersResponse <- fetch (ordersApiUrl store) (accessToken store) ;;
  if ok ordersResponse then
    orders <- json_orders ordersResponse ;;
    console (LogFetchedOrders (length orders)) ;;
    for_of orders (sync_order store) ;;
    console (LogUpsertedOrders (length orders))
  else
    console (ErrFetchOrders (text ordersResponse)).

Definition syncHistoricalData (store : Store) : M unit :=
  console (LogSyncStart (shop store)) ;;
  try_catch
    (customers_phase store ;; orders_phase store)
    (fun error => console (ErrSync (shop store) error)).

(** ** [POST], route.ts lines 110-180 *)

Inductive JsonValue : Type :=
| JBool (b : bool)
| JString (s : string).

Record HttpResponse : Type := mkHttpResponse {
  status : nat;
  body : list (string * JsonValue)
}.

(** [NextResponse.json(body, { status })] *)
Definition NextResponse_json (b : list (string * JsonValue)) (st : nat) : HttpResponse :=
  mkHttpResponse st b.

Record Request : Type := mkRequest {
  searchParams : list (string * string)
}.

(** [searchParams.get(name)]: the first value given for [name], or [null]. *)
Definition searchParams_get (name : string) (request : Request) : option string :=
  option_map snd (find (fun kv => fst kv =? name) (searchParams request)).

(** [searchParams.get('wait') === 'true'], line 158. *)
Definition wait (request : Request) : bool :=
  match searchParams_get "wait" request with
  | Some v => v =? "true"
  | None => false
  end.

(** The race of [prisma.$connect()] against the 3 s timer, lines 113-116. *)
Definition connect_race : M bool := fun e w => (Ok (db_reachable e), w).

Definition currentUser : M (option string) := fun e w => (Ok (current_user e), w).

(** Lines 136-154: the store to sync, or the response that ends the request. *)
Definition resolve_store (uid : string) (storeIdParam : option string)
    : M (HttpResponse + Store) :=
  if truthy storeIdParam then
    store <- store_findUnique (match storeIdParam with Some id => id | None => "" end) ;;
    match store with
    | None =>
        ret (inl (NextResponse_json
                    [("error", JString "Store not found for provided storeId.")] 404))
    | Some s =>
        if negb (userId s =? uid) then
          ret (inl (NextResponse_json
                      [("error", JString "You do not have access to this store.")] 403))
        else ret (inr s)
    end
  else
    store <- store_findFirst_of uid ;;
    store <- match store with
             | None => store_findFirst      (* fallback for testing/dev *)
             | Some s => ret (Some s)
             end ;;
    match store with
    | None =>
        console (LogNoStore uid) ;;
        ret (inl (NextResponse_json
                    [("error", JString "No store connected and no stores found.")] 404))
    | Some s => ret (inr s)
    end.

(** [syncHistoricalData(store).catch((e) => console.error(...))], line 166:
    the run is not awaited; its effects are those of the run, and the response
    does not depend on them. *)
Definition detached (task : M unit) : M unit :=
  try_catch task (fun e => console (ErrBackground e)).

(** The [catch] of [POST], lines 168-177. *)
Definition POST_catch (error : Thrown) : M HttpResponse :=
  console (ErrStartSync error) ;;
  let message := match error with
                 | JsError _ m => m
                 | JsValue _ => "An unexpected error occurred"
                 end in
  let isDbDown :=
    includes message "Can't reach database server" ||
    includes message "getaddrinfo ENOTFOUND" ||
    includes message "connect ECONNREFUSED" ||
    includes message "PrismaClientInitializationError" in
  let status := if isDbDown then 503 else 500 in
  ret (NextResponse_json
         [("error", JString (if isDbDown
                             then "Database is unreachable. Please try again later."
                             else message))] status).

Definition POST (request : Request) : M HttpResponse :=
  try_catch
    (dbOk <- connect_race ;;
     if negb dbOk then
       ret (NextResponse_json
              [("error", JString "Database is unreachable. Please check DATABASE_URL and network connectivity and try again.");
               ("hint", JString "Verify your DB server is running and accessible from this environment.")]
              503)
     else
       user <- currentUser ;;
       if negb (truthy user) then
         ret (NextResponse_json [("error", JString "Not authenticated")] 401)
       else
         let uid := match user with Some id => id | None => "" end in
         console (LogUserRequesting uid) ;;
         let storeIdParam := searchParams_get "storeId" request in
         resolved <- resolve_store uid storeIdParam ;;
         match resolved with
         | inl response => ret response
         | inr store =>
             console (LogFoundStore (shop store) uid) ;;
             if wait request then
               syncHistoricalData store ;;
               ret (NextResponse_json
                      [("ok", JBool true); ("message", JString "Sync completed")] 200)
             else
               detached (syncHistoricalData store) ;;
               ret (NextResponse_json
                      [("ok", JBool true); ("message", JString "Sync started")] 202)
         end)
    POST_catch.

(** ** [withRetry], dashboard/page.tsx lines 433-450

    [while (true)] is unrolled with fuel; [None] means the fuel ran out
    ([withRetry_total] below: [retries + 1] rounds are always enough). *)

Definition isPoolTimeout (message : string) : bool :=
  includes message "connection pool" ||
  includes message "P2024" ||
  includes message "Timed out fetching a new connection".

Fixpoint withRetry_loop {T} (fuel : nat) (fn : M T) (label : string)
    (retries : nat) (baseDelayMs : Z) (attempt : nat)
    : Env -> World -> option (Result T * World) :=
  fun e w =>
    match fuel with
    | O => None
    | S fuel' =>
        match fn e w with
        | (Ok v, w1) => Some (Ok v, w1)
        | (Throw err, w1) =>
            let attempt := attempt + 1 in
            let message := message_of err in
            if (retries <? attempt)%nat || negb (isPoolTimeout message) then
              Some (Throw err, w1)
            else
              let delay := (baseDelayMs * 2 ^ Z.of_nat (attempt - 1))%Z in
              let (_, w2) :=
                (console (WarnRetry label attempt retries delay) ;; sleep delay) e w1 in
              withRetry_loop fuel' fn label retries baseDelayMs attempt e w2
        end
    end.

Definition withRetry {T} (fuel : nat) (fn : M T) (label : string)
    (retries : nat) (baseDelayMs : Z) : Env -> World -> option (Result T * World) :=
  withRetry_loop fuel fn label retries baseDelayMs 0.

(** The wrapped call of page.tsx lines 527-532:
    [prisma.store.findFirst({ where: { id: storeId, userId } })]. *)
Definition store_findFirst_where (id uid : string) : M (option Store) :=
  db_call (StoreFindFirst (Some id) (Some uid))
    (fun w => (find (fun s => (store_id s =? id) && (userId s =? uid)) (stores w), w)).

(** ** [fetchAllFromShopify], dashboard/page.tsx lines 706-730 *)

Definition dquote : string := String (ascii_of_nat 34) EmptyString.

(** The text [rel=] followed by the quoted word [next]. *)
Definition rel_next : string := "rel=" ++ dquote ++ "next" ++ dquote.

(** The ASCII part of the class [\s]. *)
Definition is_space (c : ascii) : bool :=
  match nat_of_ascii c with
  | 9 | 10 | 11 | 12 | 13 | 32 => true
  | _ => false
  end.

Fixpoint skip_spaces (s : string) : string :=
  match s with
  | EmptyString => EmptyString
  | String c rest => if is_space c then skip_spaces rest else s
  end.

(** The characters before the first [>] and what follows it. *)
Fixpoint until_gt (s : string) : option (string * string) :=
  match s with
  | EmptyString => None
  | String c rest =>
      if (c =? ">")%char then Some (EmptyString, rest)
      else match until_gt rest with
           | Some (u, after) => Some (String c u, after)
           | None => None
           end
  end.

(** The pattern, tried right after a [<]. *)
Definition match_here (s : string) : option string :=
  match until_gt s with
  | Some (String c u, String a after) =>
      if (a =? ";")%char && prefix rel_next (skip_spaces after)
      then Some (String c u) else None
  | _ => None
  end.

(** [linkHeader.match(/<([^>]+)>;\s*rel="next"/)], first group of the leftmost match. *)
Fixpoint link_next (header : string) : option string :=
  match header with
  | EmptyString => None
  | String c rest =>
      if (c =? "<")%char then
        match match_here rest with
        | Some u => Some u
        | None => link_next rest
        end
      else link_next rest
  end.

(** [data[Object.keys(data)[0]]] *)
Definition first_key (data : JsonBody) : list Raw :=
  match data with
  | JCustomers l => map RawC l
  | JOrders l => map RawO l
  end.

(** The cursor of a response: lines 724-726. *)
Definition next_cursor (res : Response) : option string :=
  match link res with
  | Some linkHeader => link_next linkHeader
  | None => None
  end.

Fixpoint fetchAll_loop (fuel : nat) (results : list Raw) (nextUrl : option string)
    (accessToken : string) : Env -> World -> option (Result (list Raw) * World) :=
  fun e w =>
    if negb (truthy nextUrl) then Some (Ok results, w)
    else
      match fuel with
      | O => None
      | S fuel' =>
          match fetch (match nextUrl with Some u => u | None => "" end) accessToken e w with
          | (Throw err, w1) => Some (Throw err, w1)
          | (Ok res, w1) =>
              if negb (ok res) then Some (Throw (JsError "Error" (text res)), w1)
              else
                match json res with
                | None => Some (Throw (JsError "SyntaxError" "Unexpected token in JSON"), w1)
                | Some data =>
                    fetchAll_loop fuel' (results ++ first_key data) (next_cursor res)
                                  accessToken e w1
                end
          end
      end.

Definition fetchAllFromShopify (fuel : nat) (url accessToken : string)
    : Env -> World -> option (Result (list Raw) * World) :=
  fetchAll_loop fuel [] (Some url) accessToken.

(** ** Observations on traces and environments *)

(** The delays slept, in order. *)
Definition delays_of (tr : list Event) : list Z :=
  flat_map (fun ev => match ev with EvTimeout d => [d] | _ => [] end) tr.

(** The requests sent, in order. *)
Definition requests_of (tr : list Event) : list string :=
  flat_map (fun ev => match ev with EvFetch url _ => [url] | _ => [] end) tr.

(** The database calls attempted, in order. *)
Definition db_ops_of (tr : list Event) : list DbOp :=
  flat_map (fun ev => match ev with EvDb op => [op] | _ => [] end) tr.

(** The schedule [baseDelay * 2^(n-1)] for attempts [n = 1 .. maxRetries]. *)
Definition backoff_schedule (baseDelay : Z) (maxRetries : nat) : list Z :=
  map (fun n => (baseDelay * 2 ^ (Z.of_nat n - 1))%Z) (seq 1 maxRetries).

(** The database calls number [from], ..., [from + n - 1] all fail with an
    error that [withRetry] classifies as transient. *)
Fixpoint transient_run (e : Env) (from n : nat) : bool :=
  match n with
  | O => true
  | S n' =>
      match db_fault e from with
      | Some err => isPoolTimeout (message_of err) && transient_run e (S from) n'
      | None => false
      end
  end.

(** An error of the class [RetryExhaustedError]. *)
Definition is_RetryExhaustedError (err : Thrown) : bool :=
  match err with
  | JsError name _ => name =? "RetryExhaustedError"
  | JsValue _ => false
  end.

(** What one failed attempt of [withRetry] leaves in the trace: the call,
    the warning and the timer. *)
Definition retry_round (op : DbOp) (label : string) (retries : nat) (baseDelayMs : Z)
    (attempt : nat) : list Event :=
  let delay := (baseDelayMs * 2 ^ Z.of_nat (attempt - 1))%Z in
  [EvDb op; EvConsole (WarnRetry label attempt retries delay); EvTimeout delay].

Definition retry_rounds (op : DbOp) (label : string) (retries : nat) (baseDelayMs : Z)
    (first n : nat) : list Event :=
  flat_map (retry_round op label retries baseDelayMs) (seq first n).

(** The world after [calls] more database calls that left [evs] in the trace
    and did not change the tables. *)
Definition advance (calls : nat) (evs : list Event) (w : World) : World :=
  mkWorld (stores w) (customers w) (orders w) (next_id w)
          (db_calls w + calls) (net_calls w) (trace w ++ evs).

(** Starting with request number [n] sent to [url], Shopify serves a
    collection of [k] pages of [m] records each; the pages [1 .. k-1] carry a
    link to the next page and the last one carries none. *)
Fixpoint serves_pages (e : Env) (token : string) (n : nat) (url : string)
    (k m : nat) : bool :=
  match k with
  | O => false
  | S k' =>
      match net e n url token with
      | Responded res =>
          ok res &&
          match json res with
          | Some data => (length (first_key data) =? m)%nat
          | None => false
          end &&
          match k', next_cursor res with
          | O, None => true
          | S _, Some next => serves_pages e token (S n) next k' m
          | _, _ => false
          end
      | NetworkError _ => false
      end
  end.

(** Events of the order phase that touch the database. *)
Definition is_order_op (ev : Event) : bool :=
  match ev with
  | EvDb (CustomerFindUnique _ _) | EvDb (OrderUpsert _ _) => true
  | _ => false
  end.

Definition is_customer_upsert (ev : Event) : bool :=
  match ev with
  | EvDb (CustomerUpsert _ _) => true
  | _ => false
  end.

(** ** Sample worlds *)

(** A world in which every database call times out on the connection pool. *)
Definition pool_timeout : Thrown :=
  JsError "PrismaClientKnownRequestError"
          "Timed out fetching a new connection from the connection pool.".

Definition store_a : Store := mkStore "store_a" "a.myshopify.com" "shpat_a" "user_a".

Definition world_a : World := mkWorld [store_a] [] [] 0 0 0 [].

Definition env_down : Env :=
  mkEnv (fun _ _ _ => NetworkError (JsError "TypeError" "fetch failed"))
        (fun _ => Some pool_timeout) true (Some "user_a").

(** The first three database calls time out, the following ones succeed. *)
Definition env_flaky : Env :=
  mkEnv (fun _ _ _ => NetworkError (JsError "TypeError" "fetch failed"))
        (fun n => if (n <? 3)%nat then Some pool_timeout else None)
        true (Some "user_a").

(** Every database call hits a constraint violation. *)
Definition constraint_violation : Thrown :=
  JsError "PrismaClientKnownRequestError" "Unique constraint failed on the fields".

Definition env_constraint : Env :=
  mkEnv (fun _ _ _ => NetworkError (JsError "TypeError" "fetch failed"))
        (fun _ => Some constraint_violation) true (Some "user_a").

(** Only the second database call does. *)
Definition env_second_call_fails : Env :=
  mkEnv (fun _ _ _ => NetworkError (JsError "TypeError" "fetch failed"))
        (fun n => if (n =? 1)%nat then Some constraint_violation else None)
        true (Some "user_a").

(** Two pages of two customers each; the first one links to the second. *)
Definition alice : RawCustomer :=
  mkRawCustomer 7001 (Value (Some "alice@example.com")) (Value (Some "Alice")) (Value None).
Definition bob : RawCustomer :=
  mkRawCustomer 7002 (Value None) (Value (Some "Bob")) (Value (Some "Builder")).
Definition carol : RawCustomer :=
  mkRawCustomer 7003 (Value (Some "carol@example.com")) (Value None) (Value None).
Definition dave : RawCustomer := mkRawCustomer 7004 (Value None) (Value None) (Value None).

(** A record of Alice that carries her first name and nothing else. *)
Definition alicia : RawCustomer :=
  mkRawCustomer 7001 Undefined (Value (Some "Alicia")) Undefined.

Definition page2_url : string :=
  "https://a.myshopify.com/admin/api/2024-07/customers.json?limit=250&page_info=p2".

Definition env_two_pages : Env :=
  mkEnv (fun n _ _ =>
           match n with
           | 0 => Responded (mkResponse true "" (Some (JCustomers [alice; bob]))
                               (Some ("<" ++ page2_url ++ ">; " ++ rel_next)))
           | _ => Responded (mkResponse true "" (Some (JCustomers [carol; dave])) None)
           end)
        (fun _ => None) true (Some "user_a").

(** The world after one more request that left [evs] in the trace. *)
Definition requested (evs : list Event) (w : World) : World :=
  mkWorld (stores w) (customers w) (orders w) (next_id w)
          (db_calls w) (S (net_calls w)) (trace w ++ evs).

(** The customer row an order links to: the row found under the Shopify id
    of the embedded customer, in the store of the run. *)
Definition linked_customer (store : Store) (d : RawOrder) (w : World) : option Customer :=
  match ro_customer d with
  | Some c => find (customer_key (toString (rc_id c)) (store_id store)) (customers w)
  | None => None
  end.

(** The database calls made for one order when none of them fails. *)
Definition order_calls (store : Store) (d : RawOrder) : list Event :=
  match ro_customer d with
  | Some c => [EvDb (CustomerFindUnique (toString (rc_id c)) (store_id store))]
  | None => []
  end ++ [EvDb (OrderUpsert (toString (ro_id d)) (store_id store))].

(** No order write and no linking lookup is followed by a customer upsert. *)
Fixpoint customers_before_orders (tr : list Event) : bool :=
  match tr with
  | [] => true
  | ev :: rest =>
      (if is_order_op ev then forallb (fun x => negb (is_customer_upsert x)) rest else true)
      && customers_before_orders rest
  end.

(** The events an action adds to the trace all satisfy [P]. *)
Definition appends {A} (P : Event -> bool) (m : M A) : Prop :=
  forall e w, exists evs, trace (snd (m e w)) = (trace w ++ evs)%list /\ forallb P evs = true.

(** The events an action adds are some satisfying [P] followed by some satisfying [Q]. *)
Definition appends2 {A} (P Q : Event -> bool) (m : M A) : Prop :=
  forall e w, exists xs ys,
    trace (snd (m e w)) = (trace w ++ xs ++ ys)%list
    /\ forallb P xs = true /\ forallb Q ys = true.

Definition not_order_op (ev : Event) : bool := negb (is_order_op ev).
Definition not_customer_upsert (ev : Event) : bool := negb (is_customer_upsert ev).

(** A database that answers and a shop with two customers and one order. *)
Definition order_1001 : RawOrder :=
  mkRawOrder 9001 (Some "#1001") "49.90" (Some "EUR")
             (Value (Some "paid")) (Value (Some "fulfilled"))
             (Some "2024-07-01T10:00:00Z") (Some alice).

(** A record of the same order that carries its price and no status. *)
Definition order_1001_price : RawOrder :=
  mkRawOrder 9001 None "59.90" None Undefined Undefined None None.

Definition env_sync : Env :=
  mkEnv (fun n _ _ =>
           match n with
           | 0 => Responded (mkResponse true "" (Some (JCustomers [alice; bob])) None)
           | _ => Responded (mkResponse true "" (Some (JOrders [order_1001])) None)
           end)
        (fun _ => None) true (Some "user_a").

(** The same shop, whose customers endpoint refuses the token. *)
Definition env_customers_refused : Env :=
  mkEnv (fun n _ _ =>
           match n with
           | 0 => Responded (mkResponse false "[API] Invalid API key or access token" None None)
           | _ => Responded (mkResponse true "" (Some (JOrders [order_1001])) None)
           end)
        (fun _ => None) true (Some "user_a").

(** A store in which Alice and the order 9001 are already stored; the order
    was stored in dollars, before Alice was known. *)
Definition stored_alice : Customer :=
  mkCustomer 5 "7001" (Some "alice@example.com") (Some "Alice") None "store_a".

Definition stored_1001 : Order :=
  mkOrder 11 "9001" (Some "#1001") (parseFloat "49.90") (Some "USD") (Some "pending")
          None None "store_a" None.

Definition world_b : World := mkWorld [store_a] [stored_alice] [stored_1001] 12 0 0 [].

(** A store in which Alice is stored and no order is. *)
Definition world_c : World := mkWorld [store_a] [stored_alice] [] 6 0 0 [].

(** The same shop and database, with another user signed in. *)
Definition env_other_user : Env :=
  mkEnv (net env_sync) (db_fault env_sync) true (Some "user_b").

Definition request_plain : Request := mkRequest [].
Definition request_wait : Request := mkRequest [("wait", "true")].
Definition request_store_a : Request := mkRequest [("storeId", "store_a")].

(** A shop whose customers come in two pages of two, answered by address. *)
Definition env_paged_shop : Env :=
  mkEnv (fun _ url _ =>
           if url =? customersApiUrl store_a then
             Responded (mkResponse true "" (Some (JCustomers [alice; bob]))
                          (Some ("<" ++ page2_url ++ ">; " ++ rel_next)))
           else if url =? page2_url then
             Responded (mkResponse true "" (Some (JCustomers [carol; dave])) None)
           else
             Responded (mkResponse true "" (Some (JOrders [order_1001])) None))
        (fun _ => None) true (Some "user_a").

(** ** Tables as values

    What a loop of upserts does to one table, when every call succeeds: the
    rows and the next identifier, one record after the other.  [key r] finds
    the row of the record [r], [upd r] is the update clause and [mk r] the
    create clause. *)
Definition upsert_row {A R : Type} (key : R -> A -> bool) (upd : R -> A -> A)
    (mk : R -> nat -> A) (r : R) (s : list A * nat) : list A * nat :=
  match find (key r) (fst s) with
  | Some _ => (update_first (key r) (upd r) (fst s), snd s)
  | None => ((fst s ++ [mk r (snd s)])%list, S (snd s))
  end.

Definition upsert_all {A R : Type} (key : R -> A -> bool) (upd : R -> A -> A)
    (mk : R -> nat -> A) (rs : list R) (s : list A * nat) : list A * nat :=
  fold_left (fun s r => upsert_row key upd mk r s) rs s.

(** Updates only, for records whose rows all exist. *)
Definition update_all {A R : Type} (key : R -> A -> bool) (upd : R -> A -> A)
    (rs : list R) (T : list A) : list A :=
  fold_left (fun T r => update_first (key r) (upd r) T) rs T.

(** The two tables of the sync, seen this way. *)
Definition customer_row_key (stid : string) (d : RawCustomer) : Customer -> bool :=
  customer_key (toString (rc_id d)) stid.

Definition order_row_key (stid : string) (d : RawOrder) : Order -> bool :=
  order_key (toString (ro_id d)) stid.

Definition same_customer (d d' : RawCustomer) : bool :=
  toString (rc_id d) =? toString (rc_id d').

Definition same_order (d d' : RawOrder) : bool :=
  toString (ro_id d) =? toString (ro_id d').

Definition upsert_customers (stid : string) (cs : list RawCustomer)
    (s : list Customer * nat) : list Customer * nat :=
  upsert_all (customer_row_key stid) customer_update
             (fun d n => customer_create d stid n) cs s.

(** The customer an order embeds, looked up in a given customer table. *)
Definition link_in (stid : string) (table : list Customer) (d : RawOrder) : option Customer :=
  match ro_customer d with
  | Some c => find (customer_key (toString (rc_id c)) stid) table
  | None => None
  end.

Definition upsert_orders (stid : string) (table : list Customer) (os : list RawOrder)
    (s : list Order * nat) : list Order * nat :=
  upsert_all (order_row_key stid) order_update
             (fun d n => order_create d stid (link_in stid table d) n) os s.

(** The row of [r] already carries what [r] says: updating it changes nothing. *)
Definition settled {A R : Type} (key : R -> A -> bool) (upd : R -> A -> A)
    (r : R) (T : list A) : Prop :=
  update_first (key r) (upd r) T = T.

(** The collection a request would be answered with, when the answer is a
    success carrying JSON. *)
Definition answers (e : Env) (n : nat) (url token : string) : option JsonBody :=
  match net e n url token with
  | Responded res => if ok res then json res else None
  | NetworkError _ => None
  end.

(** ** Relations between the tables before and after an action *)

Definition Tables : Type := (list Store * list Customer * list Order)%type.

Definition tables (w : World) : Tables := (stores w, customers w, orders w).

(** Whatever the outside does, the tables before and after [m] are related by [R]. *)
Definition keeps {A} (R : Tables -> Tables -> Prop) (m : M A) : Prop :=
  forall e w, R (tables w) (tables (snd (m e w))).

(** Rows of the stores other than [stid], and the store table, are the same. *)
Definition confined_to (stid : string) (t t' : Tables) : Prop :=
  fst (fst t') = fst (fst t)
  /\ filter (fun c => negb (customer_storeId c =? stid)) (snd (fst t')) =
     filter (fun c => negb (customer_storeId c =? stid)) (snd (fst t))
  /\ filter (fun o => negb (order_storeId o =? stid)) (snd t') =
     filter (fun o => negb (order_storeId o =? stid)) (snd t).

(** The unique constraint on (shopifyId, storeId), for both tables. *)
Definition unique_keys (t : Tables) : Prop :=
  (forall sid stid, length (filter (customer_key sid stid) (snd (fst t))) <= 1)%nat
  /\ (forall sid stid, length (filter (order_key sid stid) (snd t)) <= 1)%nat.

Definition keeps_unique (t t' : Tables) : Prop := unique_keys t -> unique_keys t'.

(** The identity of a row: its local identifier and its key. *)
Definition customer_identity (c : Customer) : LocalId * string * string :=
  (customer_id c, customer_shopifyId c, customer_storeId c).

Definition order_identity (o : Order) : LocalId * string * string * option LocalId :=
  (order_id o, order_shopifyId o, order_storeId o, order_customerId o).

(** Rows are only appended: the existing ones keep their place and identity
    (and an order its customer). *)
Definition append_only (t t' : Tables) : Prop :=
  fst (fst t') = fst (fst t)
  /\ (exists l, map customer_identity (snd (fst t')) =
                (map customer_identity (snd (fst t)) ++ l)%list)
  /\ (exists l, map order_identity (snd t') = (map order_identity (snd t) ++ l)%list).

Definition not_fetch (ev : Event) : bool :=
  match ev with
  | EvFetch _ _ => false
  | _ => true
  end.

(** The two answers of the endpoint after a sync was started. *)
Definition response_completed : HttpResponse :=
  NextResponse_json [("ok", JBool true); ("message", JString "Sync completed")] 200.

Definition response_started : HttpResponse :=
  NextResponse_json [("ok", JBool true); ("message", JString "Sync started")] 202.

(** ** Requests, pages and headers *)

Definition not_timeout (ev : Event) : bool :=
  match ev with
  | EvTimeout _ => false
  | _ => true
  end.

(** The requests sent, each with the token it carried, in order. *)
Definition fetches_of (tr : list Event) : list (string * string) :=
  flat_map (fun ev => match ev with EvFetch url token => [(url, token)] | _ => [] end) tr.

(** The customers request of a run fails in a way that throws: no answer at
    all, or a successful answer whose body is not the customers document. *)
Definition customers_request_throws (store : Store) (e : Env) (w : World) : bool :=
  match net e (net_calls w) (customersApiUrl store) (accessToken store) with
  | NetworkError _ => true
  | Responded res =>
      ok res && match json res with
                | Some (JCustomers _) => false
                | _ => true
                end
  end.

(** The records of a page. *)
Definition records_of (res : Response) : list Raw :=
  match json res with
  | Some data => first_key data
  | None => []
  end.

(** From request number [n] on, the shop answers [url] with the first of
    [pages] and the link of each page with the page after it; every page is
    a successful response with a readable body.  [next] is what the last
    page links to ([Some url] when there is no page at all). *)
Fixpoint serves_from (e : Env) (token : string) (n : nat) (url : string)
    (pages : list Response) (next : option string) : Prop :=
  match pages with
  | [] => next = Some url
  | res :: rest =>
      truthy (Some url) = true
      /\ net e n url token = Responded res
      /\ ok res = true
      /\ json res <> None
      /\ match next_cursor res with
         | Some u => serves_from e token (S n) u rest next
         | None => rest = [] /\ next = None
         end
  end.

(** The addresses of the pages, starting with [url]. *)
Fixpoint urls_from (url : string) (pages : list Response) : list string :=
  match pages with
  | [] => []
  | res :: rest =>
      url :: match next_cursor res with
             | Some u => urls_from u rest
             | None => []
             end
  end.

(** The world after the requests for [urls], and nothing else. *)
Definition after_requests (token : string) (urls : list string) (w : World) : World :=
  mkWorld (stores w) (customers w) (orders w) (next_id w) (db_calls w)
          (net_calls w + length urls)
          (trace w ++ map (fun u => EvFetch u token) urls).

(** A shop that links every page to a further one. *)
Definition env_endless_shop : Env :=
  mkEnv (fun _ _ _ =>
           Responded (mkResponse true "" (Some (JCustomers [alice]))
                        (Some ("<" ++ page2_url ++ ">; " ++ rel_next))))
        (fun _ => None) true (Some "user_a").

(** A shop whose second page is refused. *)
Definition env_second_page_refused : Env :=
  mkEnv (fun n _ _ =>
           match n with
           | 0 => Responded (mkResponse true "" (Some (JCustomers [alice; bob]))
                               (Some ("<" ++ page2_url ++ ">; " ++ rel_next)))
           | _ => Responded (mkResponse false "Too Many Requests" None None)
           end)
        (fun _ => None) true (Some "user_a").

(** [s] does not contain the character [c]. *)
Fixpoint free_of (c : ascii) (s : string) : bool :=
  match s with
  | EmptyString => true
  | String a rest => negb (a =? c)%char && free_of c rest
  end.

(** One entry of a [link] header: the address in angle brackets and its relation. *)
Definition link_entry (url rel : string) : string :=
  "<" ++ url ++ ">; rel=" ++ dquote ++ rel ++ dquote.

(** The two pages of [env_two_pages]. *)
Definition first_page : Response :=
  mkResponse true "" (Some (JCustomers [alice; bob]))
             (Some ("<" ++ page2_url ++ ">; " ++ rel_next)).

Definition last_page : Response :=
  mkResponse true "" (Some (JCustomers [carol; dave])) None.

(** ** [batchUpsert], dashboard/page.tsx lines 735-747

    The upserts of one batch run concurrently, under [pLimit]; what a batch
    does as a whole, [await Promise.all(batch.map(...))], is the parameter
    [all] here.  The loop over the batches is the source's; [None] means
    that the fuel ran out. *)

(** [items.slice(start, end)] for [0 <= start <= end]. *)
Definition slice {T} (items : list T) (start stop : nat) : list T :=
  firstn (stop - start) (skipn start items).

Fixpoint batchUpsert_loop {T} (fuel : nat) (items : list T) (all : list T -> M unit)
    (batchSize : nat) (i : nat) : Env -> World -> option (Result unit * World) :=
  fun e w =>
    if (i <? length items)%nat then
      match fuel with
      | O => None
      | S fuel' =>
          let batch := slice items i (i + batchSize) in
          match all batch e w with
          | (Ok _, w1) => batchUpsert_loop fuel' items all batchSize (i + batchSize) e w1
          | (Throw err, w1) => Some (Throw err, w1)
          end
      end
    else Some (Ok tt, w).

Definition batchUpsert {T} (fuel : nat) (items : list T) (all : list T -> M unit)
    (batchSize : nat) : Env -> World -> option (Result unit * World) :=
  batchUpsert_loop fuel items all batchSize 0.

(** The records of a loop that makes one database call per record, the
    first of them being call number [n], whose call goes through. *)
Fixpoint served {R : Type} (e : Env) (n : nat) (rs : list R) : list R :=
  match rs with
  | [] => []
  | r :: rest =>
      match db_fault e n with
      | None => r :: served e (S n) rest
      | Some _ => served e (S n) rest
      end
  end.

(** The shop of [env_sync] and a database whose first call fails. *)
Definition env_first_call_fails : Env :=
  mkEnv (net env_sync)
        (fun n => if (n =? 0)%nat then Some constraint_violation else None)
        true (Some "user_a").

(** ** Store resolution without fallback, dashboard/page.tsx lines 845-860

    The variant of [POST] glued into dashboard/page.tsx resolves the store
    as route.ts does, except that it has no fallback when the signed-in user
    has no store. *)
Definition resolve_store_owned (uid : string) (storeIdParam : option string)
    : M (HttpResponse + Store) :=
  if truthy storeIdParam then
    store <- store_findUnique (match storeIdParam with Some id => id | None => "" end) ;;
    match store with
    | None => ret (inl (NextResponse_json [("error", JString "Store not found")] 404))
    | Some s =>
        if negb (userId s =? uid) then
          ret (inl (NextResponse_json
                      [("error", JString "You do not have access to this store.")] 403))
        else ret (inr s)
    end
  else
    store <- store_findFirst_of uid ;;
    match store with
    | None => ret (inl (NextResponse_json [("error", JString "No store connected.")] 404))
    | Some s => ret (inr s)
    end.

(** What a column holds after the records [rs] were applied, in order, to a
    column holding [old]: the value of the last record that has the
    property, and [old] if none has it. *)
Definition last_value {R : Type} (f : R -> JsField) (rs : list R) (old : option string)
    : option string :=
  fold_left (fun x r => updated (f r) x) rs old.

(** A shop that lists Alice twice, the second time with her first name only,
    and the order 9001 twice, the second time with its price only. *)
Definition env_partial_records : Env :=
  mkEnv (fun n _ _ =>
           match n with
           | 0 => Responded (mkResponse true "" (Some (JCustomers [alice; alicia])) None)
           | _ => Responded (mkResponse true ""
                               (Some (JOrders [order_1001; order_1001_price])) None)
           end)
        (fun _ => None) true (Some "user_a").

(** * Properties *)

Local Open Scope list_scope.
Unset Implicit Arguments.

(** ** The retry executor *)

Lemma advance_0 (w : World) : advance 0 [] w = w.
Proof.
  destruct w; unfold advance; simpl. rewrite Nat.add_0_r, app_nil_r. reflexivity.
Qed.

Lemma advance_advance (a b : nat) (xs ys : list Event) (w : World) :
  advance b ys (advance a xs w) = advance (a + b) (xs ++ ys) w.
Proof.
  unfold advance; simpl. rewrite Nat.add_assoc, app_assoc. reflexivity.
Qed.

(** A database call that fails leaves its mark in the trace and nothing else. *)
Lemma db_call_fault {A} (op : DbOp) (q : World -> A * World) e w err :
  db_fault e (db_calls w) = Some err ->
  db_call op q e w = (Throw err, advance 1 [EvDb op] w).
Proof.
  intros H. unfold db_call. rewrite H. unfold advance.
  rewrite Nat.add_1_r. reflexivity.
Qed.

Lemma db_call_ok {A} (op : DbOp) (q : World -> A * World) e w :
  db_fault e (db_calls w) = None ->
  db_call op q e w = (let (a, w2) := q (advance 1 [EvDb op] w) in (Ok a, w2)).
Proof.
  intros H. unfold db_call. rewrite H. unfold advance.
  rewrite Nat.add_1_r. reflexivity.
Qed.

Lemma retry_rounds_S op label retries base first n :
  retry_rounds op label retries base first (S n) =
  retry_round op label retries base first ++ retry_rounds op label retries base (S first) n.
Proof. reflexivity. Qed.

(** [n] transient failures in a row, with retries left, cost [n] rounds. *)
Lemma withRetry_loop_rounds {T} (op : DbOp) (q : World -> T * World) label retries base e :
  forall n fuel attempt w,
    transient_run e (db_calls w) n = true ->
    attempt + n <= retries ->
    withRetry_loop (n + fuel) (db_call op q) label retries base attempt e w =
    withRetry_loop fuel (db_call op q) label retries base (attempt + n) e
      (advance n (retry_rounds op label retries base (S attempt) n) w).
Proof.
  induction n as [|n IH]; intros fuel attempt w Hrun Hle.
  - simpl. rewrite Nat.add_0_r, advance_0. reflexivity.
  - simpl in Hrun. destruct (db_fault e (db_calls w)) as [err|] eqn:Hf; [|discriminate].
    apply andb_true_iff in Hrun. destruct Hrun as [Hpool Hrun].
    cbn [Nat.add withRetry_loop]. rewrite (db_call_fault op q e w _ Hf).
    replace (retries <? attempt + 1)%nat with false
      by (symmetry; apply Nat.ltb_ge; lia).
    rewrite Hpool. cbn [negb orb].
    unfold bind, console, sleep, emit. cbn [fst snd].
    match goal with |- withRetry_loop _ _ _ _ _ _ _ ?w1 = _ => set (w' := w1) end.
    assert (Hw' : w' = advance 1 (retry_round op label retries base (S attempt)) w).
    { unfold w', advance, retry_round. cbn [stores customers orders next_id db_calls net_calls trace].
      rewrite Nat.add_1_r. repeat rewrite <- app_assoc. cbn [app].
      replace (attempt + 1) with (S attempt) by lia. reflexivity. }
    rewrite Hw'. replace (attempt + 1) with (S attempt) by lia.
    rewrite IH.
    + rewrite advance_advance, retry_rounds_S.
      replace (S attempt + n) with (attempt + S n) by lia. reflexivity.
    + unfold advance; cbn [db_calls]. rewrite Nat.add_1_r. exact Hrun.
    + lia.
Qed.

Lemma transient_run_last e from n :
  transient_run e from (S n) = true ->
  transient_run e from n = true /\
  exists err, db_fault e (from + n) = Some err /\ isPoolTimeout (message_of err) = true.
Proof.
  revert from. induction n as [|n IH]; intros from H.
  - simpl in H. destruct (db_fault e from) as [err|] eqn:Hf; [|discriminate].
    split; [reflexivity|]. exists err. rewrite Nat.add_0_r. split; [exact Hf|].
    apply andb_true_iff in H. tauto.
  - change (transient_run e from (S (S n))) with
      (match db_fault e from with
       | Some err => isPoolTimeout (message_of err) && transient_run e (S from) (S n)
       | None => false
       end) in H.
    destruct (db_fault e from) as [err|] eqn:Hf; [|discriminate].
    apply andb_true_iff in H. destruct H as [Hp H].
    destruct (IH _ H) as [H1 [err' [H2 H3]]].
    split.
    + simpl. rewrite Hf, Hp, H1. reflexivity.
    + exists err'. replace (from + S n) with (S from + n) by lia. tauto.
Qed.

Lemma delays_of_app (xs ys : list Event) :
  delays_of (xs ++ ys) = delays_of xs ++ delays_of ys.
Proof. unfold delays_of. apply flat_map_app. Qed.

Lemma db_ops_of_app (xs ys : list Event) :
  db_ops_of (xs ++ ys) = db_ops_of xs ++ db_ops_of ys.
Proof. unfold db_ops_of. apply flat_map_app. Qed.

Lemma requests_of_app (xs ys : list Event) :
  requests_of (xs ++ ys) = requests_of xs ++ requests_of ys.
Proof. unfold requests_of. apply flat_map_app. Qed.

(** The timers of [n] rounds are the backoff schedule. *)
Lemma delays_of_retry_rounds op label retries base first n :
  delays_of (retry_rounds op label retries base (S first) n) =
  map (fun k => (base * 2 ^ (Z.of_nat k - 1))%Z) (seq (S first) n).
Proof.
  revert first. induction n as [|n IH]; intros first; [reflexivity|].
  rewrite retry_rounds_S, delays_of_app, IH. cbn [seq map].
  unfold retry_round, delays_of. cbn [flat_map app].
  do 3 f_equal. lia.
Qed.

Lemma db_ops_of_retry_rounds op label retries base first n :
  db_ops_of (retry_rounds op label retries base first n) = repeat op n.
Proof.
  revert first. induction n as [|n IH]; intros first; [reflexivity|].
  rewrite retry_rounds_S, db_ops_of_app, IH. reflexivity.
Qed.

(** [retries + 1] rounds of fuel are always enough: the loop of [withRetry]
    returns or throws, whatever the wrapped operation does. *)
Lemma withRetry_loop_total {T} (fn : M T) label retries base e :
  forall fuel attempt w,
    attempt <= retries -> retries < fuel + attempt ->
    exists r, withRetry_loop fuel fn label retries base attempt e w = Some r.
Proof.
  induction fuel as [|fuel IH]; intros attempt w Ha Hf; [lia|].
  cbn [withRetry_loop]. destruct (fn e w) as [[v|err] w1]; [eauto|].
  destruct ((retries <? attempt + 1)%nat) eqn:Hlt; cbn [orb]; [eauto|].
  destruct (isPoolTimeout (message_of err)); cbn [negb]; [|eauto].
  apply Nat.ltb_ge in Hlt.
  destruct ((console (WarnRetry label (attempt + 1) retries
               (base * 2 ^ Z.of_nat (attempt + 1 - 1))) ;;
             sleep (base * 2 ^ Z.of_nat (attempt + 1 - 1))) e w1) as [r0 w2].
  apply IH; lia.
Qed.

Lemma withRetry_total {T} (fn : M T) label retries base fuel e w :
  retries < fuel ->
  exists r, withRetry fuel fn label retries base e w = Some r.
Proof. intros H. apply withRetry_loop_total; lia. Qed.

(** C8, as stated, fails: after [retries + 1 = 4] pool timeouts in a row
    [withRetry] rethrows the error of the operation itself; nothing wraps it
    into a [RetryExhaustedError]. *)
Lemma withRetry_exhausted_not_wrapped :
  withRetry 4 (store_findFirst_where "store_a" "user_a") "store.findFirst" 3 200
            env_down world_a
  = Some (Throw pool_timeout,
          advance 4 (retry_rounds (StoreFindFirst (Some "store_a") (Some "user_a"))
                       "store.findFirst" 3 200 1 3
                     ++ [EvDb (StoreFindFirst (Some "store_a") (Some "user_a"))]) world_a)
  /\ transient_run env_down (db_calls world_a) 4 = true
  /\ is_RetryExhaustedError pool_timeout = false.
Proof. repeat split; vm_compute; reflexivity. Qed.

(** C8 (amended): for a database call wrapped by [withRetry],
    (1) [retries] transient failures followed by a success return the result
    of the call, after exactly [retries] delays, the n-th being
    [baseDelayMs * 2^(n-1)], and [retries + 1] attempts;
    (2) [retries + 1] transient failures in a row end, after the same
    [retries] delays, with the last error of the call itself, rethrown as it
    is;
    (3) a first failure that is not transient is rethrown at once: one
    attempt, no delay. *)
Theorem withRetry_bound :
  forall (T : Type) (op : DbOp) (q : World -> T * World) (label : string)
         (retries : nat) (baseDelayMs : Z) (fuel : nat) (e : Env) (w : World),
    retries < fuel ->
    let rounds := retry_rounds op label retries baseDelayMs 1 retries in
    (transient_run e (db_calls w) retries = true ->
     db_fault e (db_calls w + retries) = None ->
     withRetry fuel (db_call op q) label retries baseDelayMs e w =
       Some (let (v, w') := q (advance (retries + 1) (rounds ++ [EvDb op]) w) in (Ok v, w'))
     /\ delays_of (rounds ++ [EvDb op]) = backoff_schedule baseDelayMs retries
     /\ db_ops_of (rounds ++ [EvDb op]) = repeat op (retries + 1))
    /\
    (transient_run e (db_calls w) (S retries) = true ->
     exists err,
       db_fault e (db_calls w + retries) = Some err
       /\ withRetry fuel (db_call op q) label retries baseDelayMs e w =
            Some (Throw err, advance (retries + 1) (rounds ++ [EvDb op]) w)
       /\ delays_of (rounds ++ [EvDb op]) = backoff_schedule baseDelayMs retries
       /\ db_ops_of (rounds ++ [EvDb op]) = repeat op (retries + 1))
    /\
    (forall err,
       db_fault e (db_calls w) = Some err ->
       isPoolTimeout (message_of err) = false ->
       withRetry fuel (db_call op q) label retries baseDelayMs e w =
         Some (Throw err, advance 1 [EvDb op] w)
       /\ delays_of [EvDb op] = []
       /\ db_ops_of [EvDb op] = [op]).
Proof.
  intros T op q label retries base fuel e w Hfuel rounds.
  assert (Hdel : delays_of (rounds ++ [EvDb op]) = backoff_schedule base retries).
  { unfold rounds. rewrite delays_of_app, delays_of_retry_rounds.
    cbn. rewrite app_nil_r. reflexivity. }
  assert (Hops : db_ops_of (rounds ++ [EvDb op]) = repeat op (retries + 1)).
  { unfold rounds. rewrite db_ops_of_app, db_ops_of_retry_rounds.
    rewrite repeat_app. reflexivity. }
  assert (Hsplit : exists f, fuel = retries + S f) by (exists (fuel - retries - 1); lia).
  destruct Hsplit as [f ->].
  assert (Hstep : forall w0 : World,
             advance 1 [EvDb op] (advance retries rounds w0) =
             advance (retries + 1) (rounds ++ [EvDb op]) w0)
    by (intros; apply advance_advance).
  split; [|split].
  - intros Hrun Hok. split; [|tauto].
    unfold withRetry. rewrite (withRetry_loop_rounds op q label retries base e retries (S f) 0 w Hrun);
      [|lia].
    cbn [Nat.add withRetry_loop]. fold rounds.
    rewrite db_call_ok by (unfold advance; cbn [db_calls]; exact Hok).
    rewrite Hstep.
    destruct (q (advance (retries + 1) (rounds ++ [EvDb op]) w)); reflexivity.
  - intros Hrun. apply transient_run_last in Hrun. destruct Hrun as [Hrun [err [Hf Hp]]].
    exists err. split; [exact Hf|]. split; [|tauto].
    unfold withRetry. rewrite (withRetry_loop_rounds op q label retries base e retries (S f) 0 w Hrun);
      [|lia].
    cbn [Nat.add withRetry_loop]. fold rounds.
    rewrite (db_call_fault op q e (advance retries rounds w) err)
      by (unfold advance; cbn [db_calls]; exact Hf).
    replace (retries <? retries + 1)%nat with true by (symmetry; apply Nat.ltb_lt; lia).
    cbn [orb]. rewrite Hstep. reflexivity.
  - intros err Hf Hp. split; [|split; reflexivity].
    unfold withRetry. replace (retries + S f) with (S (retries + f)) by lia.
    cbn [withRetry_loop]. rewrite (db_call_fault op q e w _ Hf).
    rewrite Hp. cbn [negb]. rewrite orb_true_r. reflexivity.
Qed.

Lemma withRetry_bound_witness :
  (3 < 4
   /\ transient_run env_flaky (db_calls world_a) 3 = true
   /\ db_fault env_flaky (db_calls world_a + 3) = None
   /\ exists w',
       withRetry 4 (store_findFirst_where "store_a" "user_a") "store.findFirst" 3 200
                 env_flaky world_a = Some (Ok (Some store_a), w')
       /\ delays_of (trace w') = [200; 400; 800]%Z)
  /\ (transient_run env_down (db_calls world_a) 4 = true
      /\ exists w',
          withRetry 4 (store_findFirst_where "store_a" "user_a") "store.findFirst" 3 200
                    env_down world_a = Some (Throw pool_timeout, w')
          /\ delays_of (trace w') = [200; 400; 800]%Z)
  /\ (isPoolTimeout (message_of constraint_violation) = false
      /\ exists w',
          withRetry 4 (store_findFirst_where "store_a" "user_a") "store.findFirst" 3 200
                    env_constraint world_a
          = Some (Throw constraint_violation, w')
          /\ delays_of (trace w') = []).
Proof.
  pose (op := StoreFindFirst (Some "store_a") (Some "user_a")).
  pose (q := fun w : World =>
               (find (fun s => (store_id s =? "store_a") && (userId s =? "user_a")) (stores w), w)).
  assert (H34 : 3 < 4) by lia.
  split; [|split].
  - destruct (withRetry_bound _ op q "store.findFirst" 3 200 4 env_flaky world_a H34)
      as [H _].
    assert (Hrun : transient_run env_flaky (db_calls world_a) 3 = true) by reflexivity.
    assert (Hok : db_fault env_flaky (db_calls world_a + 3) = None) by reflexivity.
    destruct (H Hrun Hok) as [Heq _].
    repeat split; try assumption.
    eexists. split; [exact Heq | reflexivity].
  - destruct (withRetry_bound _ op q "store.findFirst" 3 200 4 env_down world_a H34)
      as [_ [H _]].
    assert (Hrun : transient_run env_down (db_calls world_a) 4 = true) by reflexivity.
    destruct (H Hrun) as [err [Hf [Heq _]]].
    split; [exact Hrun|].
    vm_compute in Hf. injection Hf as <-.
    eexists. split; [exact Heq | reflexivity].
  - destruct (withRetry_bound _ op q "store.findFirst" 3 200 4 env_constraint world_a H34)
      as [_ [_ H]].
    split; [reflexivity|].
    assert (Hf : db_fault env_constraint (db_calls world_a) = Some constraint_violation)
      by reflexivity.
    destruct (H _ Hf eq_refl) as [Heq _].
    eexists. split; [exact Heq | reflexivity].
Defined.

(** ** The paginated fetcher *)

Lemma match_here_truthy s u : match_here s = Some u -> truthy (Some u) = true.
Proof.
  unfold match_here. destruct (until_gt s) as [[[|c u0] after]|]; try discriminate.
  destruct after as [|a after]; try discriminate.
  destruct ((a =? ";")%char && prefix rel_next (skip_spaces after)); try discriminate.
  intros H; injection H as <-. reflexivity.
Qed.

(** A cursor read from a [link] header is never the empty string, so the
    test [while (nextUrl)] succeeds on it. *)
Lemma link_next_truthy header u : link_next header = Some u -> truthy (Some u) = true.
Proof.
  induction header as [|c rest IH]; [discriminate|].
  cbn [link_next]. destruct ((c =? "<")%char); [|exact IH].
  destruct (match_here rest) as [u'|] eqn:Hm; [|exact IH].
  intros H; injection H as <-. exact (match_here_truthy _ _ Hm).
Qed.

Lemma next_cursor_truthy res u : next_cursor res = Some u -> truthy (Some u) = true.
Proof.
  unfold next_cursor. destruct (link res); [apply link_next_truthy|discriminate].
Qed.

Lemma fetchAll_loop_pages e token m :
  forall k fuel results url w,
    truthy (Some url) = true ->
    serves_pages e token (net_calls w) url k m = true ->
    k <= fuel ->
    exists records urls,
      fetchAll_loop fuel results (Some url) token e w =
        Some (Ok (results ++ records),
              mkWorld (stores w) (customers w) (orders w) (next_id w) (db_calls w)
                      (net_calls w + k) (trace w ++ map (fun u => EvFetch u token) urls))
      /\ length records = k * m
      /\ length urls = k.
Proof.
  induction k as [|k IH]; intros fuel results url w Hurl Hserves Hfuel; [discriminate|].
  destruct fuel as [|fuel]; [lia|].
  cbn [serves_pages] in Hserves.
  cbn [fetchAll_loop]. rewrite Hurl. cbn [negb]. unfold fetch.
  destruct (net e (net_calls w) url token) as [err|res]; [discriminate|].
  apply andb_true_iff in Hserves. destruct Hserves as [Hserves Hnext].
  apply andb_true_iff in Hserves. destruct Hserves as [Hok Hlen].
  rewrite Hok. cbn [negb].
  destruct (json res) as [data|]; [|discriminate].
  apply Nat.eqb_eq in Hlen.
  destruct k as [|k']; destruct (next_cursor res) as [next|] eqn:Hcur; try discriminate.
  - exists (first_key data), [url].
    destruct fuel; cbn [fetchAll_loop truthy negb map];
      (split; [rewrite Nat.add_1_r; reflexivity | split; [simpl; lia | reflexivity]]).
  - match goal with |- context [fetchAll_loop fuel _ _ _ _ ?w1] => set (w' := w1) end.
    destruct (IH fuel (results ++ first_key data) next w'
                 (next_cursor_truthy _ _ Hcur) Hnext ltac:(lia))
      as (records & urls & Heq & Hrec & Hurls).
    exists (first_key data ++ records), (url :: urls).
    rewrite Heq. unfold w'. cbn [stores customers orders next_id db_calls net_calls trace map].
    split; [|split].
    + rewrite <- !app_assoc. cbn [app].
      replace (S (net_calls w) + S k') with (net_calls w + S (S k')) by lia. reflexivity.
    + rewrite length_app. lia.
    + simpl. lia.
Qed.

(** When Shopify serves a collection of [k] pages of [m] records each, with
    a next-page link on the pages [1 .. k-1] only, [fetchAllFromShopify]
    returns [k * m] records after exactly [k] requests: it goes on while the
    response carries a cursor and stops at the first response without one.
    Nothing else happens (no database call, no other event). *)
Lemma fetchAll_counts :
  forall (e : Env) (w : World) (url token : string) (k m fuel : nat),
    truthy (Some url) = true ->
    serves_pages e token (net_calls w) url k m = true ->
    k <= fuel ->
    exists records w',
      fetchAllFromShopify fuel url token e w = Some (Ok records, w')
      /\ length records = k * m
      /\ length (requests_of (trace w')) = length (requests_of (trace w)) + k
      /\ net_calls w' = net_calls w + k
      /\ db_ops_of (trace w') = db_ops_of (trace w)
      /\ customers w' = customers w /\ orders w' = orders w.
Proof.
  intros e w url token k m fuel Hurl Hserves Hfuel.
  destruct (fetchAll_loop_pages e token m k fuel [] url w Hurl Hserves Hfuel)
    as (records & urls & Heq & Hrec & Hurls).
  eexists records, _. unfold fetchAllFromShopify. rewrite Heq.
  split; [reflexivity|]. cbn [trace net_calls customers orders].
  repeat split; try assumption.
  - rewrite requests_of_app, length_app. f_equal.
    rewrite <- Hurls. clear. induction urls; simpl; auto.
  - rewrite db_ops_of_app. rewrite <- (app_nil_r (db_ops_of (trace w))) at 2. f_equal.
    clear. induction urls; simpl; auto.
Qed.

(** C2, as stated, fails for the fetches of [syncHistoricalData]: a shop
    serves its customers in two pages of two, the first linking to the
    second.  The paginated fetcher reads both pages, but the sync of
    route.ts does not go through it: it sends one request for the
    customers, never reads the link header, and stores the two customers of
    the first page. *)
Remark sync_reads_first_page_only :
  serves_pages env_paged_shop "shpat_a" 0 (customersApiUrl store_a) 2 2 = true
  /\ (exists records w',
        fetchAllFromShopify 2 (customersApiUrl store_a) "shpat_a" env_paged_shop world_a
          = Some (Ok records, w')
        /\ length records = 4
        /\ requests_of (trace w') = [customersApiUrl store_a; page2_url])
  /\ requests_of (trace (snd (syncHistoricalData store_a env_paged_shop world_a))) =
     [customersApiUrl store_a; ordersApiUrl store_a]
  /\ map customer_shopifyId (customers (snd (syncHistoricalData store_a env_paged_shop world_a)))
     = ["7001"; "7002"].
Proof.
  split; [reflexivity|]. split; [|split; reflexivity].
  eexists _, _. split; [vm_compute; reflexivity|]. split; reflexivity.
Qed.

(** ** Tables under a unique key *)

Section Tables.
Context {A : Type} (p : A -> bool) (f : A -> A).
Hypothesis f_keeps_key : forall x, p (f x) = p x.

Lemma find_none_filter (l : list A) : find p l = None -> filter p l = [].
Proof.
  induction l as [|x l IH]; [reflexivity|]. simpl.
  destruct (p x); [discriminate|exact IH].
Qed.

Lemma find_some_filter (l : list A) (x : A) :
  find p l = Some x -> length (filter p l) <= 1 -> filter p l = [x].
Proof.
  induction l as [|y l IH]; [discriminate|]. simpl.
  destruct (p y) eqn:Hy.
  - intros H Hlen; injection H as <-. simpl in Hlen.
    destruct (filter p l); [reflexivity|simpl in Hlen; lia].
  - exact IH.
Qed.

Lemma filter_find (l : list A) (x : A) : filter p l = [x] -> find p l = Some x.
Proof.
  induction l as [|y l IH]; [discriminate|]. simpl.
  destruct (p y); [|exact IH]. intros H; injection H as -> _. reflexivity.
Qed.

Lemma filter_nil_find (l : list A) : filter p l = [] -> find p l = None.
Proof.
  induction l as [|y l IH]; [reflexivity|]. simpl.
  destruct (p y); [discriminate|exact IH].
Qed.

Lemma filter_update_first (l : list A) (x : A) :
  filter p l = [x] -> filter p (update_first p f l) = [f x].
Proof.
  induction l as [|y l IH]; [discriminate|]. simpl.
  destruct (p y) eqn:Hy.
  - intros H; injection H as -> Hl. simpl. rewrite f_keeps_key, Hy, Hl. reflexivity.
  - intros H. simpl. rewrite Hy. exact (IH H).
Qed.

(** Updating under one key leaves the number of rows under any key
    unchanged, provided the update keeps that key too. *)
Lemma length_filter_update_first (p' : A -> bool) (l : list A) :
  (forall x, p' (f x) = p' x) ->
  length (filter p' (update_first p f l)) = length (filter p' l).
Proof.
  intros Hk. induction l as [|y l IH]; [reflexivity|]. simpl.
  destruct (p y); simpl.
  - rewrite Hk. destruct (p' y); reflexivity.
  - destruct (p' y); simpl; rewrite IH; reflexivity.
Qed.

Lemma filter_snoc (l : list A) (x : A) :
  filter p (l ++ [x]) = filter p l ++ (if p x then [x] else []).
Proof. rewrite filter_app. reflexivity. Qed.
End Tables.

Lemma customer_update_key sid stid d c :
  customer_key sid stid (customer_update d c) = customer_key sid stid c.
Proof. reflexivity. Qed.

Lemma order_update_key sid stid d o :
  order_key sid stid (order_update d o) = order_key sid stid o.
Proof. reflexivity. Qed.

Lemma customer_create_key d stid n :
  customer_key (toString (rc_id d)) stid (customer_create d stid n) = true.
Proof. unfold customer_key; simpl. rewrite !String.eqb_refl. reflexivity. Qed.

Lemma order_create_key d stid cust n :
  order_key (toString (ro_id d)) stid (order_create d stid cust n) = true.
Proof. unfold order_key; simpl. rewrite !String.eqb_refl. reflexivity. Qed.

(** ** One item of the loops *)

Lemma sync_customer_run store d e w :
  sync_customer store d e w =
  match db_fault e (db_calls w) with
  | Some err =>
      (Ok tt, advance 1 [EvDb (CustomerUpsert (toString (rc_id d)) (store_id store));
                         EvConsole (ErrUpsertCustomer (rc_id d) err)] w)
  | None =>
      (Ok tt, customer_upsert_query d (store_id store)
                (advance 1 [EvDb (CustomerUpsert (toString (rc_id d)) (store_id store))] w))
  end.
Proof.
  unfold sync_customer, try_catch, customer_upsert.
  destruct (db_fault e (db_calls w)) as [err|] eqn:Hf.
  - rewrite (db_call_fault _ _ e w err Hf).
    unfold console, emit, advance; simpl. rewrite <- app_assoc. reflexivity.
  - rewrite (db_call_ok _ _ e w Hf). reflexivity.
Qed.

Lemma sync_customer_never_throws store d e w : fst (sync_customer store d e w) = Ok tt.
Proof. rewrite sync_customer_run. destruct (db_fault e (db_calls w)); reflexivity. Qed.

Lemma sync_order_never_throws store d e w : fst (sync_order store d e w) = Ok tt.
Proof.
  unfold sync_order, try_catch, bind.
  destruct (lookup_customer store d e w) as [[c|err] w1].
  - destruct (order_upsert d (store_id store) c e w1) as [[[]|err] w2]; reflexivity.
  - reflexivity.
Qed.

(** With a database that answers, an order costs its lookup (if it embeds a
    customer) and its upsert. *)
Lemma sync_order_run store d e w :
  (forall n, db_fault e n = None) ->
  sync_order store d e w =
  (Ok tt, order_upsert_query d (store_id store) (linked_customer store d w)
            (advance (length (order_calls store d)) (order_calls store d) w)).
Proof.
  intros Hdb. unfold sync_order, try_catch, bind, lookup_customer, linked_customer, order_calls.
  destruct (ro_customer d) as [c|].
  - unfold customer_findUnique, order_upsert.
    rewrite (db_call_ok _ _ e w (Hdb _)).
    rewrite (db_call_ok _ _ e _ (Hdb _)).
    rewrite advance_advance. reflexivity.
  - unfold ret, order_upsert. rewrite (db_call_ok _ _ e w (Hdb _)). reflexivity.
Qed.

(** A loop whose body never throws runs its body on every item, in order. *)
Lemma for_of_all {A} (body : A -> M unit) e :
  (forall x w, fst (body x e w) = Ok tt) ->
  forall xs w,
    for_of xs body e w = (Ok tt, fold_left (fun w x => snd (body x e w)) xs w).
Proof.
  intros Hbody. induction xs as [|x xs IH]; intros w; [reflexivity|].
  cbn [for_of fold_left]. unfold bind.
  specialize (Hbody x w). destruct (body x e w) as [[[]|err] w1]; [|discriminate].
  apply IH.
Qed.

(** ** Upserts on the tables *)


Lemma order_upsert_query_row d stid cust w :
  length (filter (order_key (toString (ro_id d)) stid) (orders w)) <= 1 ->
  filter (order_key (toString (ro_id d)) stid) (orders (order_upsert_query d stid cust w)) =
  [match find (order_key (toString (ro_id d)) stid) (orders w) with
   | Some o0 => order_update d o0
   | None => order_create d stid cust (next_id w)
   end].
Proof.
  intros Hlen. unfold order_upsert_query.
  destruct (find _ (orders w)) as [o0|] eqn:Hfind; cbn [orders set_orders].
  - apply filter_update_first; [intros; apply order_update_key|].
    apply find_some_filter; assumption.
  - rewrite filter_snoc, order_create_key, (find_none_filter _ _ Hfind). reflexivity.
Qed.

Lemma customer_upsert_query_orders d stid w :
  orders (customer_upsert_query d stid w) = orders w.
Proof. unfold customer_upsert_query. destruct (find _ _); reflexivity. Qed.

Lemma order_upsert_query_customers d stid cust w :
  customers (order_upsert_query d stid cust w) = customers w.
Proof. unfold order_upsert_query. destruct (find _ _); reflexivity. Qed.

(** The unique constraint on (shopifyId, storeId) is kept by the upserts. *)
Lemma customer_upsert_query_unique d stid w :
  (forall sid' stid', length (filter (customer_key sid' stid') (customers w)) <= 1) ->
  forall sid' stid',
    length (filter (customer_key sid' stid') (customers (customer_upsert_query d stid w))) <= 1.
Proof.
  intros Huniq sid' stid'. unfold customer_upsert_query.
  destruct (find _ (customers w)) as [c0|] eqn:Hfind; cbn [customers set_customers].
  - rewrite length_filter_update_first; [apply Huniq | intros; apply customer_update_key].
  - rewrite filter_snoc, length_app.
    destruct (customer_key sid' stid' (customer_create d stid (next_id w))) eqn:Hk;
      cbn [length]; [|specialize (Huniq sid' stid'); lia].
    unfold customer_key in Hk; simpl in Hk. apply andb_true_iff in Hk.
    destruct Hk as [H1 H2]. apply String.eqb_eq in H1, H2. subst sid' stid'.
    rewrite (find_none_filter _ _ Hfind). simpl. lia.
Qed.

Lemma order_upsert_query_unique d stid cust w :
  (forall sid' stid', length (filter (order_key sid' stid') (orders w)) <= 1) ->
  forall sid' stid',
    length (filter (order_key sid' stid') (orders (order_upsert_query d stid cust w))) <= 1.
Proof.
  intros Huniq sid' stid'. unfold order_upsert_query.
  destruct (find _ (orders w)) as [o0|] eqn:Hfind; cbn [orders set_orders].
  - rewrite length_filter_update_first; [apply Huniq | intros; apply order_update_key].
  - rewrite filter_snoc, length_app.
    destruct (order_key sid' stid' (order_create d stid cust (next_id w))) eqn:Hk;
      cbn [length]; [|specialize (Huniq sid' stid'); lia].
    unfold order_key in Hk; simpl in Hk. apply andb_true_iff in Hk.
    destruct Hk as [H1 H2]. apply String.eqb_eq in H1, H2. subst sid' stid'.
    rewrite (find_none_filter _ _ Hfind). simpl. lia.
Qed.




(** ** Linking orders to customers *)

(** Whatever the database does, one order changes no customer and either
    leaves the orders as they are or upserts this order. *)
Lemma sync_order_tables store d e w :
  customers (snd (sync_order store d e w)) = customers w
  /\ (orders (snd (sync_order store d e w)) = orders w
      \/ exists cust wq,
          orders wq = orders w
          /\ orders (snd (sync_order store d e w)) =
             orders (order_upsert_query d (store_id store) cust wq)).
Proof.
  unfold sync_order, try_catch, bind, lookup_customer.
  destruct (ro_customer d) as [c|]; unfold customer_findUnique, order_upsert, db_call, ret;
    cbn [db_calls];
    repeat match goal with
           | |- context [db_fault e ?n] => destruct (db_fault e n)
           end;
    cbn [fst snd customers orders console emit];
    try (split; [reflexivity | left; reflexivity]).
  - split; [rewrite order_upsert_query_customers; reflexivity|].
    right. eexists _, _. split; [|reflexivity]. reflexivity.
  - split; [rewrite order_upsert_query_customers; reflexivity|].
    right. eexists _, _. split; [|reflexivity]. reflexivity.
Qed.

Lemma find_update_first {A} (p : A -> bool) (f : A -> A) (l : list A) :
  (forall x, p (f x) = p x) ->
  find p (update_first p f l) = option_map f (find p l).
Proof.
  intros Hk. induction l as [|y l IH]; [reflexivity|]. simpl.
  destruct (p y) eqn:Hy; simpl.
  - rewrite Hk, Hy. reflexivity.
  - rewrite Hy. exact IH.
Qed.

Lemma find_snoc_new {A} (p : A -> bool) (l : list A) (x : A) :
  find p l = None -> p x = true -> find p (l ++ [x]) = Some x.
Proof.
  intros Hn Hx. induction l as [|y l IH]; simpl in *.
  - rewrite Hx. reflexivity.
  - destruct (p y); [discriminate|]. exact (IH Hn).
Qed.

(** After its upsert a customer is found under its key. *)
Lemma customer_upsert_query_find d stid w :
  find (customer_key (toString (rc_id d)) stid) (customers (customer_upsert_query d stid w)) =
  Some match find (customer_key (toString (rc_id d)) stid) (customers w) with
       | Some c0 => customer_update d c0
       | None => customer_create d stid (next_id w)
       end.
Proof.
  unfold customer_upsert_query.
  destruct (find _ (customers w)) as [c0|] eqn:Hfind; cbn [customers set_customers].
  - rewrite find_update_first by (intros; apply customer_update_key).
    rewrite Hfind. reflexivity.
  - apply find_snoc_new; [exact Hfind | apply customer_create_key].
Qed.

Lemma linked_customer_same_store store d w cust :
  linked_customer store d w = Some cust -> customer_storeId cust = store_id store.
Proof.
  unfold linked_customer. destruct (ro_customer d) as [c|]; [|discriminate].
  intros H. apply find_some in H. destruct H as [_ H].
  unfold customer_key in H. apply andb_true_iff in H. destruct H as [_ H].
  apply String.eqb_eq in H. exact H.
Qed.

(** The row created for an order that had none. *)
Lemma sync_order_creates store d e w :
  (forall n, db_fault e n = None) ->
  filter (order_key (toString (ro_id d)) (store_id store)) (orders w) = [] ->
  filter (order_key (toString (ro_id d)) (store_id store))
         (orders (snd (sync_order store d e w))) =
  [order_create d (store_id store) (linked_customer store d w) (next_id w)]
  /\ customers (snd (sync_order store d e w)) = customers w.
Proof.
  intros Hdb Hnone. rewrite (sync_order_run store d e w Hdb). cbn [snd]. split.
  - rewrite order_upsert_query_row.
    + cbn [orders advance next_id]. rewrite (filter_nil_find _ _ Hnone). reflexivity.
    + cbn [orders advance]. rewrite Hnone. simpl. lia.
  - rewrite order_upsert_query_customers. reflexivity.
Qed.

(** C6, as stated, fails: Alice is stored for the store and the raw order
    9001 embeds her, but the order row was created before she was known;
    processing the order again leaves its customer reference null. *)
Lemma existing_order_not_relinked :
  let w' := snd (sync_order store_a order_1001 env_sync world_b) in
  ro_customer order_1001 = Some alice
  /\ find (customer_key (toString (rc_id alice)) (store_id store_a)) (customers world_b)
     = Some stored_alice
  /\ exists o,
      filter (order_key (toString (ro_id order_1001)) (store_id store_a)) (orders w') = [o]
      /\ order_customerId o = None
      /\ order_customerId o <> Some (customer_id stored_alice).
Proof.
  split; [reflexivity|]. split; [reflexivity|].
  eexists. split; [vm_compute; reflexivity|]. split; [reflexivity|discriminate].
Qed.

(** C6 (amended): processing a raw order never fails, and with a database
    that answers:
    (1) when no row exists yet for the order, the row created refers to the
    customer row found under the embedded customer's Shopify id in the
    same store, whose own store is that store, and to no customer when none
    is found or the order embeds none;
    (2) this is so in particular for a customer upserted just before;
    (3) when a row already exists, its customer reference stays what it was. *)
Theorem order_linking :
  forall (e : Env) (w : World) (store : Store) (d : RawOrder),
    (forall n, db_fault e n = None) ->
    let key := order_key (toString (ro_id d)) (store_id store) in
    let w' := snd (sync_order store d e w) in
    fst (sync_order store d e w) = Ok tt
    /\ (filter key (orders w) = [] ->
        exists o,
          filter key (orders w') = [o]
          /\ order_storeId o = store_id store
          /\ order_customerId o = option_map customer_id (linked_customer store d w)
          /\ (forall cust, linked_customer store d w = Some cust ->
                order_customerId o = Some (customer_id cust)
                /\ customer_storeId cust = store_id store)
          /\ (linked_customer store d w = None -> order_customerId o = None))
    /\ (forall c, ro_customer d = Some c ->
        filter key (orders w) = [] ->
        let w2 := snd ((sync_customer store c ;; sync_order store d) e w) in
        exists cust o,
          find (customer_key (toString (rc_id c)) (store_id store)) (customers w2) = Some cust
          /\ filter key (orders w2) = [o]
          /\ order_customerId o = Some (customer_id cust)
          /\ customer_storeId cust = store_id store)
    /\ (forall o0, filter key (orders w) = [o0] ->
        exists o,
          filter key (orders w') = [o]
          /\ order_customerId o = order_customerId o0).
Proof.
  intros e w store d Hdb key w'. subst w'.
  split; [apply sync_order_never_throws|]. split; [|split].
  - intros Hnone. destruct (sync_order_creates store d e w Hdb Hnone) as [Hrow _].
    eexists. split; [exact Hrow|]. cbn [order_create order_storeId order_customerId].
    split; [reflexivity|]. split; [reflexivity|]. split.
    + intros cust Hl. rewrite Hl. split; [reflexivity|].
      exact (linked_customer_same_store store d w cust Hl).
    + intros Hl. rewrite Hl. reflexivity.
  - intros c Hc Hnone w2. subst w2. unfold bind.
    rewrite sync_customer_run, Hdb. cbn [fst snd].
    set (w1 := customer_upsert_query c (store_id store)
                 (advance 1 [EvDb (CustomerUpsert (toString (rc_id c)) (store_id store))] w)).
    assert (Hfind : exists cust,
               find (customer_key (toString (rc_id c)) (store_id store)) (customers w1)
               = Some cust).
    { eexists. unfold w1. apply customer_upsert_query_find. }
    destruct Hfind as [cust Hfind].
    assert (Hnone1 : filter key (orders w1) = []).
    { unfold w1. rewrite customer_upsert_query_orders. exact Hnone. }
    destruct (sync_order_creates store d e w1 Hdb Hnone1) as [Hrow Hcust].
    assert (Hl : linked_customer store d w1 = Some cust).
    { unfold linked_customer. rewrite Hc. exact Hfind. }
    exists cust. eexists. rewrite Hcust. split; [exact Hfind|].
    split; [exact Hrow|]. cbn [order_create order_customerId]. rewrite Hl.
    split; [reflexivity|]. exact (linked_customer_same_store store d w1 cust Hl).
  - intros o0 Hsome. rewrite (sync_order_run store d e w Hdb). cbn [snd].
    exists (order_update d o0). split; [|reflexivity].
    unfold key. rewrite order_upsert_query_row.
    + cbn [orders advance]. fold key. rewrite (filter_find _ _ _ Hsome). reflexivity.
    + cbn [orders advance]. fold key. rewrite Hsome. simpl. lia.
Qed.

Lemma order_linking_witness :
  (forall n, db_fault env_sync n = None)
  /\ filter (order_key (toString (ro_id order_1001)) (store_id store_a)) (orders world_c) = []
  /\ linked_customer store_a order_1001 world_c = Some stored_alice
  /\ (exists o,
        filter (order_key (toString (ro_id order_1001)) (store_id store_a))
               (orders (snd (sync_order store_a order_1001 env_sync world_c))) = [o]
        /\ order_customerId o = Some (customer_id stored_alice))
  /\ ro_customer order_1001 = Some alice
  /\ (exists cust o,
        find (customer_key (toString (rc_id alice)) (store_id store_a))
             (customers (snd ((sync_customer store_a alice ;; sync_order store_a order_1001)
                                env_sync world_a))) = Some cust
        /\ order_customerId o = Some (customer_id cust))
  /\ filter (order_key (toString (ro_id order_1001)) (store_id store_a)) (orders world_b)
     = [stored_1001]
  /\ (exists o,
        filter (order_key (toString (ro_id order_1001)) (store_id store_a))
               (orders (snd (sync_order store_a order_1001 env_sync world_b))) = [o]
        /\ order_customerId o = order_customerId stored_1001).
Proof.
  assert (Hdb : forall n, db_fault env_sync n = None) by reflexivity.
  assert (Hc : filter (order_key (toString (ro_id order_1001)) (store_id store_a))
                 (orders world_c) = []) by reflexivity.
  assert (Hl : linked_customer store_a order_1001 world_c = Some stored_alice)
    by reflexivity.
  assert (Hrc : ro_customer order_1001 = Some alice) by reflexivity.
  assert (Ha : filter (order_key (toString (ro_id order_1001)) (store_id store_a))
                 (orders world_a) = []) by reflexivity.
  assert (Hb : filter (order_key (toString (ro_id order_1001)) (store_id store_a))
                 (orders world_b) = [stored_1001]) by reflexivity.
  repeat split; try assumption.
  - destruct (order_linking env_sync world_c store_a order_1001 Hdb) as (_ & H1 & _).
    destruct (H1 Hc) as (o & Hrow & _ & _ & Hcust & _).
    exists o. split; [exact Hrow|]. exact (proj1 (Hcust stored_alice Hl)).
  - destruct (order_linking env_sync world_a store_a order_1001 Hdb) as (_ & _ & H2 & _).
    destruct (H2 alice Hrc Ha) as (cust & o & Hfind & _ & Hid & _).
    exists cust, o. tauto.
  - destruct (order_linking env_sync world_b store_a order_1001 Hdb) as (_ & _ & _ & H3).
    exact (H3 stored_1001 Hb).
Defined.

(** ** What an update of an order leaves alone *)

(** C10: when a row exists for the order, processing the raw order again
    keeps its identifiers, order number, currency, date and customer
    reference, whatever the database does and whatever customers were stored
    in between; with a database that answers, the total price becomes that
    of the raw order, and the financial and the fulfillment status become
    those of the raw order where it has the property (be it [null]) and stay
    as they were where it lacks it.  No other order row is added and no
    customer is touched. *)
Theorem order_update_frame :
  forall (e : Env) (w : World) (store : Store) (d : RawOrder) (o0 : Order),
    let key := order_key (toString (ro_id d)) (store_id store) in
    let w' := snd (sync_order store d e w) in
    filter key (orders w) = [o0] ->
    exists o,
      filter key (orders w') = [o]
      /\ order_id o = order_id o0
      /\ order_shopifyId o = order_shopifyId o0
      /\ order_storeId o = order_storeId o0
      /\ order_orderNumber o = order_orderNumber o0
      /\ order_currency o = order_currency o0
      /\ order_processedAt o = order_processedAt o0
      /\ order_customerId o = order_customerId o0
      /\ ((forall n, db_fault e n = None) ->
          order_financialStatus o =
            updated (ro_financial_status d) (order_financialStatus o0)
          /\ order_fulfillmentStatus o =
             updated (ro_fulfillment_status d) (order_fulfillmentStatus o0)
          /\ order_totalPrice o = parseFloat (ro_total_price d))
      /\ length (orders w') = length (orders w)
      /\ customers w' = customers w.
Proof.
  intros e w store d o0 key w' Hrow. subst w'.
  assert (Hupd : forall cust wq,
             orders wq = orders w ->
             orders (order_upsert_query d (store_id store) cust wq) =
             update_first key (order_update d) (orders w)).
  { intros cust wq Hwq. unfold order_upsert_query. rewrite Hwq. fold key.
    rewrite (filter_find _ _ _ Hrow). reflexivity. }
  assert (Hlen : length (update_first key (order_update d) (orders w)) = length (orders w)).
  { clear. induction (orders w) as [|y l IH]; [reflexivity|]. simpl.
    destruct (key y); simpl; [reflexivity | rewrite IH; reflexivity]. }
  assert (Hfil : filter key (update_first key (order_update d) (orders w)) = [order_update d o0]).
  { apply filter_update_first; [intros; apply order_update_key | exact Hrow]. }
  destruct (sync_order_tables store d e w) as [Hcust [Hsame | (cust & wq & Hwq & Hnew)]].
  - exists o0. rewrite Hsame, Hcust.
    split; [exact Hrow|]. do 7 (split; [reflexivity|]).
    split; [|split; reflexivity].
    intros Hdb. rewrite (sync_order_run store d e w Hdb) in Hsame. cbn [snd] in Hsame.
    rewrite (Hupd (linked_customer store d w)
               (advance (length (order_calls store d)) (order_calls store d) w) eq_refl)
      in Hsame.
    rewrite Hsame in Hfil. rewrite Hrow in Hfil.
    injection Hfil as Heq.
    pose proof (f_equal order_financialStatus Heq) as E1.
    pose proof (f_equal order_fulfillmentStatus Heq) as E2.
    pose proof (f_equal order_totalPrice Heq) as E3.
    cbn [order_update order_financialStatus order_fulfillmentStatus order_totalPrice]
      in E1, E2, E3.
    split; [exact E1|]. split; [exact E2 | exact E3].
  - exists (order_update d o0). rewrite Hnew, (Hupd cust wq Hwq), Hcust.
    split; [exact Hfil|]. do 7 (split; [reflexivity|]).
    split; [intros _; repeat split|]. split; [exact Hlen|reflexivity].
Qed.

Lemma order_update_frame_witness :
  filter (order_key (toString (ro_id order_1001)) (store_id store_a)) (orders world_b)
  = [stored_1001]
  /\ filter (order_key (toString (ro_id order_1001_price)) (store_id store_a)) (orders world_b)
     = [stored_1001]
  /\ (forall n, db_fault env_sync n = None)
  /\ (exists o,
        filter (order_key (toString (ro_id order_1001)) (store_id store_a))
               (orders (snd (sync_order store_a order_1001 env_sync world_b))) = [o]
        /\ order_currency o = Some "USD"%string
        /\ order_customerId o = None
        /\ order_financialStatus o = Some "paid"%string)
  /\ (exists o,
        filter (order_key (toString (ro_id order_1001_price)) (store_id store_a))
               (orders (snd (sync_order store_a order_1001_price env_sync world_b))) = [o]
        /\ order_financialStatus o = Some "pending"%string
        /\ order_totalPrice o = parseFloat "59.90").
Proof.
  assert (Hb : filter (order_key (toString (ro_id order_1001)) (store_id store_a))
                 (orders world_b) = [stored_1001]) by reflexivity.
  assert (Hp : filter (order_key (toString (ro_id order_1001_price)) (store_id store_a))
                 (orders world_b) = [stored_1001]) by reflexivity.
  assert (Hdb : forall n, db_fault env_sync n = None) by reflexivity.
  split; [exact Hb|]. split; [exact Hp|]. split; [exact Hdb|]. split.
  - destruct (order_update_frame env_sync world_b store_a order_1001 stored_1001 Hb)
      as (o & Hrow & _ & _ & _ & _ & Hcur & _ & Hcust & Hnew & _).
    exists o. split; [exact Hrow|]. split; [exact Hcur|]. split; [exact Hcust|].
    exact (proj1 (Hnew Hdb)).
  - destruct (order_update_frame env_sync world_b store_a order_1001_price stored_1001 Hp)
      as (o & Hrow & _ & _ & _ & _ & _ & _ & _ & Hnew & _).
    exists o. split; [exact Hrow|]. destruct (Hnew Hdb) as (Hf & _ & Hprice).
    split; [exact Hf | exact Hprice].
Defined.

(** ** What actions add to the trace *)

Lemma appends_ret {A} P (a : A) : appends P (ret a).
Proof. intros e w. exists []. rewrite app_nil_r. split; reflexivity. Qed.

Lemma appends_throw {A} P err : appends P (@throw A err).
Proof. intros e w. exists []. rewrite app_nil_r. split; reflexivity. Qed.

Lemma appends_emit P ev : P ev = true -> appends P (emit ev).
Proof. intros H e w. exists [ev]. simpl. rewrite H. split; reflexivity. Qed.

Lemma appends_console P l : P (EvConsole l) = true -> appends P (console l).
Proof. apply appends_emit. Qed.

Lemma appends_fetch P url token : P (EvFetch url token) = true -> appends P (fetch url token).
Proof.
  intros H e w. exists [EvFetch url token]. unfold fetch.
  destruct (net e (net_calls w) url token); simpl; rewrite H; split; reflexivity.
Qed.

Lemma appends_db_call {A} P op (q : World -> A * World) :
  P (EvDb op) = true ->
  (forall w, trace (snd (q w)) = trace w) ->
  appends P (db_call op q).
Proof.
  intros H Hq e w. exists [EvDb op]. unfold db_call.
  destruct (db_fault e (db_calls w)).
  - simpl. rewrite H. split; reflexivity.
  - match goal with |- context [q ?w1] => specialize (Hq w1); destruct (q w1) as [a w2] end.
    simpl in *. rewrite Hq, H. split; reflexivity.
Qed.

Lemma appends_bind {A B} P (m : M A) (k : A -> M B) :
  appends P m -> (forall a, appends P (k a)) -> appends P (bind m k).
Proof.
  intros Hm Hk e w. unfold bind. destruct (Hm e w) as (xs & Hx & Hpx).
  destruct (m e w) as [[a|err] w1]; simpl in Hx.
  - destruct (Hk a e w1) as (ys & Hy & Hpy). exists (xs ++ ys).
    rewrite Hy, Hx, app_assoc, forallb_app, Hpx, Hpy. split; reflexivity.
  - exists xs. simpl. tauto.
Qed.

Lemma appends_try_catch {A} P (m : M A) (h : Thrown -> M A) :
  appends P m -> (forall err, appends P (h err)) -> appends P (try_catch m h).
Proof.
  intros Hm Hh e w. unfold try_catch. destruct (Hm e w) as (xs & Hx & Hpx).
  destruct (m e w) as [[a|err] w1]; simpl in Hx.
  - exists xs. simpl. tauto.
  - destruct (Hh err e w1) as (ys & Hy & Hpy). exists (xs ++ ys).
    rewrite Hy, Hx, app_assoc, forallb_app, Hpx, Hpy. split; reflexivity.
Qed.

Lemma appends_for_of {A} P (body : A -> M unit) (xs : list A) :
  (forall x, appends P (body x)) -> appends P (for_of xs body).
Proof.
  intros Hb. induction xs as [|x xs IH]; cbn [for_of].
  - apply appends_ret.
  - apply appends_bind; [apply Hb | intros _; exact IH].
Qed.

Lemma appends_weaken {A} (P Q : Event -> bool) (m : M A) :
  (forall ev, P ev = true -> Q ev = true) -> appends P m -> appends Q m.
Proof.
  intros HPQ Hm e w. destruct (Hm e w) as (xs & Hx & Hpx). exists xs. split; [exact Hx|].
  rewrite forallb_forall in *. auto.
Qed.

(** One step along the structure of an action. *)
Ltac trace_step :=
  match goal with
  | |- appends _ (ret _) => apply appends_ret
  | |- appends _ (throw _) => apply appends_throw
  | |- appends _ (console _) => apply appends_console; reflexivity
  | |- appends _ (fetch _ _) => apply appends_fetch; reflexivity
  | |- appends _ (bind _ _) => apply appends_bind; [|intros ?]
  | |- appends _ (try_catch _ _) => apply appends_try_catch; [|intros ?]
  | |- appends _ (for_of _ _) => apply appends_for_of; intros ?
  | |- appends _ (if ?b then _ else _) => destruct b
  | |- appends _ (json_customers ?r) =>
      unfold json_customers; destruct (json r) as [[?|?]|]
  | |- appends _ (json_orders ?r) =>
      unfold json_orders; destruct (json r) as [[?|?]|]
  end.

Lemma customer_upsert_query_trace d stid w :
  trace (customer_upsert_query d stid w) = trace w.
Proof. unfold customer_upsert_query. destruct (find _ _); reflexivity. Qed.

Lemma order_upsert_query_trace d stid cust w :
  trace (order_upsert_query d stid cust w) = trace w.
Proof. unfold order_upsert_query. destruct (find _ _); reflexivity. Qed.

Lemma appends_sync_customer store d : appends not_order_op (sync_customer store d).
Proof.
  unfold sync_customer. apply appends_try_catch.
  - apply appends_db_call; [reflexivity|]. intros w. apply customer_upsert_query_trace.
  - intros err. apply appends_console. reflexivity.
Qed.

Lemma appends_sync_order store d : appends not_customer_upsert (sync_order store d).
Proof.
  unfold sync_order. apply appends_try_catch.
  - apply appends_bind.
    + unfold lookup_customer. destruct (ro_customer d).
      * apply appends_db_call; [reflexivity|]. reflexivity.
      * apply appends_ret.
    + intros cust. apply appends_db_call; [reflexivity|].
      intros w. apply order_upsert_query_trace.
  - intros err. apply appends_console. reflexivity.
Qed.

Lemma appends_customers_phase store : appends not_order_op (customers_phase store).
Proof. unfold customers_phase. repeat trace_step. apply appends_sync_customer. Qed.

Lemma appends_orders_phase store : appends not_customer_upsert (orders_phase store).
Proof. unfold orders_phase. repeat trace_step. apply appends_sync_order. Qed.

Lemma appends2_seq {A B} P Q (m1 : M A) (m2 : M B) :
  appends P m1 -> appends Q m2 -> appends2 P Q (bind m1 (fun _ => m2)).
Proof.
  intros H1 H2 e w. unfold bind. destruct (H1 e w) as (xs & Hx & Hpx).
  destruct (m1 e w) as [[a|err] w1]; simpl in Hx.
  - destruct (H2 e w1) as (ys & Hy & Hpy). exists xs, ys.
    rewrite Hy, Hx, app_assoc. tauto.
  - exists xs, []. simpl. rewrite app_nil_r. tauto.
Qed.

Lemma appends2_try_catch {A} P Q (m : M A) (h : Thrown -> M A) :
  appends2 P Q m -> (forall err, appends Q (h err)) -> appends2 P Q (try_catch m h).
Proof.
  intros Hm Hh e w. unfold try_catch. destruct (Hm e w) as (xs & ys & Hx & Hpx & Hpy).
  destruct (m e w) as [[a|err] w1]; simpl in Hx.
  - exists xs, ys. simpl. tauto.
  - destruct (Hh err e w1) as (zs & Hz & Hpz). exists xs, (ys ++ zs).
    rewrite Hz, Hx, forallb_app, Hpy, Hpz, <- !app_assoc. tauto.
Qed.

Lemma appends2_after {A B} P Q (m0 : M A) (m : M B) :
  appends P m0 -> appends2 P Q m -> appends2 P Q (bind m0 (fun _ => m)).
Proof.
  intros H0 Hm e w. unfold bind. destruct (H0 e w) as (xs0 & Hx0 & Hp0).
  destruct (m0 e w) as [[a|err] w1]; simpl in Hx0.
  - destruct (Hm e w1) as (xs & ys & Hx & Hpx & Hpy). exists (xs0 ++ xs), ys.
    rewrite Hx, Hx0, forallb_app, Hp0, Hpx, <- !app_assoc. tauto.
  - exists xs0, []. simpl. rewrite app_nil_r. tauto.
Qed.

Lemma customers_before_orders_split (xs ys : list Event) :
  forallb not_order_op xs = true ->
  forallb not_customer_upsert ys = true ->
  customers_before_orders (xs ++ ys) = true.
Proof.
  intros Hx Hy. induction xs as [|x xs IH]; simpl in *.
  - clear Hx. induction ys as [|y ys IH]; [reflexivity|]. simpl in *.
    apply andb_true_iff in Hy. destruct Hy as [_ Hy].
    rewrite (IH Hy). destruct (is_order_op y); [|reflexivity].
    unfold not_customer_upsert in Hy. rewrite Hy. reflexivity.
  - apply andb_true_iff in Hx. destruct Hx as [Hx0 Hx].
    unfold not_order_op in Hx0. apply negb_true_iff in Hx0. rewrite Hx0, (IH Hx).
    reflexivity.
Qed.

Lemma appends2_syncHistoricalData store :
  appends2 not_order_op not_customer_upsert (syncHistoricalData store).
Proof.
  unfold syncHistoricalData. apply appends2_after; [apply appends_console; reflexivity|].
  apply appends2_try_catch.
  - apply appends2_seq; [apply appends_customers_phase | apply appends_orders_phase].
  - intros err. apply appends_console. reflexivity.
Qed.

(** C7: in the events a run of [syncHistoricalData] adds to the trace, no
    order upsert and no customer lookup made for an order is followed by a
    customer upsert: the customer loop is over before the order phase
    touches the database. *)
Theorem customers_upserted_before_orders :
  forall (e : Env) (w : World) (store : Store),
  exists evs,
    trace (snd (syncHistoricalData store e w)) = trace w ++ evs
    /\ customers_before_orders evs = true.
Proof.
  intros e w store.
  destruct (appends2_syncHistoricalData store e w) as (xs & ys & Htr & Hx & Hy).
  exists (xs ++ ys). split; [exact Htr|].
  apply customers_before_orders_split; assumption.
Qed.

(** The checker does reject a customer upsert made after an order write, and
    the sample run contains both kinds of calls. *)
Example customers_before_orders_rejects :
  customers_before_orders
    [EvDb (OrderUpsert "9001" "store_a"); EvDb (CustomerUpsert "7001" "store_a")] = false
  /\ db_ops_of (trace (snd (syncHistoricalData store_a env_sync world_a))) =
     [CustomerUpsert "7001" "store_a"; CustomerUpsert "7002" "store_a";
      CustomerFindUnique "7001" "store_a"; OrderUpsert "9001" "store_a"].
Proof. split; reflexivity. Qed.

(** ** Best effort *)

Lemma syncHistoricalData_never_throws store e w :
  fst (syncHistoricalData store e w) = Ok tt.
Proof.
  unfold syncHistoricalData.
  set (body := customers_phase store ;; orders_phase store).
  unfold bind, console, emit, try_catch.
  destruct (body e _) as [[[]|err] w2]; reflexivity.
Qed.

Lemma sync_customer_db_ops store d e w :
  db_ops_of (trace (snd (sync_customer store d e w))) =
  db_ops_of (trace w) ++ [CustomerUpsert (toString (rc_id d)) (store_id store)].
Proof.
  rewrite sync_customer_run. destruct (db_fault e (db_calls w)); cbn [snd].
  - cbn [advance trace]. rewrite db_ops_of_app. reflexivity.
  - rewrite customer_upsert_query_trace. cbn [advance trace].
    rewrite db_ops_of_app. reflexivity.
Qed.

Lemma customers_loop_db_ops store e :
  forall (cs : list RawCustomer) (w : World),
    db_ops_of (trace (fold_left (fun w d => snd (sync_customer store d e w)) cs w)) =
    db_ops_of (trace w) ++
    map (fun d => CustomerUpsert (toString (rc_id d)) (store_id store)) cs.
Proof.
  induction cs as [|d cs IH]; intros w; cbn [fold_left map].
  - rewrite app_nil_r. reflexivity.
  - rewrite IH, sync_customer_db_ops, <- app_assoc. reflexivity.
Qed.

(** C9: (1) the customer loop runs its body on every fetched customer, in
    order, whatever the database does: one upsert attempt per customer;
    (2) so does the order loop;
    (3) an upsert (or, for an order, a lookup) that throws is caught and
    logged, and the item ends normally;
    (4) [syncHistoricalData] never throws. *)
Theorem best_effort_loops :
  forall (e : Env) (w : World) (store : Store),
    (forall cs : list RawCustomer,
        for_of cs (sync_customer store) e w =
          (Ok tt, fold_left (fun w d => snd (sync_customer store d e w)) cs w)
        /\ db_ops_of (trace (snd (for_of cs (sync_customer store) e w))) =
           db_ops_of (trace w) ++
           map (fun d => CustomerUpsert (toString (rc_id d)) (store_id store)) cs)
    /\ (forall os : list RawOrder,
        for_of os (sync_order store) e w =
          (Ok tt, fold_left (fun w d => snd (sync_order store d e w)) os w))
    /\ (forall (d : RawCustomer) (err : Thrown),
        db_fault e (db_calls w) = Some err ->
        sync_customer store d e w =
          (Ok tt, advance 1 [EvDb (CustomerUpsert (toString (rc_id d)) (store_id store));
                             EvConsole (ErrUpsertCustomer (rc_id d) err)] w))
    /\ (forall (d : RawOrder) (err : Thrown),
        db_fault e (db_calls w) = Some err ->
        exists op,
          sync_order store d e w =
            (Ok tt, advance 1 [EvDb op; EvConsole (ErrUpsertOrder (ro_id d) err)] w))
    /\ (forall (d : RawOrder) (c : RawCustomer) (err : Thrown),
        ro_customer d = Some c ->
        db_fault e (db_calls w) = None ->
        db_fault e (S (db_calls w)) = Some err ->
        sync_order store d e w =
          (Ok tt, advance 2 [EvDb (CustomerFindUnique (toString (rc_id c)) (store_id store));
                             EvDb (OrderUpsert (toString (ro_id d)) (store_id store));
                             EvConsole (ErrUpsertOrder (ro_id d) err)] w))
    /\ fst (syncHistoricalData store e w) = Ok tt.
Proof.
  intros e w store. repeat apply conj.
  - intros cs. rewrite (for_of_all (sync_customer store) e
                          (fun x w0 => sync_customer_never_throws store x e w0) cs w).
    split; [reflexivity|]. apply customers_loop_db_ops.
  - intros os. apply for_of_all. intros x w0. apply sync_order_never_throws.
  - intros d err Hf. rewrite sync_customer_run, Hf. reflexivity.
  - intros d err Hf. unfold sync_order, try_catch, bind, lookup_customer.
    destruct (ro_customer d) as [c|].
    + exists (CustomerFindUnique (toString (rc_id c)) (store_id store)).
      unfold customer_findUnique. rewrite (db_call_fault _ _ e w err Hf).
      unfold console, emit, advance; simpl. rewrite <- app_assoc. reflexivity.
    + exists (OrderUpsert (toString (ro_id d)) (store_id store)).
      unfold ret, order_upsert. rewrite (db_call_fault _ _ e w err Hf).
      unfold console, emit, advance; simpl. rewrite <- app_assoc. reflexivity.
  - intros d c err Hc Hok Hf. unfold sync_order, try_catch, bind, lookup_customer.
    rewrite Hc. unfold customer_findUnique, order_upsert.
    rewrite (db_call_ok _ _ e w Hok).
    rewrite (db_call_fault _ _ e _ err) by (cbn [advance db_calls]; rewrite Nat.add_1_r; exact Hf).
    unfold console, emit, advance; simpl. rewrite <- !app_assoc.
    replace (db_calls w + 1 + 1) with (db_calls w + 2) by lia. reflexivity.
  - apply syncHistoricalData_never_throws.
Qed.

Lemma best_effort_loops_witness :
  db_fault env_constraint (db_calls world_a) = Some constraint_violation
  /\ sync_customer store_a alice env_constraint world_a =
       (Ok tt, advance 1 [EvDb (CustomerUpsert "7001" "store_a");
                          EvConsole (ErrUpsertCustomer 7001 constraint_violation)] world_a)
  /\ (exists op,
        sync_order store_a order_1001 env_constraint world_a =
          (Ok tt, advance 1 [EvDb op; EvConsole (ErrUpsertOrder 9001 constraint_violation)]
                          world_a))
  /\ ro_customer order_1001 = Some alice
  /\ db_fault env_second_call_fails (db_calls world_a) = None
  /\ db_fault env_second_call_fails (S (db_calls world_a)) = Some constraint_violation
  /\ sync_order store_a order_1001 env_second_call_fails world_a =
       (Ok tt, advance 2 [EvDb (CustomerFindUnique "7001" "store_a");
                          EvDb (OrderUpsert "9001" "store_a");
                          EvConsole (ErrUpsertOrder 9001 constraint_violation)] world_a).
Proof.
  assert (Hf : db_fault env_constraint (db_calls world_a) = Some constraint_violation)
    by reflexivity.
  assert (Hc : ro_customer order_1001 = Some alice) by reflexivity.
  assert (H0 : db_fault env_second_call_fails (db_calls world_a) = None) by reflexivity.
  assert (H1 : db_fault env_second_call_fails (S (db_calls world_a))
               = Some constraint_violation) by reflexivity.
  destruct (best_effort_loops env_constraint world_a store_a) as (_ & _ & Hcu & Hor & _).
  destruct (best_effort_loops env_second_call_fails world_a store_a)
    as (_ & _ & _ & _ & Hup & _).
  split; [exact Hf|].
  split; [exact (Hcu alice constraint_violation Hf)|].
  split; [exact (Hor order_1001 constraint_violation Hf)|].
  split; [exact Hc|]. split; [exact H0|]. split; [exact H1|].
  exact (Hup order_1001 alice constraint_violation Hc H0 H1).
Defined.

(** ** One request per collection *)

Lemma fetches_of_app (xs ys : list Event) :
  fetches_of (xs ++ ys) = fetches_of xs ++ fetches_of ys.
Proof. apply flat_map_app. Qed.

Lemma fetches_of_quiet (tr evs : list Event) :
  forallb not_fetch evs = true -> fetches_of (tr ++ evs) = fetches_of tr.
Proof.
  intros H. rewrite fetches_of_app. rewrite <- (app_nil_r (fetches_of tr)) at 2. f_equal.
  induction evs as [|ev evs IH]; [reflexivity|]. cbn [forallb] in H.
  apply andb_true_iff in H. destruct H as [Hev H].
  destruct ev; try discriminate; cbn; apply IH; exact H.
Qed.

Lemma sync_customer_sends_nothing store d : appends not_fetch (sync_customer store d).
Proof.
  unfold sync_customer. apply appends_try_catch.
  - apply appends_db_call; [reflexivity|]. intros w. apply customer_upsert_query_trace.
  - intros err. apply appends_console. reflexivity.
Qed.

Lemma sync_order_sends_nothing store d : appends not_fetch (sync_order store d).
Proof.
  unfold sync_order. apply appends_try_catch.
  - apply appends_bind.
    + unfold lookup_customer. destruct (ro_customer d).
      * apply appends_db_call; [reflexivity|]. reflexivity.
      * apply appends_ret.
    + intros cust. apply appends_db_call; [reflexivity|].
      intros w. apply order_upsert_query_trace.
  - intros err. apply appends_console. reflexivity.
Qed.

(** A request, and then only things that are no requests. *)
Lemma fetch_then_quiet {A} url token (k : Response -> M A) :
  (forall r, appends not_fetch (k r)) ->
  forall e w,
    fetches_of (trace (snd (bind (fetch url token) k e w))) =
    fetches_of (trace w) ++ [(url, token)].
Proof.
  intros Hk e w. unfold bind, fetch.
  destruct (net e (net_calls w) url token) as [err|res].
  - cbn [snd trace]. rewrite fetches_of_app. reflexivity.
  - match goal with |- context [k res e ?w1] => destruct (Hk res e w1) as (evs & Hevs & Hq) end.
    rewrite Hevs. cbn [trace]. rewrite (fetches_of_quiet _ evs Hq), fetches_of_app.
    reflexivity.
Qed.

Lemma customers_phase_fetches store e w :
  fetches_of (trace (snd (customers_phase store e w))) =
  fetches_of (trace w) ++ [(customersApiUrl store, accessToken store)].
Proof.
  unfold customers_phase. apply fetch_then_quiet.
  intros r. repeat trace_step. apply sync_customer_sends_nothing.
Qed.

Lemma orders_phase_fetches store e w :
  fetches_of (trace (snd (orders_phase store e w))) =
  fetches_of (trace w) ++ [(ordersApiUrl store, accessToken store)].
Proof.
  unfold orders_phase. apply fetch_then_quiet.
  intros r. repeat trace_step. apply sync_order_sends_nothing.
Qed.

(** The customer phase throws exactly when its request does. *)
Lemma customers_phase_outcome store e w :
  if customers_request_throws store e w
  then exists err, fst (customers_phase store e w) = Throw err
  else fst (customers_phase store e w) = Ok tt.
Proof.
  remember (customers_phase store e w) as out eqn:HP.
  unfold customers_phase in HP. unfold bind at 1 in HP. unfold fetch in HP.
  unfold customers_request_throws.
  destruct (net e (net_calls w) (customersApiUrl store) (accessToken store)) as [err|res].
  - subst out. exists err. reflexivity.
  - destruct (ok res); cbn [andb].
    + unfold json_customers in HP.
      destruct (json res) as [[l|l]|].
      * unfold bind at 1 in HP. cbn [ret] in HP. unfold bind at 1 in HP.
        unfold console at 1 in HP. unfold emit at 1 in HP. unfold bind at 1 in HP.
        rewrite (for_of_all (sync_customer store) e
                   (fun x w0 => sync_customer_never_throws store x e w0)) in HP.
        subst out. reflexivity.
      * subst out. eexists. reflexivity.
      * subst out. eexists. reflexivity.
    + subst out. reflexivity.
Qed.

Lemma requests_of_fetches (tr : list Event) : requests_of tr = map fst (fetches_of tr).
Proof.
  unfold requests_of, fetches_of. induction tr as [|ev tr IH]; [reflexivity|].
  destruct ev; cbn [flat_map app map fst]; rewrite IH; reflexivity.
Qed.

(** C2 (amended): [syncHistoricalData] sends one request per collection,
    whatever the responses and their link headers are: the customers
    request and then, unless that one threw, the orders request, and no
    other; so it reads the first page of each collection (up to 250
    records) and no more.  The paginated fetcher [fetchAllFromShopify],
    which route.ts does not call, has the property claimed: on [k] pages of
    [m] records, with a next-page link on the pages [1 .. k-1] only, it
    returns [k * m] records after exactly [k] requests and stops at the
    first response without a link, doing nothing else. *)
Theorem one_request_per_collection :
  (forall (e : Env) (w : World) (store : Store),
      requests_of (trace (snd (syncHistoricalData store e w))) =
      requests_of (trace w)
      ++ customersApiUrl store
         :: (if customers_request_throws store e w then [] else [ordersApiUrl store]))
  /\ (forall (e : Env) (w : World) (url token : string) (k m fuel : nat),
        truthy (Some url) = true ->
        serves_pages e token (net_calls w) url k m = true ->
        k <= fuel ->
        exists records w',
          fetchAllFromShopify fuel url token e w = Some (Ok records, w')
          /\ length records = k * m
          /\ length (requests_of (trace w')) = length (requests_of (trace w)) + k
          /\ net_calls w' = net_calls w + k
          /\ db_ops_of (trace w') = db_ops_of (trace w)
          /\ customers w' = customers w /\ orders w' = orders w).
Proof.
  split; [|exact fetchAll_counts].
  intros e w store. rewrite !requests_of_fetches.
  assert (H : fetches_of (trace (snd (syncHistoricalData store e w))) =
              fetches_of (trace w)
              ++ (customersApiUrl store, accessToken store)
                 :: (if customers_request_throws store e w then []
                     else [(ordersApiUrl store, accessToken store)])).
  { unfold syncHistoricalData. unfold bind at 1. unfold console, emit.
    match goal with |- context [try_catch _ _ e ?w0] => set (w1 := w0) end.
    assert (Hw1 : fetches_of (trace w1) = fetches_of (trace w)).
    { unfold w1. cbn [trace]. rewrite fetches_of_app. cbn. apply app_nil_r. }
    change (customers_request_throws store e w) with (customers_request_throws store e w1).
    unfold try_catch. unfold bind at 1.
    pose proof (customers_phase_fetches store e w1) as Hc.
    pose proof (customers_phase_outcome store e w1) as Ho.
    destruct (customers_phase store e w1) as [[[]|err] w2]; cbn [fst snd] in Hc, Ho.
    - destruct (customers_request_throws store e w1); [destruct Ho; discriminate|].
      pose proof (orders_phase_fetches store e w2) as Hord.
      destruct (orders_phase store e w2) as [[[]|err] w3]; cbn [fst snd] in Hord |- *.
      + rewrite Hord, Hc, Hw1, <- app_assoc. reflexivity.
      + cbn [trace]. rewrite fetches_of_app, Hord, Hc, Hw1, <- !app_assoc. reflexivity.
    - destruct (customers_request_throws store e w1); [|discriminate].
      cbn [snd trace]. rewrite fetches_of_app, Hc, Hw1, <- !app_assoc. reflexivity. }
  rewrite H, map_app.
  destruct (customers_request_throws store e w); reflexivity.
Qed.

Lemma one_request_per_collection_witness :
  truthy (Some (customersApiUrl store_a)) = true
  /\ serves_pages env_two_pages "shpat_a" (net_calls world_a) (customersApiUrl store_a) 2 2
     = true
  /\ 2 <= 5
  /\ (exists records w',
        fetchAllFromShopify 5 (customersApiUrl store_a) "shpat_a" env_two_pages world_a
          = Some (Ok records, w')
        /\ length records = 2 * 2
        /\ length (requests_of (trace w')) = length (requests_of (trace world_a)) + 2)
  /\ requests_of (trace (snd (syncHistoricalData store_a env_two_pages world_a))) =
     [customersApiUrl store_a; ordersApiUrl store_a].
Proof.
  assert (H1 : truthy (Some (customersApiUrl store_a)) = true) by reflexivity.
  assert (H2 : serves_pages env_two_pages "shpat_a" (net_calls world_a)
                 (customersApiUrl store_a) 2 2 = true) by reflexivity.
  assert (H3 : 2 <= 5) by lia.
  destruct one_request_per_collection as [Hsync Hfetch].
  split; [exact H1|]. split; [exact H2|]. split; [exact H3|]. split.
  - destruct (Hfetch env_two_pages world_a (customersApiUrl store_a) "shpat_a" 2 2 5 H1 H2 H3)
      as (records & w' & Heq & Hlen & Hreq & _).
    exists records, w'. split; [exact Heq|]. split; [exact Hlen | exact Hreq].
  - exact (Hsync env_two_pages world_a store_a).
Defined.

(** ** A fetch that fails *)

Lemma appends_any {A} P (m : M A) : appends P m -> appends (fun _ => true) m.
Proof. apply appends_weaken. reflexivity. Qed.

(** The order phase starts with the request for the orders. *)
Lemma orders_phase_starts_with_fetch store (h : Thrown -> M unit) e w :
  (forall err, appends (fun _ => true) (h err)) ->
  exists rest,
    trace (snd (try_catch (orders_phase store) h e w)) =
    trace w ++ EvFetch (ordersApiUrl store) (accessToken store) :: rest.
Proof.
  intros Hh. unfold try_catch, orders_phase.
  set (k := fun ordersResponse : Response =>
              if ok ordersResponse
              then orders <- json_orders ordersResponse ;;
                   console (LogFetchedOrders (length orders)) ;;
                   for_of orders (sync_order store) ;;
                   console (LogUpsertedOrders (length orders))
              else console (ErrFetchOrders (text ordersResponse))).
  assert (Hk : forall r, appends (fun _ => true) (k r)).
  { intros r. unfold k. repeat trace_step.
    exact (appends_any _ _ (appends_sync_order store _)). }
  unfold bind at 1. unfold fetch.
  destruct (net e (net_calls w) (ordersApiUrl store) (accessToken store)) as [err|res].
  - destruct (Hh err e (requested [EvFetch (ordersApiUrl store) (accessToken store)] w))
      as (evs & Hevs & _).
    exists evs. unfold requested in Hevs. rewrite Hevs. cbn [trace].
    rewrite <- app_assoc. reflexivity.
  - destruct (Hk res e (requested [EvFetch (ordersApiUrl store) (accessToken store)] w))
      as (evs & Hevs & _).
    unfold requested in Hevs.
    destruct (k res e _) as [[[]|err] w1]; cbn [snd] in *.
    + exists evs. rewrite Hevs. cbn [trace]. rewrite <- app_assoc. reflexivity.
    + destruct (Hh err e w1) as (evs' & Hevs' & _). exists (evs ++ evs').
      rewrite Hevs', Hevs. cbn [trace]. rewrite <- !app_assoc. reflexivity.
Qed.

(** C3, as stated, fails: the customers endpoint refuses the token, yet the
    run goes on to fetch the orders and to upsert them, and it ends normally:
    nothing is surfaced to the caller. *)
Lemma failed_customers_fetch_does_not_abort :
  net env_customers_refused (net_calls world_a) (customersApiUrl store_a) (accessToken store_a)
  = Responded (mkResponse false "[API] Invalid API key or access token" None None)
  /\ syncHistoricalData store_a env_customers_refused world_a =
     (Ok tt,
      mkWorld [store_a] []
        [mkOrder 0 "9001" (Some "#1001") (parseFloat "49.90") (Some "EUR") (Some "paid")
                 (Some "fulfilled") (Some (newDate "2024-07-01T10:00:00Z")) "store_a" None]
        1 2 2
        [EvConsole (LogSyncStart "a.myshopify.com");
         EvFetch (customersApiUrl store_a) "shpat_a";
         EvConsole (ErrFetchCustomers "[API] Invalid API key or access token");
         EvFetch (ordersApiUrl store_a) "shpat_a";
         EvConsole (LogFetchedOrders 1);
         EvDb (CustomerFindUnique "7001" "store_a");
         EvDb (OrderUpsert "9001" "store_a");
         EvConsole (LogUpsertedOrders 1)]).
Proof. split; reflexivity. Qed.

(** C3 (amended): in [syncHistoricalData], a non-success response to the
    customers request is logged, no customer is upserted, and the run goes on
    with the order phase, which starts by requesting the orders; a
    non-success response to the orders request is logged and the order phase
    ends there, leaving the tables as the customer phase left them; in both
    cases the run ends normally and nothing is surfaced to the caller.  The
    paginated fetcher, for its part, throws an [Error] carrying the body of a
    non-success response and sends no further request. *)
Theorem failed_fetch_is_logged :
  forall (e : Env) (w : World) (store : Store),
    (forall res,
        net e (net_calls w) (customersApiUrl store) (accessToken store) = Responded res ->
        ok res = false ->
        let w1 := requested [EvConsole (LogSyncStart (shop store));
                             EvFetch (customersApiUrl store) (accessToken store);
                             EvConsole (ErrFetchCustomers (text res))]
                            w in
        let handler := fun error => console (ErrSync (shop store) error) in
        syncHistoricalData store e w =
          (Ok tt, snd (try_catch (orders_phase store) handler e w1))
        /\ exists rest,
            trace (snd (syncHistoricalData store e w)) =
            trace w1 ++ EvFetch (ordersApiUrl store) (accessToken store) :: rest)
    /\ (forall res,
        net e (net_calls w) (ordersApiUrl store) (accessToken store) = Responded res ->
        ok res = false ->
        orders_phase store e w =
          (Ok tt, requested [EvFetch (ordersApiUrl store) (accessToken store);
                             EvConsole (ErrFetchOrders (text res))] w))
    /\ fst (syncHistoricalData store e w) = Ok tt
    /\ (forall fuel results url token res,
        truthy (Some url) = true ->
        net e (net_calls w) url token = Responded res ->
        ok res = false ->
        fetchAll_loop (S fuel) results (Some url) token e w =
          Some (Throw (JsError "Error" (text res)), requested [EvFetch url token] w)).
Proof.
  intros e w store. split; [|split; [|split]].
  - intros res Hnet Hok w1 handler.
    assert (Heq : syncHistoricalData store e w =
                  (Ok tt, snd (try_catch (orders_phase store) handler e w1))).
    { unfold syncHistoricalData.
      set (body := orders_phase store).
      unfold bind at 1. unfold console at 1. unfold emit at 1.
      unfold try_catch, bind, customers_phase, bind, fetch. cbn [net_calls].
      rewrite Hnet, Hok. unfold console at 1. unfold emit.
      cbn [stores customers orders next_id db_calls net_calls trace].
      match goal with
      | |- context [body e ?w2] => replace w2 with w1
      end.
      - destruct (body e w1) as [[[]|err] w2]; reflexivity.
      - unfold w1, requested. rewrite <- !app_assoc. reflexivity. }
    split; [exact Heq|]. rewrite Heq. cbn [snd].
    apply orders_phase_starts_with_fetch.
    intros err. apply appends_console. reflexivity.
  - intros res Hnet Hok. unfold orders_phase, bind, fetch. rewrite Hnet, Hok.
    unfold console, emit, requested. cbn [stores customers orders next_id db_calls net_calls trace].
    rewrite <- app_assoc. reflexivity.
  - apply syncHistoricalData_never_throws.
  - intros fuel results url token res Hurl Hnet Hok.
    cbn [fetchAll_loop]. rewrite Hurl. cbn [negb]. unfold fetch. rewrite Hnet, Hok.
    reflexivity.
Qed.

Lemma failed_fetch_is_logged_witness :
  net env_customers_refused (net_calls world_a) (customersApiUrl store_a) (accessToken store_a)
  = Responded (mkResponse false "[API] Invalid API key or access token" None None)
  /\ (exists rest,
        trace (snd (syncHistoricalData store_a env_customers_refused world_a)) =
        [EvConsole (LogSyncStart "a.myshopify.com");
         EvFetch (customersApiUrl store_a) "shpat_a";
         EvConsole (ErrFetchCustomers "[API] Invalid API key or access token");
         EvFetch (ordersApiUrl store_a) "shpat_a"] ++ rest)
  /\ orders_phase store_a env_customers_refused world_a =
       (Ok tt, requested [EvFetch (ordersApiUrl store_a) "shpat_a";
                          EvConsole (ErrFetchOrders "[API] Invalid API key or access token")]
                         world_a)
  /\ fetchAll_loop 2 [] (Some (customersApiUrl store_a)) (accessToken store_a)
                    env_customers_refused world_a =
       Some (Throw (JsError "Error" "[API] Invalid API key or access token"),
             requested [EvFetch (customersApiUrl store_a) (accessToken store_a)] world_a).
Proof.
  pose (res := mkResponse false "[API] Invalid API key or access token" None None).
  assert (Hnet : net env_customers_refused (net_calls world_a) (customersApiUrl store_a)
                   (accessToken store_a) = Responded res) by reflexivity.
  assert (Hnet' : net env_customers_refused (net_calls world_a) (ordersApiUrl store_a)
                    (accessToken store_a) = Responded res) by reflexivity.
  assert (Hok : ok res = false) by reflexivity.
  assert (Hurl : truthy (Some (customersApiUrl store_a)) = true) by reflexivity.
  destruct (failed_fetch_is_logged env_customers_refused world_a store_a)
    as (H1 & H2 & _ & H4).
  split; [exact Hnet|]. split; [|split].
  - destruct (H1 res Hnet Hok) as [_ [rest Hrest]]. exists rest. exact Hrest.
  - exact (H2 res Hnet' Hok).
  - exact (H4 1 [] (customersApiUrl store_a) (accessToken store_a) res Hurl Hnet Hok).
Defined.

(** ** The sync endpoint *)

(** A store looked up by the [storeId] parameter is handed to the sync only
    when the signed-in user owns it. *)
Lemma resolve_store_by_id_owned uid storeIdParam e w store :
  truthy storeIdParam = true ->
  fst (resolve_store uid storeIdParam e w) = Ok (inr store) ->
  userId store = uid.
Proof.
  intros Ht. unfold resolve_store. rewrite Ht. unfold bind.
  destruct (store_findUnique _ e w) as [[[s|]|err] w1]; cbn [fst ret];
    try discriminate.
  destruct (userId s =? uid) eqn:Hu; cbn [negb ret fst]; [|discriminate].
  intros H. injection H as <-. apply String.eqb_eq. exact Hu.
Qed.

(** C1, the failing request: [user_b] is signed in and owns no store, the
    request names no store, and the only store, [store_a], belongs to
    [user_a].  The endpoint answers 202 and runs the sync against [store_a],
    with its access token, writing its customers and orders.  Naming the
    store in the request is refused with 403. *)
Theorem POST_syncs_foreign_store :
  current_user env_other_user = Some "user_b"
  /\ userId store_a = "user_a"
  /\ stores world_a = [store_a]
  /\ fst (POST request_plain env_other_user world_a) =
     Ok (NextResponse_json [("ok", JBool true); ("message", JString "Sync started")] 202)
  /\ trace (snd (POST request_plain env_other_user world_a)) =
     [EvConsole (LogUserRequesting "user_b");
      EvDb (StoreFindFirst None (Some "user_b"));
      EvDb (StoreFindFirst None None);
      EvConsole (LogFoundStore "a.myshopify.com" "user_b");
      EvConsole (LogSyncStart "a.myshopify.com");
      EvFetch (customersApiUrl store_a) "shpat_a";
      EvConsole (LogFetchedCustomers 2);
      EvDb (CustomerUpsert "7001" "store_a");
      EvDb (CustomerUpsert "7002" "store_a");
      EvConsole (LogUpsertedCustomers 2);
      EvFetch (ordersApiUrl store_a) "shpat_a";
      EvConsole (LogFetchedOrders 1);
      EvDb (CustomerFindUnique "7001" "store_a");
      EvDb (OrderUpsert "9001" "store_a");
      EvConsole (LogUpsertedOrders 1)]
  /\ map customer_storeId (customers (snd (POST request_plain env_other_user world_a)))
     = ["store_a"; "store_a"]
  /\ fst (POST request_store_a env_other_user world_a) =
     Ok (NextResponse_json [("error", JString "You do not have access to this store.")] 403).
Proof. repeat split. Qed.

(** C5, as stated, fails: in synchronous mode a run that fetched two
    customers and one order and a run whose customers request was refused get
    the same answer, which carries neither counts nor outcome. *)
Lemma POST_wait_reports_nothing :
  fst (POST request_wait env_sync world_a) =
    Ok (NextResponse_json [("ok", JBool true); ("message", JString "Sync completed")] 200)
  /\ fst (POST request_wait env_customers_refused world_a) =
    Ok (NextResponse_json [("ok", JBool true); ("message", JString "Sync completed")] 200)
  /\ In (EvConsole (LogFetchedCustomers 2)) (trace (snd (POST request_wait env_sync world_a)))
  /\ In (EvConsole (ErrFetchCustomers "[API] Invalid API key or access token"))
        (trace (snd (POST request_wait env_customers_refused world_a)))
  /\ length (customers (snd (POST request_wait env_sync world_a))) = 2
  /\ length (customers (snd (POST request_wait env_customers_refused world_a))) = 0.
Proof.
  split; [reflexivity|]. split; [reflexivity|].
  split; [vm_compute; tauto|]. split; [vm_compute; tauto|].
  split; reflexivity.
Qed.

(** C5 (amended): once the database is reachable, a user is signed in and
    the store is resolved, the endpoint answers 200 with
    [{ ok: true, message: 'Sync completed' }] after the run when [wait=true],
    and 202 with [{ ok: true, message: 'Sync started' }] otherwise, whatever
    the run fetched and however it ended. *)
Theorem POST_sync_response :
  forall (e : Env) (w : World) (request : Request) (uid : string) (store : Store),
    db_reachable e = true ->
    current_user e = Some uid ->
    truthy (Some uid) = true ->
    fst (resolve_store uid (searchParams_get "storeId" request) e
           (snd (console (LogUserRequesting uid) e w))) = Ok (inr store) ->
    fst (POST request e w) =
      Ok (if wait request
          then NextResponse_json
                 [("ok", JBool true); ("message", JString "Sync completed")] 200
          else NextResponse_json
                 [("ok", JBool true); ("message", JString "Sync started")] 202).
Proof.
  intros e w request uid store Hdb Huser Huid Hres.
  unfold POST, try_catch. unfold bind at 1. unfold connect_race. rewrite Hdb. cbn [negb].
  unfold bind at 1. unfold currentUser. rewrite Huser, Huid. cbn [negb].
  unfold bind at 1.
  destruct (console (LogUserRequesting uid) e w) as [[[]|err0] w0] eqn:Hc;
    [|discriminate Hc].
  cbn [snd] in Hres. unfold bind at 1.
  destruct (resolve_store uid (searchParams_get "storeId" request) e w0)
    as [[[resp|s]|err1] w1]; cbn [fst] in Hres; try discriminate.
  injection Hres as ->.
  unfold bind at 1.
  destruct (console (LogFoundStore (shop store) uid) e w1) as [[[]|err2] w2] eqn:Hc2;
    [|discriminate Hc2].
  destruct (wait request).
  - unfold bind, ret.
    pose proof (syncHistoricalData_never_throws store e w2) as Hs.
    destruct (syncHistoricalData store e w2) as [[[]|err3] w3]; [reflexivity|discriminate].
  - unfold bind, ret, detached, try_catch.
    pose proof (syncHistoricalData_never_throws store e w2) as Hs.
    destruct (syncHistoricalData store e w2) as [[[]|err3] w3]; [reflexivity|discriminate].
Qed.

Lemma POST_sync_response_witness :
  db_reachable env_sync = true
  /\ current_user env_sync = Some "user_a"
  /\ truthy (Some "user_a") = true
  /\ fst (resolve_store "user_a" (searchParams_get "storeId" request_wait) env_sync
            (snd (console (LogUserRequesting "user_a") env_sync world_a))) = Ok (inr store_a)
  /\ wait request_wait = true
  /\ wait request_store_a = false
  /\ status match fst (POST request_wait env_sync world_a) with
            | Ok r => r
            | Throw _ => NextResponse_json [] 0
            end = 200
  /\ status match fst (POST request_store_a env_sync world_a) with
            | Ok r => r
            | Throw _ => NextResponse_json [] 0
            end = 202.
Proof.
  assert (H1 : db_reachable env_sync = true) by reflexivity.
  assert (H2 : current_user env_sync = Some "user_a") by reflexivity.
  assert (H3 : truthy (Some "user_a") = true) by reflexivity.
  assert (H4 : fst (resolve_store "user_a" (searchParams_get "storeId" request_wait) env_sync
                      (snd (console (LogUserRequesting "user_a") env_sync world_a)))
               = Ok (inr store_a)) by reflexivity.
  assert (H5 : fst (resolve_store "user_a" (searchParams_get "storeId" request_store_a)
                      env_sync
                      (snd (console (LogUserRequesting "user_a") env_sync world_a)))
               = Ok (inr store_a)) by reflexivity.
  split; [exact H1|]. split; [exact H2|]. split; [exact H3|]. split; [exact H4|].
  split; [reflexivity|]. split; [reflexivity|]. split.
  - rewrite (POST_sync_response env_sync world_a request_wait "user_a" store_a H1 H2 H3 H4).
    reflexivity.
  - rewrite (POST_sync_response env_sync world_a request_store_a "user_a" store_a H1 H2 H3 H5).
    reflexivity.
Defined.

(** * Beyond the claims *)

(** ** The algebra of upserts *)

Section UpsertAlgebra.
Context {A R : Type}.
Variable key : R -> A -> bool.
Variable upd : R -> A -> A.
Variable mk : R -> nat -> A.
Variable same : R -> R -> bool.
Hypothesis key_upd : forall r r' a, key r' (upd r a) = key r' a.
Hypothesis key_mk : forall r n, key r (mk r n) = true.
Hypothesis same_key : forall r r' a, same r r' = true -> key r a = key r' a.
Hypothesis diff_key : forall r r' a, same r r' = false -> key r a = true -> key r' a = false.
Hypothesis same_refl : forall r, same r r = true.
Hypothesis same_sym : forall r r', same r r' = same r' r.
Hypothesis upd_idem : forall r a, upd r (upd r a) = upd r a.
Hypothesis upd_mask : forall r r' a, upd r (upd r' (upd r a)) = upd r (upd r' a).
Hypothesis upd_mk : forall r n, upd r (mk r n) = mk r n.

Local Abbreviation u r := (update_first (key r) (upd r)).
Local Abbreviation step := (upsert_row key upd mk).
Local Abbreviation run := (upsert_all key upd mk).
Local Abbreviation settled := (settled key upd).

Lemma u_commute r r' T : same r r' = false -> u r (u r' T) = u r' (u r T).
Proof.
  intros Hd. induction T as [|a T IH]; [reflexivity|]. cbn [update_first].
  destruct (key r a) eqn:Hr; destruct (key r' a) eqn:Hr'.
  - rewrite (diff_key r r' a Hd Hr) in Hr'. discriminate.
  - cbn [update_first]. rewrite Hr, key_upd, Hr'. reflexivity.
  - cbn [update_first]. rewrite Hr', key_upd, Hr. reflexivity.
  - cbn [update_first]. rewrite Hr, Hr', IH. reflexivity.
Qed.

Lemma u_idem r T : u r (u r T) = u r T.
Proof.
  induction T as [|a T IH]; [reflexivity|]. cbn [update_first].
  destruct (key r a) eqn:Hr; cbn [update_first].
  - rewrite key_upd, Hr, upd_idem. reflexivity.
  - rewrite Hr, IH. reflexivity.
Qed.

(** An update is masked by a later update of the same record, whatever
    happens in between. *)
Lemma u_mask r r' T : u r (u r' (u r T)) = u r (u r' T).
Proof.
  destruct (same r r') eqn:Hs.
  - induction T as [|a T IH]; [reflexivity|]. cbn [update_first].
    pose proof (same_key r r' a Hs) as Hk.
    destruct (key r a) eqn:Hr.
    + rewrite <- Hk. cbn [update_first]. rewrite key_upd, <- Hk.
      cbn [update_first]. rewrite !key_upd, Hr, upd_mask. reflexivity.
    + rewrite <- Hk. cbn [update_first]. rewrite <- Hk, Hr. cbn [update_first].
      rewrite Hr, IH. reflexivity.
  - rewrite (u_commute r r' (u r T) Hs), u_idem, <- (u_commute r r' T Hs). reflexivity.
Qed.

Lemma u_absent r T : existsb (key r) T = false -> u r T = T.
Proof.
  induction T as [|a T IH]; [reflexivity|]. cbn [existsb update_first].
  destruct (key r a); [discriminate|]. intros H. rewrite (IH H). reflexivity.
Qed.

Lemma u_app_absent r T l : existsb (key r) T = false -> u r (T ++ l) = T ++ u r l.
Proof.
  induction T as [|a T IH]; [reflexivity|]. cbn [existsb update_first app].
  destruct (key r a); [discriminate|]. intros H. rewrite (IH H). reflexivity.
Qed.

Lemma u_app_present r T l : existsb (key r) T = true -> u r (T ++ l) = u r T ++ l.
Proof.
  induction T as [|a T IH]; [discriminate|]. cbn [existsb update_first app].
  destruct (key r a); [reflexivity|]. intros H. rewrite (IH H). reflexivity.
Qed.

Lemma u_snoc_other r T x : key r x = false -> u r (T ++ [x]) = u r T ++ [x].
Proof.
  intros Hx. destruct (existsb (key r) T) eqn:He.
  - apply u_app_present. exact He.
  - rewrite (u_app_absent r T [x] He), (u_absent r T He). cbn [update_first].
    rewrite Hx. reflexivity.
Qed.

Lemma existsb_u r r' T : existsb (key r') (u r T) = existsb (key r') T.
Proof.
  induction T as [|a T IH]; [reflexivity|]. cbn [update_first].
  destruct (key r a); cbn [existsb].
  - rewrite key_upd. reflexivity.
  - rewrite IH. reflexivity.
Qed.

Lemma find_existsb (p : A -> bool) (T : list A) :
  existsb p T = match find p T with Some _ => true | None => false end.
Proof.
  induction T as [|a T IH]; [reflexivity|]. cbn [existsb find].
  destruct (p a); [reflexivity|exact IH].
Qed.

Lemma step_present r T n : existsb (key r) T = true -> step r (T, n) = (u r T, n).
Proof.
  intros H. unfold upsert_row. cbn [fst snd]. rewrite find_existsb in H.
  destruct (find (key r) T); [reflexivity|discriminate].
Qed.

Lemma step_absent r T n :
  existsb (key r) T = false -> step r (T, n) = (T ++ [mk r n], S n).
Proof.
  intros H. unfold upsert_row. cbn [fst snd]. rewrite find_existsb in H.
  destruct (find (key r) T); [discriminate|reflexivity].
Qed.

Lemma step_cases r s :
  (existsb (key r) (fst s) = true /\ step r s = (u r (fst s), snd s))
  \/ (existsb (key r) (fst s) = false /\ step r s = (fst s ++ [mk r (snd s)], S (snd s))).
Proof.
  destruct s as [T n]. cbn [fst snd]. destruct (existsb (key r) T) eqn:He.
  - left. split; [reflexivity|]. apply step_present. exact He.
  - right. split; [reflexivity|]. apply step_absent. exact He.
Qed.

(** A row that exists stays; the row of the record exists after its upsert. *)
Lemma existsb_step_mono r r' s :
  existsb (key r') (fst s) = true -> existsb (key r') (fst (step r s)) = true.
Proof.
  intros H. destruct (step_cases r s) as [[_ ->]|[_ ->]]; cbn [fst].
  - rewrite existsb_u. exact H.
  - rewrite existsb_app, H. reflexivity.
Qed.

Lemma existsb_step_self r s : existsb (key r) (fst (step r s)) = true.
Proof.
  destruct (step_cases r s) as [[H ->]|[_ ->]]; cbn [fst].
  - rewrite existsb_u. exact H.
  - rewrite existsb_app. cbn [existsb]. rewrite key_mk, orb_true_r. reflexivity.
Qed.

Lemma existsb_run_mono r rs s :
  existsb (key r) (fst s) = true -> existsb (key r) (fst (run rs s)) = true.
Proof.
  revert s. induction rs as [|x rs IH]; intros s H; [exact H|].
  cbn [upsert_all fold_left]. apply IH. apply existsb_step_mono. exact H.
Qed.

Lemma existsb_run_in r rs s : In r rs -> existsb (key r) (fst (run rs s)) = true.
Proof.
  revert s. induction rs as [|x rs IH]; intros s Hin; [contradiction|].
  cbn [upsert_all fold_left]. destruct Hin as [->|Hin].
  - apply existsb_run_mono. apply existsb_step_self.
  - apply IH. exact Hin.
Qed.

Lemma settled_step_self r s : settled r (fst (step r s)).
Proof.
  unfold settled. destruct (step_cases r s) as [[_ ->]|[He ->]]; cbn [fst].
  - apply u_idem.
  - rewrite (u_app_absent r _ _ He). cbn [update_first].
    rewrite key_mk, upd_mk. reflexivity.
Qed.

Lemma settled_step_other r r' s :
  same r r' = false -> settled r (fst s) -> settled r (fst (step r' s)).
Proof.
  unfold settled. intros Hd Hs. destruct (step_cases r' s) as [[_ ->]|[_ ->]]; cbn [fst].
  - rewrite (u_commute r r' _ Hd), Hs. reflexivity.
  - rewrite u_snoc_other, Hs; [reflexivity|].
    apply (diff_key r' r); [rewrite same_sym; exact Hd | apply key_mk].
Qed.

Lemma settled_run_others r rs s :
  forallb (fun x => negb (same r x)) rs = true ->
  settled r (fst s) -> settled r (fst (run rs s)).
Proof.
  revert s. induction rs as [|x rs IH]; intros s Hall Hs; [exact Hs|].
  cbn [forallb] in Hall. apply andb_true_iff in Hall. destruct Hall as [Hx Hall].
  cbn [upsert_all fold_left]. apply IH; [exact Hall|].
  apply settled_step_other; [apply negb_true_iff; exact Hx | exact Hs].
Qed.

(** The last record of a key wins. *)
Lemma settled_run_last pre d post s :
  forallb (fun x => negb (same d x)) post = true ->
  settled d (fst (run (pre ++ d :: post) s)).
Proof.
  intros Hall. unfold upsert_all. rewrite fold_left_app. cbn [fold_left].
  apply (settled_run_others d post); [exact Hall|]. apply settled_step_self.
Qed.

Lemma settled_find r T :
  settled r T -> existsb (key r) T = true ->
  exists a, find (key r) T = Some a /\ upd r a = a.
Proof.
  unfold settled. intros Hs He. rewrite find_existsb in He.
  destruct (find (key r) T) as [a|] eqn:Hf; [|discriminate].
  exists a. split; [reflexivity|].
  assert (H : find (key r) (u r T) = Some (upd r a)).
  { rewrite find_update_first by (intros; apply key_upd). rewrite Hf. reflexivity. }
  rewrite Hs, Hf in H. injection H as H. symmetry. exact H.
Qed.

(** When every row exists, the loop is a sequence of updates. *)
Lemma run_present rs T n :
  (forall r, In r rs -> existsb (key r) T = true) ->
  run rs (T, n) = (update_all key upd rs T, n).
Proof.
  revert T. induction rs as [|x rs IH]; intros T Hall; [reflexivity|].
  cbn [upsert_all update_all fold_left].
  rewrite step_present by (apply Hall; left; reflexivity).
  apply IH. intros r Hr. rewrite existsb_u. apply Hall. right. exact Hr.
Qed.

Lemma update_all_snoc ds r T :
  update_all key upd (ds ++ [r]) T = u r (update_all key upd ds T).
Proof. unfold update_all. rewrite fold_left_app. reflexivity. Qed.

Lemma update_all_mask d rs :
  forall T, u d (update_all key upd rs (u d T)) = u d (update_all key upd rs T).
Proof.
  induction rs as [|r rs IH]; intros T; [apply u_idem|].
  change (update_all key upd (r :: rs) (u d T))
    with (update_all key upd rs (u r (u d T))).
  change (update_all key upd (r :: rs) T) with (update_all key upd rs (u r T)).
  rewrite <- (IH (u r (u d T))), u_mask, (IH (u r T)). reflexivity.
Qed.

Lemma update_all_app_present ds :
  forall T l,
    (forall d, In d ds -> existsb (key d) T = true) ->
    update_all key upd ds (T ++ l) = update_all key upd ds T ++ l.
Proof.
  induction ds as [|d ds IH]; intros T l Hall; [reflexivity|].
  change (update_all key upd (d :: ds) (T ++ l))
    with (update_all key upd ds (u d (T ++ l))).
  change (update_all key upd (d :: ds) T) with (update_all key upd ds (u d T)).
  rewrite u_app_present by (apply Hall; left; reflexivity).
  apply IH. intros d' Hd'. rewrite existsb_u. apply Hall. right. exact Hd'.
Qed.

(** The table a run leaves is not changed by the updates of the run. *)
Lemma update_all_run rs :
  forall s, update_all key upd rs (fst (run rs s)) = fst (run rs s).
Proof.
  induction rs as [|r ds IH] using rev_ind; intros s; [reflexivity|].
  assert (Hrun : run (ds ++ [r]) s = step r (run ds s)).
  { unfold upsert_all. rewrite fold_left_app. reflexivity. }
  rewrite Hrun, update_all_snoc.
  destruct (step_cases r (run ds s)) as [[_ ->]|[He ->]]; cbn [fst].
  - rewrite update_all_mask, IH. reflexivity.
  - rewrite update_all_app_present by (intros d Hd; apply existsb_run_in; exact Hd).
    rewrite IH, (u_app_absent r _ _ He). cbn [update_first].
    rewrite key_mk, upd_mk. reflexivity.
Qed.

(** Running the same records again changes no row. *)
Lemma run_twice rs s n :
  fst (run rs (fst (run rs s), n)) = fst (run rs s).
Proof.
  rewrite run_present by (intros r Hr; apply existsb_run_in; exact Hr).
  cbn [fst]. apply update_all_run.
Qed.

(** What a row created for [d] becomes under later upserts. *)
Lemma find_u_cases r d T a :
  find (key d) T = Some a ->
  find (key d) (u r T) = Some a \/ find (key d) (u r T) = Some (upd r a).
Proof.
  induction T as [|b T IH]; [discriminate|]. cbn [find update_first].
  destruct (key r b) eqn:Hr; destruct (key d b) eqn:Hd; cbn [find].
  - intros H; injection H as <-. right. rewrite key_upd, Hd. reflexivity.
  - intros H. left. rewrite key_upd, Hd. exact H.
  - intros H. left. rewrite Hd. exact H.
  - rewrite Hd. exact IH.
Qed.

Lemma find_step_cases r d s a :
  find (key d) (fst s) = Some a ->
  find (key d) (fst (step r s)) = Some a \/ find (key d) (fst (step r s)) = Some (upd r a).
Proof.
  intros Hf. destruct (step_cases r s) as [[_ ->]|[_ ->]]; cbn [fst].
  - apply find_u_cases. exact Hf.
  - left. clear -Hf. induction (fst s) as [|b T IH]; [discriminate|].
    cbn [find app] in *. destruct (key d b); [exact Hf|]. apply IH. exact Hf.
Qed.

Lemma find_run_cases d rs s a :
  find (key d) (fst s) = Some a ->
  exists ds, find (key d) (fst (run rs s)) = Some (fold_left (fun a r => upd r a) ds a).
Proof.
  revert s a. induction rs as [|r rs IH]; intros s a Hf.
  - exists []. exact Hf.
  - cbn [upsert_all fold_left]. destruct (find_step_cases r d s a Hf) as [H|H].
    + apply IH. exact H.
    + destruct (IH _ _ H) as [ds Hds]. exists (r :: ds). exact Hds.
Qed.

Lemma existsb_step_other r d s :
  same d r = false -> existsb (key d) (fst (step r s)) = existsb (key d) (fst s).
Proof.
  intros Hd. destruct (step_cases r s) as [[_ ->]|[_ ->]]; cbn [fst].
  - apply existsb_u.
  - rewrite existsb_app. cbn [existsb].
    rewrite (diff_key r d); [rewrite !orb_false_r; reflexivity | | apply key_mk].
    rewrite same_sym. exact Hd.
Qed.

Lemma existsb_run_others d rs s :
  forallb (fun x => negb (same d x)) rs = true ->
  existsb (key d) (fst (run rs s)) = existsb (key d) (fst s).
Proof.
  revert s. induction rs as [|x rs IH]; intros s Hall; [reflexivity|].
  cbn [forallb] in Hall. apply andb_true_iff in Hall. destruct Hall as [Hx Hall].
  change (run (x :: rs) s) with (run rs (step x s)). rewrite (IH _ Hall).
  apply existsb_step_other. apply negb_true_iff. exact Hx.
Qed.

(** The first record of a key that had no row creates the row; later
    records only update it. *)
Lemma find_run_first pre d post s :
  forallb (fun x => negb (same d x)) pre = true ->
  existsb (key d) (fst s) = false ->
  exists n ds,
    find (key d) (fst (run (pre ++ d :: post) s)) =
    Some (fold_left (fun a r => upd r a) ds (mk d n)).
Proof.
  intros Hpre Habs. unfold upsert_all. rewrite fold_left_app. cbn [fold_left].
  set (s1 := fold_left (fun s0 r => step r s0) pre s).
  assert (H1 : existsb (key d) (fst s1) = false).
  { unfold s1. change (existsb (key d) (fst (run pre s)) = false).
    rewrite (existsb_run_others d pre s Hpre). exact Habs. }
  assert (H2 : find (key d) (fst (step d s1)) = Some (mk d (snd s1))).
  { destruct s1 as [T1 n1]. cbn [fst snd] in *. rewrite (step_absent d T1 n1 H1). cbn [fst].
    apply find_snoc_new; [|apply key_mk].
    rewrite find_existsb in H1. destruct (find (key d) T1); [discriminate|reflexivity]. }
  destruct (find_run_cases d post _ _ H2) as [ds Hds].
  exists (snd s1), ds. exact Hds.
Qed.

(** One column of the row of a record, through the loop: the records of
    the same key write it in turn, the others leave it alone. *)
Variable proj : A -> option string.
Variable write : R -> option string -> option string.
Hypothesis proj_upd : forall r a, proj (upd r a) = write r (proj a).
Hypothesis proj_mk : forall r n, proj (mk r n) = write r None.

Lemma find_same (p q : A -> bool) (T : list A) :
  (forall a, p a = q a) -> find p T = find q T.
Proof.
  intros H. induction T as [|a T IH]; [reflexivity|]. cbn [find].
  rewrite H, IH. reflexivity.
Qed.

Lemma find_u_other r d T : same d r = false -> find (key d) (u r T) = find (key d) T.
Proof.
  intros Hs. rewrite same_sym in Hs.
  induction T as [|a T IH]; [reflexivity|]. cbn [update_first].
  destruct (key r a) eqn:Hr; cbn [find].
  - rewrite key_upd, (diff_key r d a Hs Hr). reflexivity.
  - rewrite IH. reflexivity.
Qed.

Lemma find_snoc_other (p : A -> bool) (T : list A) (x : A) :
  p x = false -> find p (T ++ [x]) = find p T.
Proof.
  intros Hx. induction T as [|a T IH]; cbn [app find].
  - rewrite Hx. reflexivity.
  - rewrite IH. reflexivity.
Qed.

Lemma column_step r d s :
  column proj (find (key d) (fst (step r s))) =
  if same d r then write r (column proj (find (key d) (fst s)))
  else column proj (find (key d) (fst s)).
Proof.
  destruct (same d r) eqn:Hs.
  - rewrite !(find_same (key d) (key r)) by (intros a; apply same_key; exact Hs).
    destruct (step_cases r s) as [[He ->]|[He ->]]; cbn [fst];
      rewrite find_existsb in He.
    + rewrite find_update_first by (intros; apply key_upd).
      destruct (find (key r) (fst s)) as [a|]; [|discriminate].
      cbn [option_map column]. apply proj_upd.
    + destruct (find (key r) (fst s)) as [a|] eqn:Hf; [discriminate|].
      rewrite (find_snoc_new _ _ _ Hf (key_mk r (snd s))).
      cbn [column]. apply proj_mk.
  - destruct (step_cases r s) as [[_ ->]|[_ ->]]; cbn [fst].
    + rewrite (find_u_other r d _ Hs). reflexivity.
    + rewrite find_snoc_other; [reflexivity|].
      apply (diff_key r d); [rewrite same_sym; exact Hs | apply key_mk].
Qed.

Lemma column_run d rs :
  forall s,
    column proj (find (key d) (fst (run rs s))) =
    fold_left (fun x r => write r x) (filter (same d) rs)
              (column proj (find (key d) (fst s))).
Proof.
  induction rs as [|r rs IH]; intros s; [reflexivity|].
  change (run (r :: rs) s) with (run rs (step r s)).
  rewrite IH, column_step. cbn [filter]. destruct (same d r); reflexivity.
Qed.
End UpsertAlgebra.

(** ** The two tables obey the algebra *)

Lemma customer_same_key stid d d' a :
  same_customer d d' = true -> customer_row_key stid d a = customer_row_key stid d' a.
Proof.
  unfold same_customer, customer_row_key. intros H. apply String.eqb_eq in H.
  rewrite H. reflexivity.
Qed.

Lemma customer_diff_key stid d d' a :
  same_customer d d' = false -> customer_row_key stid d a = true ->
  customer_row_key stid d' a = false.
Proof.
  unfold same_customer, customer_row_key, customer_key. intros Hd Hk.
  apply andb_true_iff in Hk. destruct Hk as [Hk _]. apply String.eqb_eq in Hk.
  rewrite Hk, Hd. reflexivity.
Qed.

Lemma order_same_key stid d d' a :
  same_order d d' = true -> order_row_key stid d a = order_row_key stid d' a.
Proof.
  unfold same_order, order_row_key. intros H. apply String.eqb_eq in H.
  rewrite H. reflexivity.
Qed.

Lemma order_diff_key stid d d' a :
  same_order d d' = false -> order_row_key stid d a = true ->
  order_row_key stid d' a = false.
Proof.
  unfold same_order, order_row_key, order_key. intros Hd Hk.
  apply andb_true_iff in Hk. destruct Hk as [Hk _]. apply String.eqb_eq in Hk.
  rewrite Hk, Hd. reflexivity.
Qed.

(** ** Loops as table transformers *)

Lemma sync_customer_state store d e w :
  (forall n, db_fault e n = None) ->
  (customers (snd (sync_customer store d e w)), next_id (snd (sync_customer store d e w))) =
    upsert_row (customer_row_key (store_id store)) customer_update
               (fun d n => customer_create d (store_id store) n) d (customers w, next_id w)
  /\ orders (snd (sync_customer store d e w)) = orders w
  /\ stores (snd (sync_customer store d e w)) = stores w
  /\ net_calls (snd (sync_customer store d e w)) = net_calls w.
Proof.
  intros Hdb. rewrite sync_customer_run, Hdb. cbn [snd].
  unfold customer_upsert_query, upsert_row, customer_row_key.
  cbn [advance customers next_id fst snd].
  destruct (find _ (customers w)); repeat split.
Qed.

Lemma sync_order_state store d e w :
  (forall n, db_fault e n = None) ->
  (orders (snd (sync_order store d e w)), next_id (snd (sync_order store d e w))) =
    upsert_row (order_row_key (store_id store)) order_update
               (fun d n => order_create d (store_id store)
                             (link_in (store_id store) (customers w) d) n)
               d (orders w, next_id w)
  /\ customers (snd (sync_order store d e w)) = customers w
  /\ stores (snd (sync_order store d e w)) = stores w
  /\ net_calls (snd (sync_order store d e w)) = net_calls w.
Proof.
  intros Hdb. rewrite (sync_order_run store d e w Hdb). cbn [snd].
  unfold order_upsert_query, upsert_row, order_row_key, linked_customer, link_in.
  cbn [advance orders next_id fst snd].
  destruct (find _ (orders w)); repeat split.
Qed.

Lemma customers_loop_state store e :
  (forall n, db_fault e n = None) ->
  forall cs w,
    let w' := fold_left (fun w d => snd (sync_customer store d e w)) cs w in
    (customers w', next_id w') = upsert_customers (store_id store) cs (customers w, next_id w)
    /\ orders w' = orders w /\ stores w' = stores w /\ net_calls w' = net_calls w.
Proof.
  intros Hdb. induction cs as [|d cs IH]; intros w; [repeat split|].
  cbn [fold_left]. cbn zeta in *.
  destruct (sync_customer_state store d e w Hdb) as (H1 & H2 & H3 & H4).
  destruct (IH (snd (sync_customer store d e w))) as (I1 & I2 & I3 & I4).
  rewrite I1, I2, I3, I4, H1, H2, H3, H4. repeat split.
Qed.

Lemma orders_loop_state store e :
  (forall n, db_fault e n = None) ->
  forall os w,
    let w' := fold_left (fun w d => snd (sync_order store d e w)) os w in
    (orders w', next_id w') =
      upsert_orders (store_id store) (customers w) os (orders w, next_id w)
    /\ customers w' = customers w /\ stores w' = stores w /\ net_calls w' = net_calls w.
Proof.
  intros Hdb. induction os as [|d os IH]; intros w; [repeat split|].
  cbn [fold_left]. cbn zeta in *.
  destruct (sync_order_state store d e w Hdb) as (H1 & H2 & H3 & H4).
  destruct (IH (snd (sync_order store d e w))) as (I1 & I2 & I3 & I4).
  rewrite I1, I2, I3, I4, H1, H2, H3, H4. repeat split.
Qed.

Lemma customers_phase_state store e w cs :
  (forall n, db_fault e n = None) ->
  answers e (net_calls w) (customersApiUrl store) (accessToken store) = Some (JCustomers cs) ->
  exists w1,
    customers_phase store e w = (Ok tt, w1)
    /\ (customers w1, next_id w1) =
       upsert_customers (store_id store) cs (customers w, next_id w)
    /\ orders w1 = orders w /\ stores w1 = stores w /\ net_calls w1 = S (net_calls w).
Proof.
  intros Hdb Hc. unfold answers in Hc.
  destruct (net e (net_calls w) (customersApiUrl store) (accessToken store))
    as [|rc] eqn:Hnc; [discriminate|].
  destruct (ok rc) eqn:Hokc; [|discriminate].
  unfold customers_phase, bind, fetch. rewrite Hnc, Hokc.
  unfold json_customers. rewrite Hc. unfold ret, console, emit.
  rewrite (for_of_all (sync_customer store) e
             (fun x w0 => sync_customer_never_throws store x e w0)).
  match goal with
  | |- context [fold_left _ cs ?w0] =>
      destruct (customers_loop_state store e Hdb cs w0) as (C1 & C2 & C3 & C4)
  end.
  eexists. split; [reflexivity|].
  cbn [customers next_id orders stores net_calls] in *.
  rewrite C1, C2, C3, C4. repeat split.
Qed.

Lemma orders_phase_state store e w os :
  (forall n, db_fault e n = None) ->
  answers e (net_calls w) (ordersApiUrl store) (accessToken store) = Some (JOrders os) ->
  exists w1,
    orders_phase store e w = (Ok tt, w1)
    /\ (orders w1, next_id w1) =
       upsert_orders (store_id store) (customers w) os (orders w, next_id w)
    /\ customers w1 = customers w /\ stores w1 = stores w /\ net_calls w1 = S (net_calls w).
Proof.
  intros Hdb Ho. unfold answers in Ho.
  destruct (net e (net_calls w) (ordersApiUrl store) (accessToken store))
    as [|ro] eqn:Hno; [discriminate|].
  destruct (ok ro) eqn:Hoko; [|discriminate].
  unfold orders_phase, bind, fetch. rewrite Hno, Hoko.
  unfold json_orders. rewrite Ho. unfold ret, console, emit.
  rewrite (for_of_all (sync_order store) e
             (fun x w0 => sync_order_never_throws store x e w0)).
  match goal with
  | |- context [fold_left _ os ?w0] =>
      destruct (orders_loop_state store e Hdb os w0) as (C1 & C2 & C3 & C4)
  end.
  eexists. split; [reflexivity|].
  cbn [customers next_id orders stores net_calls] in *.
  rewrite C1, C2, C3, C4. repeat split.
Qed.

(** A run in which Shopify answers both requests and the database answers
    every call: the customers are upserted, then the orders, linked through
    the customer table as the customer loop left it. *)
Lemma sync_run_state store e w cs os :
  (forall n, db_fault e n = None) ->
  answers e (net_calls w) (customersApiUrl store) (accessToken store) = Some (JCustomers cs) ->
  answers e (S (net_calls w)) (ordersApiUrl store) (accessToken store) = Some (JOrders os) ->
  let w' := snd (syncHistoricalData store e w) in
  let s1 := upsert_customers (store_id store) cs (customers w, next_id w) in
  customers w' = fst s1
  /\ (orders w', next_id w') = upsert_orders (store_id store) (fst s1) os (orders w, snd s1)
  /\ stores w' = stores w
  /\ net_calls w' = S (S (net_calls w)).
Proof.
  intros Hdb Hc Ho. cbn zeta.
  unfold syncHistoricalData, bind, try_catch, console, emit.
  match goal with
  | |- context [customers_phase store e ?w0] =>
      destruct (customers_phase_state store e w0 cs Hdb Hc) as (w1 & -> & C1 & C2 & C3 & C4)
  end.
  cbn [customers next_id orders stores net_calls] in C1, C2, C3, C4.
  rewrite <- C4 in Ho.
  destruct (orders_phase_state store e w1 os Hdb Ho) as (w2 & -> & O1 & O2 & O3 & O4).
  cbn [snd].
  assert (E1 : customers w1 = fst (upsert_customers (store_id store) cs (customers w, next_id w)))
    by (rewrite <- C1; reflexivity).
  assert (E2 : next_id w1 = snd (upsert_customers (store_id store) cs (customers w, next_id w)))
    by (rewrite <- C1; reflexivity).
  rewrite O1, O2, O3, O4, C2, C3, C4, E1, E2. repeat split.
Qed.

(** An update writes the properties the record has and leaves the other
    columns: applying it twice is applying it once, an earlier update of a
    record is masked by a later update of the same record, and the row
    created from a record is not changed by the update of that record. *)
Ltac by_fields :=
  intros;
  repeat match goal with
         | d : RawCustomer |- _ => destruct d
         | d : RawOrder |- _ => destruct d
         end;
  unfold customer_update, customer_create, order_update, order_create, created;
  cbn [rc_id rc_email rc_first_name rc_last_name ro_id ro_name ro_total_price ro_currency
       ro_financial_status ro_fulfillment_status ro_processed_at ro_customer
       customer_id customer_shopifyId customer_email customer_firstName customer_lastName
       customer_storeId order_id order_shopifyId order_orderNumber order_totalPrice
       order_currency order_financialStatus order_fulfillmentStatus order_processedAt
       order_storeId order_customerId];
  repeat match goal with
         | f : JsField |- _ => destruct f
         end;
  reflexivity.

Lemma customer_update_idem d a : customer_update d (customer_update d a) = customer_update d a.
Proof. by_fields. Qed.

Lemma customer_update_mask d d' a :
  customer_update d (customer_update d' (customer_update d a)) =
  customer_update d (customer_update d' a).
Proof. by_fields. Qed.

Lemma customer_update_create d stid n :
  customer_update d (customer_create d stid n) = customer_create d stid n.
Proof. by_fields. Qed.

Lemma order_update_idem d o : order_update d (order_update d o) = order_update d o.
Proof. by_fields. Qed.

Lemma order_update_mask d d' o :
  order_update d (order_update d' (order_update d o)) = order_update d (order_update d' o).
Proof. by_fields. Qed.

Lemma order_update_create d stid cust n :
  order_update d (order_create d stid cust n) = order_create d stid cust n.
Proof. by_fields. Qed.

Ltac table_laws :=
  intros; unfold customer_row_key, order_row_key in *;
  first [ reflexivity
        | apply customer_update_idem | apply customer_update_mask
        | apply customer_update_create
        | apply order_update_idem | apply order_update_mask | apply order_update_create
        | apply customer_create_key | apply order_create_key
        | apply String.eqb_refl | apply String.eqb_sym
        | apply customer_same_key; assumption | apply order_same_key; assumption
        | eapply customer_diff_key; eassumption | eapply order_diff_key; eassumption ].

Lemma customers_settled_last stid pre d post s :
  forallb (fun x => negb (same_customer d x)) post = true ->
  exists c,
    find (customer_row_key stid d) (fst (upsert_customers stid (pre ++ d :: post) s)) = Some c
    /\ customer_update d c = c.
Proof.
  intros Hpost. apply settled_find; [table_laws| |].
  - apply (settled_run_last _ _ _ same_customer); try exact Hpost; table_laws.
  - apply existsb_run_in; [table_laws|table_laws|]. apply in_elt.
Qed.

Lemma orders_settled_last stid table pre d post s :
  forallb (fun x => negb (same_order d x)) post = true ->
  exists o,
    find (order_row_key stid d) (fst (upsert_orders stid table (pre ++ d :: post) s)) = Some o
    /\ order_update d o = o.
Proof.
  intros Hpost. apply settled_find; [table_laws| |].
  - apply (settled_run_last _ _ _ same_order); try exact Hpost; table_laws.
  - apply existsb_run_in; [table_laws|table_laws|]. apply in_elt.
Qed.

Lemma filter_none {A} (p : A -> bool) (l : list A) :
  forallb (fun x => negb (p x)) l = true -> filter p l = [].
Proof.
  induction l as [|x l IH]; [reflexivity|]. cbn [forallb filter]. intros H.
  apply andb_true_iff in H. destruct H as [Hx H].
  apply negb_true_iff in Hx. rewrite Hx. exact (IH H).
Qed.

Lemma last_value_last {R} (f : R -> JsField) (same : R -> bool) pre d post old :
  same d = true ->
  forallb (fun x => negb (same x)) post = true ->
  last_value f (filter same (pre ++ d :: post)) old =
  updated (f d) (last_value f (filter same pre) old).
Proof.
  intros Hd Hpost. unfold last_value. rewrite filter_app. cbn [filter].
  rewrite Hd, (filter_none _ _ Hpost), fold_left_app. reflexivity.
Qed.

(** A column of the customer table after the customer loop. *)
Lemma customers_column stid (proj : Customer -> option string) (f : RawCustomer -> JsField) :
  (forall r a, proj (customer_update r a) = updated (f r) (proj a)) ->
  (forall r n, proj (customer_create r stid n) = updated (f r) None) ->
  forall d cs s,
    column proj (find (customer_row_key stid d) (fst (upsert_customers stid cs s))) =
    last_value f (filter (same_customer d) cs)
               (column proj (find (customer_row_key stid d) (fst s))).
Proof.
  intros Hu Hm d cs s. unfold upsert_customers, last_value.
  apply (column_run (customer_row_key stid) customer_update
           (fun d n => customer_create d stid n) same_customer)
    with (write := fun r x => updated (f r) x);
    first [exact Hu | exact Hm | table_laws].
Qed.

(** A column of the order table after the order loop. *)
Lemma orders_column stid table (proj : Order -> option string) (f : RawOrder -> JsField) :
  (forall r a, proj (order_update r a) = updated (f r) (proj a)) ->
  (forall r cust n, proj (order_create r stid cust n) = updated (f r) None) ->
  forall d os s,
    column proj (find (order_row_key stid d) (fst (upsert_orders stid table os s))) =
    last_value f (filter (same_order d) os)
               (column proj (find (order_row_key stid d) (fst s))).
Proof.
  intros Hu Hm d os s. unfold upsert_orders, last_value.
  apply (column_run (order_row_key stid) order_update
           (fun d n => order_create d stid (link_in stid table d) n) same_order)
    with (write := fun r x => updated (f r) x);
    first [exact Hu | intros; apply Hm | table_laws].
Qed.

(** X2: After a run in which Shopify and the database answer, every fetched
    customer has its row, in the store of the run.  Its email and its names
    are those of the last record fetched under the identifier where that
    record has the property (be it [null]); a property that record lacks
    is as the earlier records of the identifier left it: the value of the
    latest of them that has it, and the value stored before the run
    ([null] for a new row) when none has.  The same holds of the two
    statuses of every fetched order, and its total price is that of the
    last record fetched under its identifier. *)
Theorem sync_last_record_wins :
  forall (e : Env) (w : World) (store : Store) (cs : list RawCustomer) (os : list RawOrder),
    (forall n, db_fault e n = None) ->
    answers e (net_calls w) (customersApiUrl store) (accessToken store)
      = Some (JCustomers cs) ->
    answers e (S (net_calls w)) (ordersApiUrl store) (accessToken store)
      = Some (JOrders os) ->
    let w' := snd (syncHistoricalData store e w) in
    (forall pre d post,
        cs = pre ++ d :: post ->
        forallb (fun x => negb (same_customer d x)) post = true ->
        let key := customer_key (toString (rc_id d)) (store_id store) in
        let earlier := filter (same_customer d) pre in
        let before := find key (customers w) in
        exists c,
          find key (customers w') = Some c
          /\ customer_storeId c = store_id store
          /\ customer_email c =
             updated (rc_email d) (last_value rc_email earlier (column customer_email before))
          /\ customer_firstName c =
             updated (rc_first_name d)
                     (last_value rc_first_name earlier (column customer_firstName before))
          /\ customer_lastName c =
             updated (rc_last_name d)
                     (last_value rc_last_name earlier (column customer_lastName before)))
    /\ (forall pre d post,
        os = pre ++ d :: post ->
        forallb (fun x => negb (same_order d x)) post = true ->
        let key := order_key (toString (ro_id d)) (store_id store) in
        let earlier := filter (same_order d) pre in
        let before := find key (orders w) in
        exists o,
          find key (orders w') = Some o
          /\ order_storeId o = store_id store
          /\ order_financialStatus o =
             updated (ro_financial_status d)
                     (last_value ro_financial_status earlier
                                 (column order_financialStatus before))
          /\ order_fulfillmentStatus o =
             updated (ro_fulfillment_status d)
                     (last_value ro_fulfillment_status earlier
                                 (column order_fulfillmentStatus before))
          /\ order_totalPrice o = parseFloat (ro_total_price d)).
Proof.
  intros e w store cs os Hdb Hc Ho w'.
  destruct (sync_run_state store e w cs os Hdb Hc Ho) as (Hcust & Hord & _ & _).
  fold w' in Hcust, Hord. split.
  - intros pre d post -> Hpost key earlier before. subst key earlier before. rewrite Hcust.
    destruct (customers_settled_last (store_id store) pre d post (customers w, next_id w) Hpost)
      as (c & Hfind & Hfix).
    assert (Hsame : same_customer d d = true) by apply String.eqb_refl.
    assert (Hcol : forall proj f,
               (forall r a, proj (customer_update r a) = updated (f r) (proj a)) ->
               (forall r n, proj (customer_create r (store_id store) n) = updated (f r) None) ->
               proj c = updated (f d)
                          (last_value f (filter (same_customer d) pre)
                             (column proj (find (customer_key (toString (rc_id d))
                                                   (store_id store)) (customers w))))).
    { intros proj f Hu Hm.
      pose proof (customers_column (store_id store) proj f Hu Hm d (pre ++ d :: post)
                    (customers w, next_id w)) as H.
      rewrite Hfind in H. cbn [column fst] in H. rewrite H.
      apply (last_value_last f (same_customer d)); assumption. }
    exists c. split; [exact Hfind|].
    pose proof (find_some _ _ Hfind) as [_ Hk].
    unfold customer_row_key, customer_key in Hk. apply andb_true_iff in Hk.
    destruct Hk as [_ Hk]. apply String.eqb_eq in Hk.
    split; [exact Hk|].
    split; [|split]; apply Hcol; reflexivity.
  - intros pre d post -> Hpost key earlier before. subst key earlier before.
    assert (Ho' : orders w' = fst (upsert_orders (store_id store)
                     (fst (upsert_customers (store_id store) cs (customers w, next_id w)))
                     (pre ++ d :: post)
                     (orders w, snd (upsert_customers (store_id store) cs
                                       (customers w, next_id w)))))
      by (rewrite <- Hord; reflexivity).
    rewrite Ho'.
    destruct (orders_settled_last (store_id store)
                (fst (upsert_customers (store_id store) cs (customers w, next_id w)))
                pre d post
                (orders w, snd (upsert_customers (store_id store) cs (customers w, next_id w)))
                Hpost) as (o & Hfind & Hfix).
    assert (Hsame : same_order d d = true) by apply String.eqb_refl.
    assert (Hcol : forall proj f,
               (forall r a, proj (order_update r a) = updated (f r) (proj a)) ->
               (forall r cust n,
                   proj (order_create r (store_id store) cust n) = updated (f r) None) ->
               proj o = updated (f d)
                          (last_value f (filter (same_order d) pre)
                             (column proj (find (order_key (toString (ro_id d))
                                                   (store_id store)) (orders w))))).
    { intros proj f Hu Hm.
      pose proof (orders_column (store_id store)
                    (fst (upsert_customers (store_id store) cs (customers w, next_id w)))
                    proj f Hu Hm d (pre ++ d :: post)
                    (orders w, snd (upsert_customers (store_id store) cs
                                      (customers w, next_id w)))) as H.
      rewrite Hfind in H. cbn [column fst] in H. rewrite H.
      apply (last_value_last f (same_order d)); assumption. }
    exists o. split; [exact Hfind|].
    pose proof (find_some _ _ Hfind) as [_ Hk].
    unfold order_row_key, order_key in Hk. apply andb_true_iff in Hk.
    destruct Hk as [_ Hk]. apply String.eqb_eq in Hk.
    split; [exact Hk|].
    split; [apply Hcol; reflexivity|]. split; [apply Hcol; reflexivity|].
    rewrite <- Hfix. reflexivity.
Qed.

Lemma sync_last_record_wins_witness :
  (forall n, db_fault env_partial_records n = None)
  /\ answers env_partial_records (net_calls world_a) (customersApiUrl store_a)
             (accessToken store_a) = Some (JCustomers [alice; alicia])
  /\ answers env_partial_records (S (net_calls world_a)) (ordersApiUrl store_a)
             (accessToken store_a) = Some (JOrders [order_1001; order_1001_price])
  /\ (exists c,
        find (customer_key (toString (rc_id alicia)) (store_id store_a))
             (customers (snd (syncHistoricalData store_a env_partial_records world_a)))
          = Some c
        /\ customer_email c = Some "alice@example.com"%string
        /\ customer_firstName c = Some "Alicia"%string)
  /\ (exists o,
        find (order_key (toString (ro_id order_1001_price)) (store_id store_a))
             (orders (snd (syncHistoricalData store_a env_partial_records world_a))) = Some o
        /\ order_financialStatus o = Some "paid"%string
        /\ order_totalPrice o = parseFloat "59.90").
Proof.
  assert (Hdb : forall n, db_fault env_partial_records n = None) by reflexivity.
  assert (Hc : answers env_partial_records (net_calls world_a) (customersApiUrl store_a)
                 (accessToken store_a) = Some (JCustomers [alice; alicia])) by reflexivity.
  assert (Ho : answers env_partial_records (S (net_calls world_a)) (ordersApiUrl store_a)
                 (accessToken store_a) = Some (JOrders [order_1001; order_1001_price]))
    by reflexivity.
  destruct (sync_last_record_wins env_partial_records world_a store_a [alice; alicia]
              [order_1001; order_1001_price] Hdb Hc Ho) as [H1 H2].
  split; [exact Hdb|]. split; [exact Hc|]. split; [exact Ho|]. split.
  - destruct (H1 [alice] alicia [] eq_refl eq_refl) as (c & Hf & _ & He & Hn & _).
    exists c. split; [exact Hf|]. split; [exact He | exact Hn].
  - destruct (H2 [order_1001] order_1001_price [] eq_refl eq_refl)
      as (o & Hf & _ & Hs & _ & Hp).
    exists o. split; [exact Hf|]. split; [exact Hs | exact Hp].
Defined.

Lemma order_updates_keep_customer (ds : list RawOrder) (o : Order) :
  order_customerId (fold_left (fun a r => order_update r a) ds o) = order_customerId o.
Proof.
  revert o. induction ds as [|r ds IH]; intros o; [reflexivity|].
  cbn [fold_left]. rewrite IH. reflexivity.
Qed.

(** X3: In a run in which Shopify and the database answer, an order that had no
    row before the run is linked, once and for all, when its first record is
    processed: to the row of the embedded customer if that customer was
    fetched in this run, and to nobody if that customer was neither fetched
    nor stored before. *)
Theorem sync_links_new_orders :
  forall (e : Env) (w : World) (store : Store) (cs : list RawCustomer) (os : list RawOrder)
         (pre post : list RawOrder) (d : RawOrder) (cref : RawCustomer),
    (forall n, db_fault e n = None) ->
    answers e (net_calls w) (customersApiUrl store) (accessToken store)
      = Some (JCustomers cs) ->
    answers e (S (net_calls w)) (ordersApiUrl store) (accessToken store)
      = Some (JOrders os) ->
    os = pre ++ d :: post ->
    forallb (fun x => negb (same_order d x)) pre = true ->
    existsb (order_key (toString (ro_id d)) (store_id store)) (orders w) = false ->
    ro_customer d = Some cref ->
    let w' := snd (syncHistoricalData store e w) in
    exists o,
      find (order_key (toString (ro_id d)) (store_id store)) (orders w') = Some o
      /\ (existsb (fun c => (rc_id c =? rc_id cref)%Z) cs = true ->
          exists cust,
            find (customer_key (toString (rc_id cref)) (store_id store)) (customers w')
              = Some cust
            /\ order_customerId o = Some (customer_id cust)
            /\ customer_storeId cust = store_id store)
      /\ (forallb (fun c => negb (same_customer cref c)) cs = true ->
          existsb (customer_key (toString (rc_id cref)) (store_id store)) (customers w) = false ->
          order_customerId o = None).
Proof.
  intros e w store cs os pre post d cref Hdb Hc Ho -> Hpre Habs Hcref w'.
  destruct (sync_run_state store e w cs (pre ++ d :: post) Hdb Hc Ho) as (Hcust & Hord & _ & _).
  fold w' in Hcust, Hord.
  set (s1 := upsert_customers (store_id store) cs (customers w, next_id w)) in *.
  assert (Ho' : orders w' = fst (upsert_orders (store_id store) (fst s1)
                                   (pre ++ d :: post) (orders w, snd s1)))
    by (rewrite <- Hord; reflexivity).
  destruct (find_run_first (order_row_key (store_id store)) order_update
              (fun d0 n => order_create d0 (store_id store)
                             (link_in (store_id store) (fst s1) d0) n)
              same_order
              ltac:(table_laws) ltac:(table_laws) ltac:(table_laws) ltac:(table_laws)
              pre d post (orders w, snd s1) Hpre Habs) as (n & ds & Hfind).
  eexists. split; [rewrite Ho'; exact Hfind|].
  rewrite order_updates_keep_customer. cbn [order_create order_customerId].
  unfold link_in. rewrite Hcref. rewrite Hcust. split.
  - intros Hex. apply existsb_exists in Hex. destruct Hex as (c & Hin & Heq).
    apply Z.eqb_eq in Heq.
    assert (Hp : existsb (customer_row_key (store_id store) c) (fst s1) = true).
    { unfold s1, upsert_customers. apply existsb_run_in; [table_laws|table_laws|exact Hin]. }
    unfold customer_row_key in Hp. rewrite Heq in Hp. rewrite find_existsb in Hp.
    destruct (find _ (fst s1)) as [cust|] eqn:Hf; [|discriminate].
    exists cust. split; [reflexivity|]. split; [reflexivity|].
    apply find_some in Hf. destruct Hf as [_ Hk]. unfold customer_key in Hk.
    apply andb_true_iff in Hk. destruct Hk as [_ Hk]. apply String.eqb_eq. exact Hk.
  - intros Hnone Hnot.
    assert (Hp : existsb (customer_row_key (store_id store) cref) (fst s1) = false).
    { unfold s1, upsert_customers.
      rewrite (existsb_run_others (customer_row_key (store_id store)) customer_update
                 (fun d0 n0 => customer_create d0 (store_id store) n0) same_customer
                 ltac:(table_laws) ltac:(table_laws) ltac:(table_laws) ltac:(table_laws)
                 cref cs (customers w, next_id w) Hnone).
      exact Hnot. }
    unfold customer_row_key in Hp. rewrite find_existsb in Hp.
    destruct (find _ (fst s1)); [discriminate|reflexivity].
Qed.

Lemma sync_links_new_orders_witness :
  (forall n, db_fault env_sync n = None)
  /\ answers env_sync (net_calls world_a) (customersApiUrl store_a) (accessToken store_a)
     = Some (JCustomers [alice; bob])
  /\ answers env_sync (S (net_calls world_a)) (ordersApiUrl store_a) (accessToken store_a)
     = Some (JOrders [order_1001])
  /\ existsb (order_key (toString (ro_id order_1001)) (store_id store_a)) (orders world_a) = false
  /\ ro_customer order_1001 = Some alice
  /\ existsb (fun c => (rc_id c =? rc_id alice)%Z) [alice; bob] = true
  /\ exists o cust,
      find (order_key (toString (ro_id order_1001)) (store_id store_a))
           (orders (snd (syncHistoricalData store_a env_sync world_a))) = Some o
      /\ find (customer_key (toString (rc_id alice)) (store_id store_a))
              (customers (snd (syncHistoricalData store_a env_sync world_a))) = Some cust
      /\ order_customerId o = Some (customer_id cust).
Proof.
  assert (Hdb : forall n, db_fault env_sync n = None) by reflexivity.
  assert (Hc : answers env_sync (net_calls world_a) (customersApiUrl store_a)
                 (accessToken store_a) = Some (JCustomers [alice; bob])) by reflexivity.
  assert (Ho : answers env_sync (S (net_calls world_a)) (ordersApiUrl store_a)
                 (accessToken store_a) = Some (JOrders [order_1001])) by reflexivity.
  assert (Habs : existsb (order_key (toString (ro_id order_1001)) (store_id store_a))
                   (orders world_a) = false) by reflexivity.
  assert (Hcref : ro_customer order_1001 = Some alice) by reflexivity.
  assert (Hex : existsb (fun c => (rc_id c =? rc_id alice)%Z) [alice; bob] = true)
    by reflexivity.
  destruct (sync_links_new_orders env_sync world_a store_a [alice; bob] [order_1001]
              [] [] order_1001 alice Hdb Hc Ho eq_refl eq_refl Habs Hcref)
    as (o & Hfind & Hlink & _).
  destruct (Hlink Hex) as (cust & Hcust & Hid & _).
  split; [exact Hdb|]. split; [exact Hc|]. split; [exact Ho|]. split; [exact Habs|].
  split; [exact Hcref|]. split; [exact Hex|].
  exists o, cust. split; [exact Hfind|]. split; assumption.
Defined.

(** X4: A second run that gets the same answers from Shopify, with the database
    answering, leaves both tables exactly as the first run left them. *)
Theorem sync_twice_same_tables :
  forall (e : Env) (w : World) (store : Store) (cs : list RawCustomer) (os : list RawOrder),
    (forall n, db_fault e n = None) ->
    answers e (net_calls w) (customersApiUrl store) (accessToken store)
      = Some (JCustomers cs) ->
    answers e (S (net_calls w)) (ordersApiUrl store) (accessToken store)
      = Some (JOrders os) ->
    answers e (S (S (net_calls w))) (customersApiUrl store) (accessToken store)
      = Some (JCustomers cs) ->
    answers e (S (S (S (net_calls w)))) (ordersApiUrl store) (accessToken store)
      = Some (JOrders os) ->
    let w1 := snd (syncHistoricalData store e w) in
    let w2 := snd (syncHistoricalData store e w1) in
    customers w2 = customers w1 /\ orders w2 = orders w1.
Proof.
  intros e w store cs os Hdb Hc Ho Hc2 Ho2 w1 w2.
  destruct (sync_run_state store e w cs os Hdb Hc Ho) as (C1 & O1 & _ & N1).
  fold w1 in C1, O1, N1.
  rewrite <- N1 in Hc2, Ho2.
  destruct (sync_run_state store e w1 cs os Hdb Hc2 Ho2) as (C2 & O2 & _ & _).
  fold w2 in C2, O2.
  assert (Hcust : customers w2 = customers w1).
  { rewrite C2, C1. unfold upsert_customers.
    apply (run_twice _ _ _ same_customer); table_laws. }
  split; [exact Hcust|].
  assert (O2' : orders w2 = fst (upsert_orders (store_id store)
                    (fst (upsert_customers (store_id store) cs (customers w1, next_id w1)))
                    os (orders w1, snd (upsert_customers (store_id store) cs
                                          (customers w1, next_id w1)))))
    by (rewrite <- O2; reflexivity).
  assert (O1' : orders w1 = fst (upsert_orders (store_id store)
                    (fst (upsert_customers (store_id store) cs (customers w, next_id w)))
                    os (orders w, snd (upsert_customers (store_id store) cs
                                         (customers w, next_id w)))))
    by (rewrite <- O1; reflexivity).
  rewrite O2'. rewrite <- C2, Hcust, C1. rewrite O1' at 1 2.
  unfold upsert_orders. apply (run_twice _ _ _ same_order); table_laws.
Qed.

Lemma sync_twice_same_tables_witness :
  (forall n, db_fault env_paged_shop n = None)
  /\ answers env_paged_shop (net_calls world_b) (customersApiUrl store_a) (accessToken store_a)
     = Some (JCustomers [alice; bob])
  /\ answers env_paged_shop (S (net_calls world_b)) (ordersApiUrl store_a) (accessToken store_a)
     = Some (JOrders [order_1001])
  /\ answers env_paged_shop (S (S (net_calls world_b))) (customersApiUrl store_a)
             (accessToken store_a) = Some (JCustomers [alice; bob])
  /\ answers env_paged_shop (S (S (S (net_calls world_b)))) (ordersApiUrl store_a)
             (accessToken store_a) = Some (JOrders [order_1001])
  /\ customers (snd (syncHistoricalData store_a env_paged_shop
                       (snd (syncHistoricalData store_a env_paged_shop world_b))))
     = customers (snd (syncHistoricalData store_a env_paged_shop world_b))
  /\ orders (snd (syncHistoricalData store_a env_paged_shop
                    (snd (syncHistoricalData store_a env_paged_shop world_b))))
     = orders (snd (syncHistoricalData store_a env_paged_shop world_b)).
Proof.
  assert (Hdb : forall n, db_fault env_paged_shop n = None) by reflexivity.
  assert (H0 : answers env_paged_shop (net_calls world_b) (customersApiUrl store_a)
                 (accessToken store_a) = Some (JCustomers [alice; bob])) by reflexivity.
  assert (H1 : answers env_paged_shop (S (net_calls world_b)) (ordersApiUrl store_a)
                 (accessToken store_a) = Some (JOrders [order_1001])) by reflexivity.
  assert (H2 : answers env_paged_shop (S (S (net_calls world_b))) (customersApiUrl store_a)
                 (accessToken store_a) = Some (JCustomers [alice; bob])) by reflexivity.
  assert (H3 : answers env_paged_shop (S (S (S (net_calls world_b)))) (ordersApiUrl store_a)
                 (accessToken store_a) = Some (JOrders [order_1001])) by reflexivity.
  split; [exact Hdb|]. split; [exact H0|]. split; [exact H1|]. split; [exact H2|].
  split; [exact H3|].
  exact (sync_twice_same_tables env_paged_shop world_b store_a [alice; bob] [order_1001]
           Hdb H0 H1 H2 H3).
Defined.

(** ** What holds whatever the outside does *)

Section Keeps.
Variable R : Tables -> Tables -> Prop.
Hypothesis R_refl : forall t, R t t.
Hypothesis R_trans : forall t1 t2 t3, R t1 t2 -> R t2 t3 -> R t1 t3.

Lemma keeps_ret {A} (a : A) : keeps R (ret a).
Proof. intros e w. apply R_refl. Qed.

Lemma keeps_throw {A} err : keeps R (@throw A err).
Proof. intros e w. apply R_refl. Qed.

Lemma keeps_emit ev : keeps R (emit ev).
Proof. intros e w. apply R_refl. Qed.

Lemma keeps_console l : keeps R (console l).
Proof. apply keeps_emit. Qed.

Lemma keeps_fetch url token : keeps R (fetch url token).
Proof.
  intros e w. unfold fetch. destruct (net e (net_calls w) url token); apply R_refl.
Qed.

Lemma keeps_db_call {A} op (q : World -> A * World) :
  (forall w, R (tables w) (tables (snd (q w)))) -> keeps R (db_call op q).
Proof.
  intros Hq e w. unfold db_call. destruct (db_fault e (db_calls w)).
  - apply R_refl.
  - match goal with |- context [q ?w1] => specialize (Hq w1); destruct (q w1) as [a w2] end.
    exact Hq.
Qed.

Lemma keeps_bind {A B} (m : M A) (k : A -> M B) :
  keeps R m -> (forall a, keeps R (k a)) -> keeps R (bind m k).
Proof.
  intros Hm Hk e w. unfold bind. specialize (Hm e w).
  destruct (m e w) as [[a|err] w1]; cbn [snd] in *; [|exact Hm].
  apply (R_trans _ (tables w1)); [exact Hm | apply Hk].
Qed.

Lemma keeps_try_catch {A} (m : M A) (h : Thrown -> M A) :
  keeps R m -> (forall err, keeps R (h err)) -> keeps R (try_catch m h).
Proof.
  intros Hm Hh e w. unfold try_catch. specialize (Hm e w).
  destruct (m e w) as [[a|err] w1]; cbn [snd] in *; [exact Hm|].
  apply (R_trans _ (tables w1)); [exact Hm | apply Hh].
Qed.

Lemma keeps_for_of {A} (body : A -> M unit) (xs : list A) :
  (forall x, keeps R (body x)) -> keeps R (for_of xs body).
Proof.
  intros Hb. induction xs as [|x xs IH]; cbn [for_of].
  - apply keeps_ret.
  - apply keeps_bind; [apply Hb | intros _; exact IH].
Qed.

(** One step along the structure of an action. *)
Ltac keeps_step :=
  match goal with
  | |- keeps _ (ret _) => apply keeps_ret
  | |- keeps _ (throw _) => apply keeps_throw
  | |- keeps _ (console _) => apply keeps_console
  | |- keeps _ (fetch _ _) => apply keeps_fetch
  | |- keeps _ (bind _ _) => apply keeps_bind; [|intros ?]
  | |- keeps _ (try_catch _ _) => apply keeps_try_catch; [|intros ?]
  | |- keeps _ (for_of _ _) => apply keeps_for_of; intros ?
  | |- keeps _ (if ?b then _ else _) => destruct b
  | |- keeps _ (match ?x with Some _ => _ | None => _ end) => destruct x
  | |- keeps _ (match ?x with inl _ => _ | inr _ => _ end) => destruct x
  | |- keeps _ (json_customers ?r) =>
      unfold json_customers; destruct (json r) as [[?|?]|]
  | |- keeps _ (json_orders ?r) =>
      unfold json_orders; destruct (json r) as [[?|?]|]
  | |- keeps _ (db_call _ (fun w => (_, w))) => apply keeps_db_call; intros ?; apply R_refl
  end.

(** Reading the database changes no table. *)
Lemma keeps_resolve_store uid param : keeps R (resolve_store uid param).
Proof.
  unfold resolve_store, store_findUnique, store_findFirst_of, store_findFirst.
  repeat keeps_step.
Qed.

Lemma keeps_lookup_customer store d : keeps R (lookup_customer store d).
Proof. unfold lookup_customer, customer_findUnique. repeat keeps_step. Qed.

Section Run.
Variable store : Store.
Hypothesis customer_query :
  forall d w, R (tables w) (tables (customer_upsert_query d (store_id store) w)).
Hypothesis order_query :
  forall d cust w, R (tables w) (tables (order_upsert_query d (store_id store) cust w)).

Lemma keeps_sync_customer d : keeps R (sync_customer store d).
Proof.
  unfold sync_customer, customer_upsert. repeat keeps_step.
  apply keeps_db_call. intros w. apply customer_query.
Qed.

Lemma keeps_sync_order d : keeps R (sync_order store d).
Proof.
  unfold sync_order, order_upsert. repeat keeps_step.
  - apply keeps_lookup_customer.
  - apply keeps_db_call. intros w. apply order_query.
Qed.

Lemma keeps_orders_phase : keeps R (orders_phase store).
Proof. unfold orders_phase. repeat keeps_step. apply keeps_sync_order. Qed.

Lemma keeps_syncHistoricalData : keeps R (syncHistoricalData store).
Proof.
  unfold syncHistoricalData, customers_phase, orders_phase.
  repeat keeps_step; first [apply keeps_sync_customer | apply keeps_sync_order].
Qed.
End Run.
End Keeps.

(** ** Confinement to one store *)

Lemma filter_update_first_outside {A} (p q : A -> bool) (f : A -> A) (l : list A) :
  (forall x, p x = true -> q x = false /\ q (f x) = false) ->
  filter q (update_first p f l) = filter q l.
Proof.
  intros H. induction l as [|x l IH]; [reflexivity|]. cbn [update_first].
  destruct (p x) eqn:Hp; cbn [filter].
  - destruct (H x Hp) as [-> ->]. reflexivity.
  - rewrite IH. reflexivity.
Qed.

Lemma customer_key_store sid stid c :
  customer_key sid stid c = true -> negb (customer_storeId c =? stid) = false.
Proof.
  unfold customer_key. intros H. apply andb_true_iff in H. destruct H as [_ ->]. reflexivity.
Qed.

Lemma order_key_store sid stid o :
  order_key sid stid o = true -> negb (order_storeId o =? stid) = false.
Proof.
  unfold order_key. intros H. apply andb_true_iff in H. destruct H as [_ ->]. reflexivity.
Qed.

Lemma confined_to_refl stid t : confined_to stid t t.
Proof. repeat split. Qed.

Lemma confined_to_trans stid t1 t2 t3 :
  confined_to stid t1 t2 -> confined_to stid t2 t3 -> confined_to stid t1 t3.
Proof.
  intros (A1 & B1 & C1) (A2 & B2 & C2). repeat split; congruence.
Qed.

Lemma customer_upsert_query_stores d stid w : stores (customer_upsert_query d stid w) = stores w.
Proof. unfold customer_upsert_query. destruct (find _ _); reflexivity. Qed.

Lemma order_upsert_query_stores d stid cust w :
  stores (order_upsert_query d stid cust w) = stores w.
Proof. unfold order_upsert_query. destruct (find _ _); reflexivity. Qed.

Lemma order_upsert_query_orders_of_customers d stid cust w :
  customers (order_upsert_query d stid cust w) = customers w.
Proof. apply order_upsert_query_customers. Qed.

Lemma customer_upsert_query_confined d stid w :
  confined_to stid (tables w) (tables (customer_upsert_query d stid w)).
Proof.
  unfold confined_to, tables. cbn [fst snd].
  rewrite customer_upsert_query_stores, customer_upsert_query_orders.
  split; [reflexivity|]. split; [|reflexivity].
  unfold customer_upsert_query. destruct (find _ (customers w)); cbn [customers set_customers].
  - apply filter_update_first_outside. intros x Hx.
    split; [exact (customer_key_store _ _ _ Hx)|].
    rewrite <- (customer_update_key _ _ d) in Hx. exact (customer_key_store _ _ _ Hx).
  - rewrite filter_app. cbn [filter customer_create customer_storeId].
    rewrite String.eqb_refl. cbn [negb]. apply app_nil_r.
Qed.

Lemma order_upsert_query_confined d stid cust w :
  confined_to stid (tables w) (tables (order_upsert_query d stid cust w)).
Proof.
  unfold confined_to, tables. cbn [fst snd].
  rewrite order_upsert_query_stores, order_upsert_query_customers.
  split; [reflexivity|]. split; [reflexivity|].
  unfold order_upsert_query. destruct (find _ (orders w)); cbn [orders set_orders].
  - apply filter_update_first_outside. intros x Hx.
    split; [exact (order_key_store _ _ _ Hx)|].
    rewrite <- (order_update_key _ _ d) in Hx. exact (order_key_store _ _ _ Hx).
  - rewrite filter_app. cbn [filter order_create order_storeId].
    rewrite String.eqb_refl. cbn [negb]. apply app_nil_r.
Qed.

(** X5: Whatever Shopify and the database do, a run for a store changes no
    customer and no order of any other store, and no store. *)
Theorem sync_confined_to_store :
  forall (e : Env) (w : World) (store : Store),
    let w' := snd (syncHistoricalData store e w) in
    stores w' = stores w
    /\ filter (fun c => negb (customer_storeId c =? store_id store)) (customers w') =
       filter (fun c => negb (customer_storeId c =? store_id store)) (customers w)
    /\ filter (fun o => negb (order_storeId o =? store_id store)) (orders w') =
       filter (fun o => negb (order_storeId o =? store_id store)) (orders w).
Proof.
  intros e w store.
  exact (keeps_syncHistoricalData (confined_to (store_id store))
           (confined_to_refl _) (confined_to_trans _) store
           (fun d w0 => customer_upsert_query_confined d (store_id store) w0)
           (fun d cust w0 => order_upsert_query_confined d (store_id store) cust w0)
           e w).
Qed.

(** ** The unique constraint and the identity of rows *)

Lemma keeps_unique_refl t : keeps_unique t t.
Proof. intros H. exact H. Qed.

Lemma keeps_unique_trans t1 t2 t3 :
  keeps_unique t1 t2 -> keeps_unique t2 t3 -> keeps_unique t1 t3.
Proof. unfold keeps_unique. auto. Qed.

Lemma customer_upsert_query_keeps_unique d stid w :
  keeps_unique (tables w) (tables (customer_upsert_query d stid w)).
Proof.
  unfold keeps_unique, unique_keys, tables. cbn [fst snd]. intros [Hc Ho]. split.
  - apply customer_upsert_query_unique. exact Hc.
  - rewrite customer_upsert_query_orders. exact Ho.
Qed.

Lemma order_upsert_query_keeps_unique d stid cust w :
  keeps_unique (tables w) (tables (order_upsert_query d stid cust w)).
Proof.
  unfold keeps_unique, unique_keys, tables. cbn [fst snd]. intros [Hc Ho]. split.
  - rewrite order_upsert_query_customers. exact Hc.
  - apply order_upsert_query_unique. exact Ho.
Qed.

Lemma append_only_refl t : append_only t t.
Proof. split; [reflexivity|]. split; exists []; rewrite app_nil_r; reflexivity. Qed.

Lemma append_only_trans t1 t2 t3 :
  append_only t1 t2 -> append_only t2 t3 -> append_only t1 t3.
Proof.
  intros (A1 & [l1 B1] & [m1 C1]) (A2 & [l2 B2] & [m2 C2]).
  split; [congruence|]. split.
  - exists (l1 ++ l2). rewrite B2, B1, app_assoc. reflexivity.
  - exists (m1 ++ m2). rewrite C2, C1, app_assoc. reflexivity.
Qed.

Lemma map_update_first_same {A B} (p : A -> bool) (f : A -> A) (g : A -> B) (l : list A) :
  (forall x, g (f x) = g x) -> map g (update_first p f l) = map g l.
Proof.
  intros H. induction l as [|x l IH]; [reflexivity|]. cbn [update_first].
  destruct (p x); cbn [map]; [rewrite H | rewrite IH]; reflexivity.
Qed.

Lemma customer_upsert_query_append_only d stid w :
  append_only (tables w) (tables (customer_upsert_query d stid w)).
Proof.
  unfold append_only, tables. cbn [fst snd].
  rewrite customer_upsert_query_stores, customer_upsert_query_orders.
  split; [reflexivity|]. split; [|exists []; rewrite app_nil_r; reflexivity].
  unfold customer_upsert_query. destruct (find _ (customers w)); cbn [customers set_customers].
  - exists []. rewrite app_nil_r. apply map_update_first_same. reflexivity.
  - eexists. rewrite map_app. reflexivity.
Qed.

Lemma order_upsert_query_append_only d stid cust w :
  append_only (tables w) (tables (order_upsert_query d stid cust w)).
Proof.
  unfold append_only, tables. cbn [fst snd].
  rewrite order_upsert_query_stores, order_upsert_query_customers.
  split; [reflexivity|]. split; [exists []; rewrite app_nil_r; reflexivity|].
  unfold order_upsert_query. destruct (find _ (orders w)); cbn [orders set_orders].
  - exists []. rewrite app_nil_r. apply map_update_first_same. reflexivity.
  - eexists. rewrite map_app. reflexivity.
Qed.

(** X6: Whatever Shopify and the database do, a run keeps the unique constraint
    on (shopifyId, storeId) in both tables. *)
Theorem sync_keeps_unique_keys :
  forall (e : Env) (w : World) (store : Store),
    unique_keys (tables w) ->
    unique_keys (tables (snd (syncHistoricalData store e w))).
Proof.
  intros e w store.
  exact (keeps_syncHistoricalData keeps_unique keeps_unique_refl keeps_unique_trans store
           (fun d w0 => customer_upsert_query_keeps_unique d (store_id store) w0)
           (fun d cust w0 => order_upsert_query_keeps_unique d (store_id store) cust w0)
           e w).
Qed.

Lemma sync_keeps_unique_keys_witness :
  unique_keys (tables world_b)
  /\ unique_keys (tables (snd (syncHistoricalData store_a env_sync world_b))).
Proof.
  assert (H : unique_keys (tables world_b)).
  { split; intros sid stid.
    - change (length (filter (customer_key sid stid) [stored_alice]) <= 1).
      cbn [filter]. destruct (customer_key sid stid stored_alice); simpl; lia.
    - change (length (filter (order_key sid stid) [stored_1001]) <= 1).
      cbn [filter]. destruct (order_key sid stid stored_1001); simpl; lia. }
  split; [exact H|]. exact (sync_keeps_unique_keys env_sync world_b store_a H).
Defined.

(** X7: Whatever Shopify and the database do, a run deletes nothing and moves
    nothing: the rows that existed keep their place, their local identifier
    and their key, an order keeps its customer, and new rows come after
    them. *)
Theorem sync_append_only :
  forall (e : Env) (w : World) (store : Store),
    let w' := snd (syncHistoricalData store e w) in
    (exists l, map customer_identity (customers w') = map customer_identity (customers w) ++ l)
    /\ (exists l, map order_identity (orders w') = map order_identity (orders w) ++ l).
Proof.
  intros e w store.
  exact (proj2 (keeps_syncHistoricalData append_only append_only_refl append_only_trans store
                  (fun d w0 => customer_upsert_query_append_only d (store_id store) w0)
                  (fun d cust w0 => order_upsert_query_append_only d (store_id store) cust w0)
                  e w)).
Qed.

(** ** The endpoint, whatever the request *)

Lemma requests_of_quiet (tr evs : list Event) :
  forallb not_fetch evs = true -> requests_of (tr ++ evs) = requests_of tr.
Proof.
  intros H. rewrite requests_of_app. rewrite <- (app_nil_r (requests_of tr)) at 2. f_equal.
  induction evs as [|ev evs IH]; [reflexivity|]. cbn [forallb] in H.
  apply andb_true_iff in H. destruct H as [Hev H].
  destruct ev; try discriminate; cbn; apply IH; exact H.
Qed.

Lemma appends_resolve_store uid param : appends not_fetch (resolve_store uid param).
Proof.
  unfold resolve_store, store_findUnique, store_findFirst_of, store_findFirst.
  repeat first
    [ trace_step
    | apply appends_db_call; [reflexivity | reflexivity]
    | match goal with
      | |- appends _ (match ?x with Some _ => _ | None => _ end) => destruct x
      end ].
Qed.

Lemma resolve_store_quiet uid param e w :
  tables (snd (resolve_store uid param e w)) = tables w
  /\ requests_of (trace (snd (resolve_store uid param e w))) = requests_of (trace w).
Proof.
  split.
  - symmetry. exact (keeps_resolve_store eq (@eq_refl _) (@eq_trans _) uid param e w).
  - destruct (appends_resolve_store uid param e w) as (evs & -> & Hq).
    apply requests_of_quiet. exact Hq.
Qed.

(** The responses with which the store resolution ends a request. *)
Lemma resolve_store_refusal uid param e w resp :
  fst (resolve_store uid param e w) = Ok (inl resp) ->
  status resp = 403 \/ status resp = 404.
Proof.
  unfold resolve_store, bind, ret.
  destruct (truthy param).
  - destruct (store_findUnique _ e w) as [[[s|]|err] w1]; cbn [fst]; try discriminate.
    + destruct (negb (userId s =? uid)); cbn [fst]; [|discriminate].
      intros H; injection H as <-. left. reflexivity.
    + intros H; injection H as <-. right. reflexivity.
  - destruct (store_findFirst_of uid e w) as [[[s|]|err] w1]; cbn [fst]; try discriminate.
    destruct (store_findFirst e w1) as [[[s|]|err] w2]; cbn [fst]; try discriminate.
    unfold console, emit. cbn [fst]. intros H; injection H as <-. right. reflexivity.
Qed.

Lemma POST_catch_status err e w :
  exists resp,
    fst (POST_catch err e w) = Ok resp
    /\ (status resp = 500 \/ status resp = 503)
    /\ tables (snd (POST_catch err e w)) = tables w
    /\ requests_of (trace (snd (POST_catch err e w))) = requests_of (trace w).
Proof.
  unfold POST_catch, bind, console, emit, ret. eexists. split; [reflexivity|].
  cbn [status NextResponse_json snd trace tables stores customers orders].
  split; [|split; [reflexivity|]].
  - match goal with |- context [if ?b then 503 else 500] => destruct b end; auto.
  - rewrite requests_of_app. cbn. apply app_nil_r.
Qed.

Ltac in_list := cbn [In status NextResponse_json]; repeat first [left; reflexivity | right].

(** Either the request ends without a sync, with an error status, no request
    to Shopify and the tables as they were; or a user is signed in, the store
    resolution handed over a store, and the rest is the run for that store. *)
Lemma POST_outcome request e w :
  (exists resp,
      fst (POST request e w) = Ok resp
      /\ In (status resp) [401; 403; 404; 500; 503]
      /\ requests_of (trace (snd (POST request e w))) = requests_of (trace w)
      /\ tables (snd (POST request e w)) = tables w)
  \/ (exists uid s w0 w1,
        db_reachable e = true /\ current_user e = Some uid /\ truthy (Some uid) = true
        /\ tables w0 = tables w
        /\ fst (resolve_store uid (searchParams_get "storeId" request) e w0) = Ok (inr s)
        /\ tables w1 = tables w /\ requests_of (trace w1) = requests_of (trace w)
        /\ snd (POST request e w) = snd (syncHistoricalData s e w1)
        /\ fst (POST request e w) =
           Ok (if wait request then response_completed else response_started)).
Proof.
  remember (POST request e w) as out eqn:HP.
  unfold POST, try_catch in HP. unfold bind at 1 in HP. unfold connect_race in HP.
  destruct (db_reachable e) eqn:Hdb; cbn [negb] in HP.
  2:{ left. subst out. eexists. split; [reflexivity|].
      split; [in_list|split; reflexivity]. }
  unfold bind at 1 in HP. unfold currentUser in HP.
  destruct (truthy (current_user e)) eqn:Hu; cbn [negb] in HP.
  2:{ left. subst out. eexists. split; [reflexivity|].
      split; [in_list|split; reflexivity]. }
  destruct (current_user e) as [uid|] eqn:Hcu; [|discriminate].
  unfold bind at 1 in HP. unfold console at 1 in HP. unfold emit at 1 in HP.
  set (w0 := mkWorld (stores w) (customers w) (orders w) (next_id w) (db_calls w)
                     (net_calls w) (trace w ++ [EvConsole (LogUserRequesting uid)])) in HP.
  assert (Hw0 : tables w0 = tables w /\ requests_of (trace w0) = requests_of (trace w)).
  { split; [reflexivity|]. unfold w0; cbn [trace]. rewrite requests_of_app. cbn.
    apply app_nil_r. }
  destruct Hw0 as [Ht0 Hr0].
  unfold bind at 1 in HP.
  destruct (resolve_store_quiet uid (searchParams_get "storeId" request) e w0) as [Htr Hrr].
  pose proof (resolve_store_refusal uid (searchParams_get "storeId" request) e w0) as Href.
  destruct (resolve_store uid (searchParams_get "storeId" request) e w0)
    as [[[resp|s]|err] wr] eqn:Hres; cbn [fst snd] in *.
  - left. subst out. exists resp. split; [reflexivity|]. split.
    + destruct (Href resp eq_refl) as [-> | ->]; repeat first [left; reflexivity | right].
    + cbn [ret snd]. split; congruence.
  - right. unfold bind at 1 in HP. unfold console at 1 in HP. unfold emit at 1 in HP.
    set (w1 := mkWorld (stores wr) (customers wr) (orders wr) (next_id wr) (db_calls wr)
                       (net_calls wr)
                       (trace wr ++ [EvConsole (LogFoundStore (shop s) uid)])) in HP.
    exists uid, s, w0, w1.
    split; [reflexivity|]. split; [reflexivity|]. split; [exact Hu|].
    split; [exact Ht0|]. split; [rewrite Hres; reflexivity|].
    split; [transitivity (tables wr); [reflexivity|congruence]|].
    split.
    { unfold w1; cbn [trace]. rewrite requests_of_app. cbn. rewrite app_nil_r. congruence. }
    pose proof (syncHistoricalData_never_throws s e w1) as Hs.
    destruct (wait request); unfold bind, ret, detached, try_catch in HP;
      destruct (syncHistoricalData s e w1) as [[[]|err3] w3]; cbn [fst] in Hs;
      try discriminate; subst out; split; reflexivity.
  - left. destruct (POST_catch_status err e wr) as (resp & Hresp & Hst & Ht & Hr).
    destruct (POST_catch err e wr) as [r wc]. cbn [fst snd] in *. subst out.
    exists resp. split; [exact Hresp|]. split.
    + destruct Hst as [-> | ->]; repeat first [left; reflexivity | right].
    + cbn [snd]. split; congruence.
Qed.

(** X8: The endpoint never throws.  It answers 200 after a run it waited for,
    202 after a run it did not wait for, and otherwise 401, 403, 404, 500 or
    503; in that last case it has sent nothing to Shopify and changed no
    table. *)
Theorem POST_always_answers :
  forall (request : Request) (e : Env) (w : World),
  exists resp,
    fst (POST request e w) = Ok resp
    /\ ((resp = response_completed /\ wait request = true)
        \/ (resp = response_started /\ wait request = false)
        \/ (In (status resp) [401; 403; 404; 500; 503]
            /\ requests_of (trace (snd (POST request e w))) = requests_of (trace w)
            /\ tables (snd (POST request e w)) = tables w)).
Proof.
  intros request e w.
  destruct (POST_outcome request e w)
    as [(resp & Hr & Hst & Hreq & Ht)
       | (uid & s & w0 & w1 & _ & _ & _ & _ & _ & _ & _ & _ & Hr)].
  - exists resp. split; [exact Hr|]. right. right. tauto.
  - eexists. split; [exact Hr|]. destruct (wait request); [left|right; left]; tauto.
Qed.

Lemma resolve_store_by_id uid id e w s :
  truthy (Some id) = true ->
  fst (resolve_store uid (Some id) e w) = Ok (inr s) ->
  In s (stores w) /\ store_id s = id /\ userId s = uid.
Proof.
  intros Ht. unfold resolve_store. rewrite Ht. unfold bind, store_findUnique, db_call.
  destruct (db_fault e (db_calls w)); cbn [fst]; [discriminate|].
  cbn [stores].
  destruct (find (fun s0 => store_id s0 =? id) (stores w)) as [s0|] eqn:Hf;
    cbn [fst ret]; [|discriminate].
  destruct (userId s0 =? uid) eqn:Hu; cbn [negb fst ret]; [|discriminate].
  intros H; injection H as <-. apply find_some in Hf. destruct Hf as [Hin Hid].
  split; [exact Hin|]. split; apply String.eqb_eq; assumption.
Qed.

(** X9: A request that names a store only ever touches that store, and only for
    its owner: either the endpoint sends nothing to Shopify and changes no
    table, or the named store exists and belongs to the signed-in user; in
    both cases the rows of all other stores are left alone. *)
Theorem POST_named_store_authorized :
  forall (request : Request) (e : Env) (w : World) (id : string),
    searchParams_get "storeId" request = Some id ->
    truthy (Some id) = true ->
    let w' := snd (POST request e w) in
    ((requests_of (trace w') = requests_of (trace w) /\ tables w' = tables w)
     \/ (exists s,
           In s (stores w) /\ store_id s = id /\ current_user e = Some (userId s)))
    /\ confined_to id (tables w) (tables w').
Proof.
  intros request e w id Hp Ht w'. subst w'.
  destruct (POST_outcome request e w)
    as [(resp & Hr & Hst & Hreq & Htab)
       | (uid & s & w0 & w1 & _ & Hcu & _ & Ht0 & Hres & Ht1 & _ & Hw' & _)].
  - split; [left; tauto|]. rewrite Htab. apply confined_to_refl.
  - rewrite Hp in Hres.
    destruct (resolve_store_by_id uid id e w0 s Ht Hres) as (Hin & Hid & Hown).
    split.
    + right. exists s. split; [|split; [exact Hid | rewrite Hown; exact Hcu]].
      assert (Hs : stores w0 = stores w) by (injection Ht0; auto).
      rewrite <- Hs. exact Hin.
    + rewrite Hw', <- Ht1, <- Hid.
      exact (keeps_syncHistoricalData (confined_to (store_id s))
               (confined_to_refl _) (confined_to_trans _) s
               (fun d w2 => customer_upsert_query_confined d (store_id s) w2)
               (fun d cust w2 => order_upsert_query_confined d (store_id s) cust w2)
               e w1).
Qed.

Lemma POST_named_store_authorized_witness :
  searchParams_get "storeId" request_store_a = Some "store_a"
  /\ truthy (Some "store_a") = true
  /\ confined_to "store_a" (tables world_b)
       (tables (snd (POST request_store_a env_sync world_b)))
  /\ confined_to "store_a" (tables world_b)
       (tables (snd (POST request_store_a env_other_user world_b))).
Proof.
  assert (Hp : searchParams_get "storeId" request_store_a = Some "store_a") by reflexivity.
  assert (Ht : truthy (Some "store_a") = true) by reflexivity.
  split; [exact Hp|]. split; [exact Ht|]. split.
  - exact (proj2 (POST_named_store_authorized request_store_a env_sync world_b "store_a" Hp Ht)).
  - exact (proj2 (POST_named_store_authorized request_store_a env_other_user world_b
                    "store_a" Hp Ht)).
Defined.

(** X10: Whatever the request and whatever the outside does, the endpoint changes
    rows of at most one store, deletes and moves no row, and leaves the store
    table alone. *)
Theorem POST_append_only_one_store :
  forall (request : Request) (e : Env) (w : World),
    let w' := snd (POST request e w) in
    (exists stid, confined_to stid (tables w) (tables w'))
    /\ append_only (tables w) (tables w').
Proof.
  intros request e w w'. subst w'.
  destruct (POST_outcome request e w)
    as [(resp & Hr & Hst & Hreq & Htab)
       | (uid & s & w0 & w1 & _ & _ & _ & _ & _ & Ht1 & _ & Hw' & _)].
  - rewrite Htab. split; [exists ""; apply confined_to_refl | apply append_only_refl].
  - rewrite Hw', <- Ht1. split.
    + exists (store_id s).
      exact (keeps_syncHistoricalData (confined_to (store_id s))
               (confined_to_refl _) (confined_to_trans _) s
               (fun d w2 => customer_upsert_query_confined d (store_id s) w2)
               (fun d cust w2 => order_upsert_query_confined d (store_id s) cust w2)
               e w1).
    + exact (keeps_syncHistoricalData append_only append_only_refl append_only_trans s
               (fun d w2 => customer_upsert_query_append_only d (store_id s) w2)
               (fun d cust w2 => order_upsert_query_append_only d (store_id s) cust w2)
               e w1).
Qed.

(** X11: Whatever the request and whatever the outside does, the endpoint keeps
    the unique constraint on (shopifyId, storeId). *)
Theorem POST_keeps_unique_keys :
  forall (request : Request) (e : Env) (w : World),
    unique_keys (tables w) ->
    unique_keys (tables (snd (POST request e w))).
Proof.
  intros request e w Hu.
  destruct (POST_outcome request e w)
    as [(resp & Hr & Hst & Hreq & Htab)
       | (uid & s & w0 & w1 & _ & _ & _ & _ & _ & Ht1 & _ & Hw' & _)].
  - rewrite Htab. exact Hu.
  - rewrite Hw'. rewrite <- Ht1 in Hu.
    exact (keeps_syncHistoricalData keeps_unique keeps_unique_refl keeps_unique_trans s
             (fun d w2 => customer_upsert_query_keeps_unique d (store_id s) w2)
             (fun d cust w2 => order_upsert_query_keeps_unique d (store_id s) cust w2)
             e w1 Hu).
Qed.

Lemma POST_keeps_unique_keys_witness :
  unique_keys (tables world_b)
  /\ unique_keys (tables (snd (POST request_wait env_sync world_b))).
Proof.
  assert (H : unique_keys (tables world_b)).
  { split; intros sid stid.
    - change (length (filter (customer_key sid stid) [stored_alice]) <= 1).
      cbn [filter]. destruct (customer_key sid stid stored_alice); simpl; lia.
    - change (length (filter (order_key sid stid) [stored_1001]) <= 1).
      cbn [filter]. destruct (order_key sid stid stored_1001); simpl; lia. }
  split; [exact H|]. exact (POST_keeps_unique_keys request_wait env_sync world_b H).
Defined.

(** X12: A database error during the store lookup is answered, not thrown: the
    handler's catch block turns it into a 500 or 503 response, and nothing is
    sent to Shopify or written. *)
Theorem POST_database_error_reported :
  forall (request : Request) (e : Env) (w : World) (uid : string) (err : Thrown),
    db_reachable e = true ->
    current_user e = Some uid ->
    truthy (Some uid) = true ->
    db_fault e (db_calls w) = Some err ->
    exists resp,
      fst (POST request e w) = Ok resp
      /\ fst (POST_catch err e w) = Ok resp
      /\ (status resp = 500 \/ status resp = 503)
      /\ requests_of (trace (snd (POST request e w))) = requests_of (trace w)
      /\ tables (snd (POST request e w)) = tables w.
Proof.
  intros request e w uid err Hdb Hcu Hu Hf.
  remember (POST request e w) as out eqn:HP.
  unfold POST, try_catch in HP. unfold bind at 1 in HP. unfold connect_race in HP.
  rewrite Hdb in HP. cbn [negb] in HP.
  unfold bind at 1 in HP. unfold currentUser in HP. rewrite Hcu, Hu in HP. cbn [negb] in HP.
  unfold bind at 1 in HP. unfold console at 1 in HP. unfold emit at 1 in HP.
  unfold bind at 1 in HP.
  set (w0 := mkWorld (stores w) (customers w) (orders w) (next_id w) (db_calls w)
                     (net_calls w) (trace w ++ [EvConsole (LogUserRequesting uid)])) in HP.
  assert (Hres : exists wr,
             resolve_store uid (searchParams_get "storeId" request) e w0 = (Throw err, wr)
             /\ tables wr = tables w /\ requests_of (trace wr) = requests_of (trace w)).
  { unfold resolve_store, bind.
    destruct (truthy (searchParams_get "storeId" request)).
    - unfold store_findUnique. rewrite (db_call_fault _ _ e w0 err Hf).
      eexists. split; [reflexivity|]. split; [reflexivity|].
      cbn [advance trace w0]. rewrite !requests_of_app. cbn. rewrite !app_nil_r. reflexivity.
    - unfold store_findFirst_of. rewrite (db_call_fault _ _ e w0 err Hf).
      eexists. split; [reflexivity|]. split; [reflexivity|].
      cbn [advance trace w0]. rewrite !requests_of_app. cbn. rewrite !app_nil_r. reflexivity. }
  destruct Hres as (wr & Hres & Htr & Hrr). rewrite Hres in HP.
  destruct (POST_catch_status err e wr) as (resp & Hresp & Hst & Ht & Hr).
  exists resp. subst out. split; [exact Hresp|]. split.
  - unfold POST_catch, bind, console, emit, ret in *. cbn [fst] in *. exact Hresp.
  - split; [exact Hst|]. split; congruence.
Qed.

Lemma POST_database_error_reported_witness :
  db_reachable env_down = true
  /\ current_user env_down = Some "user_a"
  /\ truthy (Some "user_a") = true
  /\ db_fault env_down (db_calls world_a) = Some pool_timeout
  /\ exists resp,
      fst (POST request_wait env_down world_a) = Ok resp
      /\ (status resp = 500 \/ status resp = 503).
Proof.
  assert (H1 : db_reachable env_down = true) by reflexivity.
  assert (H2 : current_user env_down = Some "user_a") by reflexivity.
  assert (H3 : truthy (Some "user_a") = true) by reflexivity.
  assert (H4 : db_fault env_down (db_calls world_a) = Some pool_timeout) by reflexivity.
  split; [exact H1|]. split; [exact H2|]. split; [exact H3|]. split; [exact H4|].
  destruct (POST_database_error_reported request_wait env_down world_a "user_a" pool_timeout
              H1 H2 H3 H4) as (resp & Hr & _ & Hst & _).
  exists resp. split; assumption.
Defined.

(** ** The retry executor around any call *)

Lemma delays_of_quiet (tr evs : list Event) :
  forallb not_timeout evs = true -> delays_of (tr ++ evs) = delays_of tr.
Proof.
  intros H. rewrite delays_of_app. rewrite <- (app_nil_r (delays_of tr)) at 2. f_equal.
  induction evs as [|ev evs IH]; [reflexivity|]. cbn [forallb] in H.
  apply andb_true_iff in H. destruct H as [Hev H].
  destruct ev; try discriminate; cbn; apply IH; exact H.
Qed.

Lemma withRetry_loop_schedule {T} (fn : M T) label retries base e :
  appends not_timeout fn ->
  forall fuel attempt w,
    attempt <= retries -> retries < fuel + attempt ->
    exists k r w',
      attempt + k <= retries
      /\ withRetry_loop fuel fn label retries base attempt e w = Some (r, w')
      /\ delays_of (trace w') =
         delays_of (trace w)
         ++ map (fun n => (base * 2 ^ (Z.of_nat n - 1))%Z) (seq (S attempt) k)
      /\ (exists w0, fst (fn e w0) = r)
      /\ (forall err, r = Throw err ->
            attempt + k = retries \/ isPoolTimeout (message_of err) = false).
Proof.
  intros Hfn. induction fuel as [|fuel IH]; intros attempt w Ha Hf; [lia|].
  cbn [withRetry_loop].
  destruct (Hfn e w) as (evs & Hevs & Hq).
  destruct (fn e w) as [[v|err] w1] eqn:Hrun; cbn [snd] in Hevs.
  - exists 0, (Ok v), w1. split; [lia|]. split; [reflexivity|].
    split; [rewrite Hevs, app_nil_r; apply delays_of_quiet; exact Hq|].
    split; [exists w; rewrite Hrun; reflexivity | discriminate].
  - destruct ((retries <? attempt + 1)%nat) eqn:Hlt; cbn [orb].
    + exists 0, (Throw err), w1. split; [lia|]. split; [reflexivity|].
      split; [rewrite Hevs, app_nil_r; apply delays_of_quiet; exact Hq|].
      split; [exists w; rewrite Hrun; reflexivity|].
      intros err' _. left. apply Nat.ltb_lt in Hlt. lia.
    + destruct (isPoolTimeout (message_of err)) eqn:Hp; cbn [negb].
      * apply Nat.ltb_ge in Hlt.
        unfold bind, console, sleep, emit. cbn [fst snd].
        match goal with |- context [withRetry_loop fuel _ _ _ _ _ _ ?w2] => set (w' := w2) end.
        destruct (IH (attempt + 1) w' ltac:(lia) ltac:(lia))
          as (k & r & w'' & Hk & Heq & Hdel & Hres & Hthrow).
        exists (S k), r, w''. split; [lia|]. split; [exact Heq|].
        split; [|split; [exact Hres|]].
        -- rewrite Hdel. unfold w'. cbn [trace]. rewrite Hevs.
           assert (He : delays_of evs = []) by exact (delays_of_quiet [] evs Hq).
           rewrite !delays_of_app, He.
           cbn [delays_of flat_map app seq map]. rewrite <- !app_assoc. cbn [app].
           replace (attempt + 1) with (S attempt) by lia.
           replace (Z.of_nat (S attempt - 1)) with (Z.of_nat (S attempt) - 1)%Z by lia.
           reflexivity.
        -- intros err' Hr. destruct (Hthrow err' Hr) as [H|H]; [left; lia | right; exact H].
      * exists 0, (Throw err), w1. split; [lia|]. split; [reflexivity|].
        split; [rewrite Hevs, app_nil_r; apply delays_of_quiet; exact Hq|].
        split; [exists w; rewrite Hrun; reflexivity|].
        intros err' Hr. injection Hr as <-. right. exact Hp.
Qed.

Lemma firstn_seq_le (k : nat) :
  forall start len, k <= len -> firstn k (seq start len) = seq start k.
Proof.
  induction k as [|k IH]; intros start len Hle; [reflexivity|].
  destruct len as [|len]; [lia|]. cbn [seq firstn]. f_equal. apply IH. lia.
Qed.

(** X13: Around any call that sets no timer itself, and whatever the call does,
    [withRetry] comes back once it has more than [retries] rounds to run: it
    has then slept a beginning of the schedule [baseDelayMs * 2^(n-1)],
    [n = 1 .. retries], and nothing else; what it returns or throws is what
    one of the attempts returned or threw; and it gives up with an error
    before the schedule is used up only on an error that is not a pool
    timeout. *)
Theorem withRetry_any_call :
  forall (T : Type) (fn : M T) (label : string) (retries : nat) (baseDelayMs : Z)
         (fuel : nat) (e : Env) (w : World),
    retries < fuel ->
    appends not_timeout fn ->
    exists k r w',
      k <= retries
      /\ withRetry fuel fn label retries baseDelayMs e w = Some (r, w')
      /\ delays_of (trace w') =
         delays_of (trace w) ++ firstn k (backoff_schedule baseDelayMs retries)
      /\ (exists w0, fst (fn e w0) = r)
      /\ (forall err, r = Throw err ->
            k = retries \/ isPoolTimeout (message_of err) = false).
Proof.
  intros T fn label retries base fuel e w Hfuel Hfn.
  destruct (withRetry_loop_schedule fn label retries base e Hfn fuel 0 w
              ltac:(lia) ltac:(lia)) as (k & r & w' & Hk & Heq & Hdel & Hres & Hthrow).
  exists k, r, w'. split; [lia|]. split; [exact Heq|]. split; [|split; [exact Hres|]].
  - rewrite Hdel. f_equal. unfold backoff_schedule.
    rewrite firstn_map, firstn_seq_le by lia. reflexivity.
  - intros err Hr. destruct (Hthrow err Hr) as [H|H]; [left; lia | right; exact H].
Qed.

Lemma withRetry_any_call_witness :
  3 < 4
  /\ appends not_timeout (store_findFirst_where "store_a" "user_a")
  /\ exists k r w',
      k <= 3
      /\ withRetry 4 (store_findFirst_where "store_a" "user_a") "store.findFirst" 3 200
                   env_second_call_fails world_a = Some (r, w')
      /\ delays_of (trace w') = delays_of (trace world_a) ++ firstn k (backoff_schedule 200 3).
Proof.
  assert (H1 : 3 < 4) by lia.
  assert (H2 : appends not_timeout (store_findFirst_where "store_a" "user_a")).
  { apply appends_db_call; [reflexivity|]. intros w. reflexivity. }
  split; [exact H1|]. split; [exact H2|].
  destruct (withRetry_any_call (option Store) (store_findFirst_where "store_a" "user_a")
              "store.findFirst" 3 200 4 env_second_call_fails world_a H1 H2)
    as (k & r & w' & Hk & Heq & Hdel & _).
  exists k, r, w'. split; [exact Hk|]. split; [exact Heq | exact Hdel].
Defined.

(** ** The paginated fetcher, page by page *)

Lemma fetchAll_loop_done fuel results token e w :
  fetchAll_loop fuel results None token e w = Some (Ok results, w).
Proof. destruct fuel; reflexivity. Qed.

Lemma after_requests_nil token w : after_requests token [] w = w.
Proof.
  unfold after_requests. cbn [length map]. rewrite Nat.add_0_r, app_nil_r.
  destruct w; reflexivity.
Qed.

Lemma after_requests_cons token url urls w :
  after_requests token urls (requested [EvFetch url token] w) =
  after_requests token (url :: urls) w.
Proof.
  unfold after_requests, requested.
  cbn [stores customers orders next_id db_calls net_calls trace length map].
  rewrite <- app_assoc. cbn [app].
  replace (S (net_calls w) + length urls) with (net_calls w + S (length urls)) by lia.
  reflexivity.
Qed.

Lemma after_requests_snoc token url urls w :
  requested [EvFetch url token] (after_requests token urls w) =
  after_requests token (urls ++ [url]) w.
Proof.
  unfold after_requests, requested.
  cbn [stores customers orders next_id db_calls net_calls trace].
  rewrite map_app, length_app, <- app_assoc. cbn [length map].
  replace (S (net_calls w + length urls)) with (net_calls w + (length urls + 1)) by lia.
  reflexivity.
Qed.

(** The loop walks along the pages it is served. *)
Lemma fetchAll_loop_chain e token next :
  forall pages fuel results url w,
    serves_from e token (net_calls w) url pages next ->
    fetchAll_loop (length pages + fuel) results (Some url) token e w =
    fetchAll_loop fuel (results ++ flat_map records_of pages) next token e
                  (after_requests token (urls_from url pages) w).
Proof.
  induction pages as [|res rest IH]; intros fuel results url w Hs.
  - cbn [serves_from] in Hs. subst next.
    cbn [length Nat.add flat_map urls_from]. rewrite app_nil_r, after_requests_nil.
    reflexivity.
  - cbn [serves_from] in Hs. destruct Hs as (Hurl & Hnet & Hok & Hjson & Hnext).
    cbn [length Nat.add fetchAll_loop]. rewrite Hurl. cbn [negb]. unfold fetch.
    rewrite Hnet, Hok. cbn [negb].
    fold (requested [EvFetch url token] w).
    cbn [flat_map urls_from]. unfold records_of at 1.
    destruct (json res) as [data|]; [|contradiction].
    destruct (next_cursor res) as [u|] eqn:Hcur.
    + rewrite (IH fuel (results ++ first_key data) u (requested [EvFetch url token] w) Hnext).
      rewrite after_requests_cons, app_assoc. reflexivity.
    + destruct Hnext as [-> ->]. cbn [length Nat.add flat_map].
      rewrite !fetchAll_loop_done, app_nil_r.
      rewrite <- (after_requests_cons token url [] w), after_requests_nil. reflexivity.
Qed.

Lemma urls_from_length e token next :
  forall pages n url,
    serves_from e token n url pages next -> length (urls_from url pages) = length pages.
Proof.
  induction pages as [|res rest IH]; intros n url Hs; [reflexivity|].
  cbn [serves_from] in Hs. destruct Hs as (_ & _ & _ & _ & Hnext).
  cbn [urls_from length]. f_equal.
  destruct (next_cursor res) as [u|]; [exact (IH _ _ Hnext)|].
  destruct Hnext as [-> _]. reflexivity.
Qed.

(** X14: When the shop serves a chain of pages that ends with a page without a
    next link, [fetchAllFromShopify] returns the records of all the pages,
    in the order of the pages and of the records on each page, after one
    request per page, each carrying the access token; it does nothing else. *)
Theorem fetchAll_returns_pages_in_order :
  forall (e : Env) (w : World) (url token : string) (pages : list Response) (fuel : nat),
    serves_from e token (net_calls w) url pages None ->
    length pages <= fuel ->
    fetchAllFromShopify fuel url token e w =
      Some (Ok (flat_map records_of pages),
            after_requests token (urls_from url pages) w)
    /\ fetches_of (trace (after_requests token (urls_from url pages) w)) =
       fetches_of (trace w) ++ map (fun u => (u, token)) (urls_from url pages)
    /\ length (urls_from url pages) = length pages.
Proof.
  intros e w url token pages fuel Hs Hfuel.
  split; [|split].
  - unfold fetchAllFromShopify.
    replace fuel with (length pages + (fuel - length pages)) by lia.
    rewrite (fetchAll_loop_chain e token None pages _ [] url w Hs).
    rewrite fetchAll_loop_done. reflexivity.
  - unfold after_requests. cbn [trace]. unfold fetches_of. rewrite flat_map_app. f_equal.
    induction (urls_from url pages) as [|u urls IH]; [reflexivity|].
    cbn [map flat_map app]. f_equal. exact IH.
  - exact (urls_from_length e token None pages _ url Hs).
Qed.

Lemma fetchAll_returns_pages_in_order_witness :
  serves_from env_two_pages "shpat_a" (net_calls world_a) (customersApiUrl store_a)
              [first_page; last_page] None
  /\ 2 <= 2
  /\ exists w',
      fetchAllFromShopify 2 (customersApiUrl store_a) "shpat_a" env_two_pages world_a =
        Some (Ok [RawC alice; RawC bob; RawC carol; RawC dave], w')
      /\ requests_of (trace w') = [customersApiUrl store_a; page2_url].
Proof.
  assert (H1 : serves_from env_two_pages "shpat_a" (net_calls world_a)
                 (customersApiUrl store_a) [first_page; last_page] None).
  { cbn [serves_from].
    split; [reflexivity|]. split; [reflexivity|]. split; [reflexivity|].
    split; [discriminate|].
    change (next_cursor first_page) with (Some page2_url). cbn [serves_from].
    split; [reflexivity|]. split; [reflexivity|]. split; [reflexivity|].
    split; [discriminate|].
    change (next_cursor last_page) with (@None string). split; reflexivity. }
  assert (H2 : 2 <= 2) by lia.
  split; [exact H1|]. split; [exact H2|].
  destruct (fetchAll_returns_pages_in_order env_two_pages world_a (customersApiUrl store_a)
              "shpat_a" [first_page; last_page] 2 H1 H2) as (Heq & _ & _).
  eexists. split; [exact Heq | reflexivity].
Defined.

(** X15: A page that fails ends the fetch with an error: after any number of
    good pages, a response that is not a success makes [fetchAllFromShopify]
    throw an [Error] carrying the body of that response, and a request that
    gets no answer makes it throw the network error; the records of the
    pages read so far are not returned, and no further request is sent. *)
Theorem fetchAll_aborts_on_failed_page :
  forall (e : Env) (w : World) (url token u : string) (pages : list Response) (fuel : nat),
    serves_from e token (net_calls w) url pages (Some u) ->
    truthy (Some u) = true ->
    length pages < fuel ->
    let w' := after_requests token (urls_from url pages ++ [u]) w in
    (forall res,
        net e (net_calls w + length pages) u token = Responded res ->
        ok res = false ->
        fetchAllFromShopify fuel url token e w = Some (Throw (JsError "Error" (text res)), w'))
    /\ (forall err,
          net e (net_calls w + length pages) u token = NetworkError err ->
          fetchAllFromShopify fuel url token e w = Some (Throw err, w')).
Proof.
  intros e w url token u pages fuel Hs Hu Hfuel w'.
  assert (Hloop : fetchAllFromShopify fuel url token e w =
                  fetchAll_loop (S (fuel - length pages - 1)) ([] ++ flat_map records_of pages)
                    (Some u) token e (after_requests token (urls_from url pages) w)).
  { unfold fetchAllFromShopify.
    replace fuel with (length pages + S (fuel - length pages - 1)) at 1 by lia.
    exact (fetchAll_loop_chain e token (Some u) pages _ [] url w Hs). }
  assert (Hn : net_calls (after_requests token (urls_from url pages) w) =
               net_calls w + length pages).
  { unfold after_requests. cbn [net_calls].
    rewrite (urls_from_length e token (Some u) pages _ url Hs). reflexivity. }
  split.
  - intros res Hnet Hok. rewrite <- Hn in Hnet.
    rewrite Hloop. cbn [fetchAll_loop]. rewrite Hu. cbn [negb].
    unfold fetch. rewrite Hnet, Hok. cbn [negb].
    fold (requested [EvFetch u token] (after_requests token (urls_from url pages) w)).
    rewrite after_requests_snoc. reflexivity.
  - intros err Hnet. rewrite <- Hn in Hnet.
    rewrite Hloop. cbn [fetchAll_loop]. rewrite Hu. cbn [negb].
    unfold fetch. rewrite Hnet.
    fold (requested [EvFetch u token] (after_requests token (urls_from url pages) w)).
    rewrite after_requests_snoc. reflexivity.
Qed.

Lemma fetchAll_aborts_on_failed_page_witness :
  serves_from env_second_page_refused "shpat_a" (net_calls world_a) (customersApiUrl store_a)
              [first_page] (Some page2_url)
  /\ truthy (Some page2_url) = true
  /\ 1 < 5
  /\ exists w',
      fetchAllFromShopify 5 (customersApiUrl store_a) "shpat_a" env_second_page_refused world_a =
        Some (Throw (JsError "Error" "Too Many Requests"), w')
      /\ requests_of (trace w') = [customersApiUrl store_a; page2_url].
Proof.
  assert (H1 : serves_from env_second_page_refused "shpat_a" (net_calls world_a)
                 (customersApiUrl store_a) [first_page] (Some page2_url)).
  { cbn [serves_from].
    split; [reflexivity|]. split; [reflexivity|]. split; [reflexivity|].
    split; [discriminate|].
    change (next_cursor first_page) with (Some page2_url). cbn [serves_from]. reflexivity. }
  assert (H2 : truthy (Some page2_url) = true) by reflexivity.
  assert (H3 : 1 < 5) by lia.
  split; [exact H1|]. split; [exact H2|]. split; [exact H3|].
  destruct (fetchAll_aborts_on_failed_page env_second_page_refused world_a
              (customersApiUrl store_a) "shpat_a" page2_url [first_page] 5 H1 H2 H3) as [Hbad _].
  eexists. split.
  - exact (Hbad (mkResponse false "Too Many Requests" None None) eq_refl eq_refl).
  - reflexivity.
Defined.

(** X16: The fetcher has no page limit: against a shop that answers every
    request with a good page linking to a further page, the loop never
    ends, however long it runs. *)
Theorem fetchAll_never_returns_on_endless_links :
  forall (e : Env) (token url : string),
    (forall n u, exists res,
        net e n u token = Responded res
        /\ ok res = true /\ json res <> None /\ next_cursor res <> None) ->
    truthy (Some url) = true ->
    forall (fuel : nat) (w : World), fetchAllFromShopify fuel url token e w = None.
Proof.
  intros e token url Hshop Hurl fuel w. unfold fetchAllFromShopify.
  generalize (@nil Raw) as results. revert url Hurl w.
  induction fuel as [|fuel IH]; intros url Hurl w results.
  - cbn [fetchAll_loop]. rewrite Hurl. reflexivity.
  - cbn [fetchAll_loop]. rewrite Hurl. cbn [negb]. unfold fetch.
    destruct (Hshop (net_calls w) url) as (res & Hnet & Hok & Hjson & Hnext).
    rewrite Hnet, Hok. cbn [negb].
    destruct (json res) as [data|]; [|contradiction].
    destruct (next_cursor res) as [u|] eqn:Hcur; [|contradiction].
    apply IH. exact (next_cursor_truthy _ _ Hcur).
Qed.

Lemma fetchAll_never_returns_on_endless_links_witness :
  (forall n u, exists res,
      net env_endless_shop n u "shpat_a" = Responded res
      /\ ok res = true /\ json res <> None /\ next_cursor res <> None)
  /\ truthy (Some (customersApiUrl store_a)) = true
  /\ fetchAllFromShopify 50 (customersApiUrl store_a) "shpat_a" env_endless_shop world_a = None.
Proof.
  assert (H1 : forall n u, exists res,
             net env_endless_shop n u "shpat_a" = Responded res
             /\ ok res = true /\ json res <> None /\ next_cursor res <> None).
  { intros n u. eexists. split; [reflexivity|]. split; [reflexivity|].
    split; [discriminate|]. vm_compute. discriminate. }
  assert (H2 : truthy (Some (customersApiUrl store_a)) = true) by reflexivity.
  split; [exact H1|]. split; [exact H2|].
  exact (fetchAll_never_returns_on_endless_links env_endless_shop "shpat_a"
           (customersApiUrl store_a) H1 H2 50 world_a).
Defined.

(** ** The link header *)

Lemma string_app_assoc (a b c : string) : ((a ++ b) ++ c = a ++ (b ++ c))%string.
Proof. induction a as [|x a IH]; [reflexivity|]. cbn [append]. rewrite IH. reflexivity. Qed.

Lemma until_gt_app (u rest : string) :
  free_of ">"%char u = true -> until_gt (u ++ String ">"%char rest)%string = Some (u, rest).
Proof.
  induction u as [|c u IH]; intros H; [reflexivity|].
  cbn [free_of] in H. apply andb_true_iff in H. destruct H as [Hc Hu].
  cbn [append until_gt]. destruct ((c =? ">")%char); [discriminate|].
  rewrite (IH Hu). reflexivity.
Qed.

(** The entry of the previous page does not match. *)
Lemma match_here_previous (x tail : string) :
  free_of ">"%char x = true ->
  match_here (x ++ String ">"%char ("; rel=" ++ dquote ++ "previous" ++ dquote ++ tail))%string
  = None.
Proof.
  intros H. unfold match_here. rewrite (until_gt_app _ _ H).
  destruct x; reflexivity.
Qed.

Lemma link_next_skip (rest : string) :
  (forall y, free_of ">"%char y = true -> match_here (y ++ String ">"%char rest)%string = None) ->
  forall x, free_of ">"%char x = true ->
    link_next (x ++ String ">"%char rest)%string = link_next rest.
Proof.
  intros Hrest. induction x as [|c x IH]; intros H; [reflexivity|].
  cbn [free_of] in H. apply andb_true_iff in H. destruct H as [_ Hx].
  cbn [append link_next]. rewrite (Hrest x Hx).
  destruct ((c =? "<")%char); exact (IH Hx).
Qed.

Lemma link_next_skip_previous (x tail : string) :
  free_of ">"%char x = true ->
  link_next (x ++ String ">"%char ("; rel=" ++ dquote ++ "previous" ++ dquote ++ tail))%string
  = link_next tail.
Proof.
  intros H. rewrite (link_next_skip _ (fun y Hy => match_here_previous y tail Hy) x H).
  reflexivity.
Qed.

Lemma link_next_entry_next (u tail : string) :
  free_of ">"%char u = true -> u <> EmptyString ->
  link_next (String "<"%char (u ++ String ">"%char ("; " ++ rel_next ++ tail)))%string = Some u.
Proof.
  intros H Hne. cbn [link_next]. change (("<" =? "<")%char) with true. cbv iota.
  unfold match_here. rewrite (until_gt_app _ _ H).
  destruct u as [|c u]; [contradiction|].
  change ("; " ++ rel_next ++ tail)%string
    with (String ";"%char (String " "%char (rel_next ++ tail)%string)).
  cbv iota. change ((";" =? ";")%char) with true.
  change (skip_spaces (String " "%char (rel_next ++ tail)%string)) with (rel_next ++ tail)%string.
  replace (prefix rel_next (rel_next ++ tail)) with true; [reflexivity|].
  symmetry. clear. induction tail; vm_compute; reflexivity.
Qed.

Lemma link_next_lt (s : string) :
  link_next (String "<"%char s) =
  match match_here s with
  | Some u => Some u
  | None => link_next s
  end.
Proof. reflexivity. Qed.

(** X17: The pattern reads the link headers Shopify sends: from a header with the
    next page only, and from one with the previous page and then the next,
    it takes the address of the next page, whole; from a header with the
    previous page only (the last page) it takes nothing, which ends the
    loop of the fetcher. *)
Theorem link_next_reads_shopify_headers :
  forall (p u : string),
    free_of ">"%char p = true ->
    free_of ">"%char u = true ->
    u <> EmptyString ->
    link_next (link_entry u "next") = Some u
    /\ link_next (link_entry p "previous" ++ ", " ++ link_entry u "next")%string = Some u
    /\ link_next (link_entry p "previous") = None.
Proof.
  intros p u Hp Hu Hne. split; [|split].
  - exact (link_next_entry_next u EmptyString Hu Hne).
  - assert (E : (link_entry p "previous" ++ ", " ++ link_entry u "next")%string =
                String "<"%char
                  (p ++ String ">"%char ("; rel=" ++ dquote ++ "previous" ++ dquote
                                         ++ ", " ++ link_entry u "next"))%string).
    { change (link_entry p "previous" ++ ", " ++ link_entry u "next")%string
        with (String "<"%char
                ((p ++ String ">"%char ("; rel=" ++ dquote ++ "previous" ++ dquote))
                 ++ ", " ++ link_entry u "next")%string).
      rewrite string_app_assoc. reflexivity. }
    rewrite E, link_next_lt, (match_here_previous p _ Hp), (link_next_skip_previous p _ Hp).
    exact (link_next_entry_next u EmptyString Hu Hne).
  - change (link_entry p "previous")
      with (String "<"%char
              (p ++ String ">"%char ("; rel=" ++ dquote ++ "previous" ++ dquote ++ ""))%string).
    rewrite link_next_lt, (match_here_previous p _ Hp), (link_next_skip_previous p _ Hp).
    reflexivity.
Qed.

Lemma link_next_reads_shopify_headers_witness :
  free_of ">"%char (customersApiUrl store_a) = true
  /\ free_of ">"%char page2_url = true
  /\ page2_url <> EmptyString
  /\ link_next (link_entry (customersApiUrl store_a) "previous" ++ ", "
                ++ link_entry page2_url "next")%string = Some page2_url.
Proof.
  assert (H1 : free_of ">"%char (customersApiUrl store_a) = true) by reflexivity.
  assert (H2 : free_of ">"%char page2_url = true) by reflexivity.
  assert (H3 : page2_url <> EmptyString) by discriminate.
  split; [exact H1|]. split; [exact H2|]. split; [exact H3|].
  exact (proj1 (proj2 (link_next_reads_shopify_headers (customersApiUrl store_a) page2_url
                         H1 H2 H3))).
Defined.

(** ** The requests of a run *)

(** X18: A run talks to the shop of its store only, with the token of that
    store: it sends the customers request and then the orders request,
    nothing before, between or after; the orders request is left out
    exactly when the customers request threw (no answer, or a successful
    answer whose body is not the customers document). *)
Theorem sync_requests_own_shop :
  forall (store : Store) (e : Env) (w : World),
    fetches_of (trace (snd (syncHistoricalData store e w))) =
    fetches_of (trace w)
    ++ (customersApiUrl store, accessToken store)
       :: (if customers_request_throws store e w then []
           else [(ordersApiUrl store, accessToken store)]).
Proof.
  intros store e w. unfold syncHistoricalData. unfold bind at 1. unfold console, emit.
  match goal with |- context [try_catch _ _ e ?w0] => set (w1 := w0) end.
  assert (Hw1 : fetches_of (trace w1) = fetches_of (trace w)).
  { unfold w1. cbn [trace]. rewrite fetches_of_app. cbn. apply app_nil_r. }
  change (customers_request_throws store e w) with (customers_request_throws store e w1).
  unfold try_catch. unfold bind at 1.
  pose proof (customers_phase_fetches store e w1) as Hc.
  pose proof (customers_phase_outcome store e w1) as Ho.
  destruct (customers_phase store e w1) as [[[]|err] w2]; cbn [fst snd] in Hc, Ho.
  - destruct (customers_request_throws store e w1); [destruct Ho; discriminate|].
    pose proof (orders_phase_fetches store e w2) as Hord.
    destruct (orders_phase store e w2) as [[[]|err] w3]; cbn [fst snd] in Hord |- *.
    + rewrite Hord, Hc, Hw1, <- app_assoc. reflexivity.
    + cbn [trace]. rewrite fetches_of_app, Hord, Hc, Hw1, <- !app_assoc. reflexivity.
  - destruct (customers_request_throws store e w1); [|discriminate].
    cbn [snd trace]. rewrite fetches_of_app, Hc, Hw1, <- !app_assoc. reflexivity.
Qed.

(** ** Batches *)

Lemma batchUpsert_loop_batches {T} (items : list T) (all : list T -> M unit)
    (batchSize : nat) e :
  0 < batchSize ->
  forall fuel i w,
    length items - i <= fuel ->
    exists batches,
      batchUpsert_loop fuel items all batchSize i e w = Some (for_of batches all e w)
      /\ concat batches = skipn i items
      /\ Forall (fun b => b <> [] /\ length b <= batchSize) batches
      /\ Forall (fun b => length b = batchSize) (removelast batches).
Proof.
  intros Hb.
  assert (Hdone : forall fuel i w,
             (i <? length items)%nat = false ->
             exists batches,
               batchUpsert_loop fuel items all batchSize i e w = Some (for_of batches all e w)
               /\ concat batches = skipn i items
               /\ Forall (fun b => b <> [] /\ length b <= batchSize) batches
               /\ Forall (fun b => length b = batchSize) (removelast batches)).
  { intros fuel i w Hi. exists []. apply Nat.ltb_ge in Hi.
    split; [destruct fuel; cbn [batchUpsert_loop]; rewrite (proj2 (Nat.ltb_ge _ _) Hi);
            reflexivity|].
    split; [symmetry; apply skipn_all2; exact Hi|]. split; constructor. }
  induction fuel as [|fuel IH]; intros i w Hfuel.
  - apply Hdone. apply Nat.ltb_ge. lia.
  - destruct ((i <? length items)%nat) eqn:Hi; [|apply Hdone; exact Hi].
    apply Nat.ltb_lt in Hi.
    cbn [batchUpsert_loop]. rewrite (proj2 (Nat.ltb_lt _ _) Hi). cbv zeta.
    unfold slice. replace (i + batchSize - i) with batchSize by lia.
    set (batch := firstn batchSize (skipn i items)).
    assert (Hlen : length batch = Nat.min batchSize (length items - i)).
    { unfold batch. rewrite length_firstn, length_skipn. reflexivity. }
    assert (Hnext : forall w1, exists batches,
               batchUpsert_loop fuel items all batchSize (i + batchSize) e w1 =
                 Some (for_of batches all e w1)
               /\ concat (batch :: batches) = skipn i items
               /\ Forall (fun b => b <> [] /\ length b <= batchSize) (batch :: batches)
               /\ Forall (fun b => length b = batchSize) (removelast (batch :: batches))).
    { intros w1. destruct (IH (i + batchSize) w1 ltac:(lia)) as (bs & Heq & Hcat & Hall & Hfull).
      exists bs. split; [exact Heq|]. split; [|split].
      - cbn [concat]. rewrite Hcat. unfold batch.
        replace (i + batchSize) with (batchSize + i) by lia.
        rewrite <- skipn_skipn. apply firstn_skipn.
      - constructor; [|exact Hall]. split; [|lia].
        intros Hnil. rewrite Hnil in Hlen. cbn [length] in Hlen. lia.
      - destruct bs as [|b2 bs]; [constructor|].
        change (removelast (batch :: b2 :: bs)) with (batch :: removelast (b2 :: bs)).
        constructor; [|exact Hfull].
        assert (Hrest : skipn (i + batchSize) items <> []).
        { rewrite <- Hcat. cbn [concat]. inversion Hall as [|? ? [Hne _] _]; subst.
          destruct b2; [contradiction|discriminate]. }
        assert (i + batchSize < length items).
        { destruct (Nat.lt_ge_cases (i + batchSize) (length items)) as [H|H]; [exact H|].
          exfalso. apply Hrest. apply skipn_all2. exact H. }
        lia. }
    destruct (all batch e w) as [[[]|err] w1] eqn:Hrun.
    + destruct (Hnext w1) as (bs & Heq & Hrest). exists (batch :: bs).
      split; [|exact Hrest]. rewrite Heq. cbn [for_of]. unfold bind. rewrite Hrun. reflexivity.
    + destruct (Hnext w1) as (bs & _ & Hrest). exists (batch :: bs).
      split; [|exact Hrest]. cbn [for_of]. unfold bind. rewrite Hrun. reflexivity.
Qed.

(** X19: With a positive batch size, [batchUpsert] hands every item to exactly
    one batch, in the order of the items: it runs the batches one after the
    other and stops at the first one that throws; the batches put end to end
    are the items, none is empty, none is larger than the batch size, and
    all but the last are full. *)
Theorem batchUpsert_batches :
  forall (T : Type) (items : list T) (all : list T -> M unit) (batchSize fuel : nat)
         (e : Env) (w : World),
    0 < batchSize ->
    length items <= fuel ->
    exists batches,
      batchUpsert fuel items all batchSize e w = Some (for_of batches all e w)
      /\ concat batches = items
      /\ Forall (fun b => b <> [] /\ length b <= batchSize) batches
      /\ Forall (fun b => length b = batchSize) (removelast batches).
Proof.
  intros T items all batchSize fuel e w Hb Hfuel.
  exact (batchUpsert_loop_batches items all batchSize e Hb fuel 0 w ltac:(lia)).
Qed.

Lemma batchUpsert_batches_witness :
  0 < 2
  /\ length [alice; bob; carol] <= 3
  /\ exists batches,
      batchUpsert 3 [alice; bob; carol] (fun batch => for_of batch (sync_customer store_a)) 2
                  env_sync world_a
      = Some (for_of batches (fun batch => for_of batch (sync_customer store_a))
                env_sync world_a)
      /\ concat batches = [alice; bob; carol].
Proof.
  assert (H1 : 0 < 2) by lia.
  assert (H2 : length [alice; bob; carol] <= 3) by (simpl; lia).
  split; [exact H1|]. split; [exact H2|].
  destruct (batchUpsert_batches RawCustomer [alice; bob; carol]
              (fun batch => for_of batch (sync_customer store_a)) 2 3 env_sync world_a H1 H2)
    as (batches & Heq & Hcat & _).
  exists batches. split; [exact Heq | exact Hcat].
Defined.

(** X20: With a batch size of zero and at least one item, the loop of
    [batchUpsert] never ends: it goes on running empty batches. *)
Theorem batchUpsert_zero_batch_size :
  forall (T : Type) (items : list T) (all : list T -> M unit) (e : Env),
    items <> [] ->
    (forall w, fst (all [] e w) = Ok tt) ->
    forall (fuel : nat) (w : World), batchUpsert fuel items all 0 e w = None.
Proof.
  intros T items all e Hne Hall. unfold batchUpsert.
  assert (Hlt : (0 <? length items)%nat = true).
  { apply Nat.ltb_lt. destruct items; [contradiction|simpl; lia]. }
  induction fuel as [|fuel IH]; intros w; cbn [batchUpsert_loop]; rewrite Hlt; [reflexivity|].
  cbv zeta. unfold slice. cbn [Nat.add Nat.sub firstn].
  specialize (Hall w). destruct (all [] e w) as [[[]|err] w1]; [|discriminate].
  apply IH.
Qed.

Lemma batchUpsert_zero_batch_size_witness :
  [alice] <> []
  /\ (forall w, fst (for_of [] (sync_customer store_a) env_sync w) = Ok tt)
  /\ batchUpsert 1000 [alice] (fun batch => for_of batch (sync_customer store_a)) 0
                 env_sync world_a = None.
Proof.
  assert (H1 : [alice] <> []) by discriminate.
  assert (H2 : forall w, fst (for_of [] (sync_customer store_a) env_sync w) = Ok tt)
    by (intros w; reflexivity).
  split; [exact H1|]. split; [exact H2|].
  exact (batchUpsert_zero_batch_size RawCustomer [alice]
           (fun batch => for_of batch (sync_customer store_a)) env_sync H1 H2 1000 world_a).
Defined.

(** ** Upserts that fail *)

Lemma sync_customer_state_any store d e w :
  let w' := snd (sync_customer store d e w) in
  (customers w', next_id w') =
    match db_fault e (db_calls w) with
    | None => upsert_row (customer_row_key (store_id store)) customer_update
                (fun d n => customer_create d (store_id store) n) d (customers w, next_id w)
    | Some _ => (customers w, next_id w)
    end
  /\ db_calls w' = S (db_calls w).
Proof.
  cbn zeta. rewrite sync_customer_run.
  destruct (db_fault e (db_calls w)); cbn [snd].
  - unfold advance. cbn [customers next_id db_calls]. split; [reflexivity | lia].
  - unfold customer_upsert_query, upsert_row, customer_row_key, advance.
    cbn [customers next_id fst snd].
    destruct (find _ (customers w)); unfold set_customers;
      cbn [customers next_id db_calls]; (split; [reflexivity | lia]).
Qed.

Lemma customers_loop_state_any store e :
  forall cs w,
    let w' := fold_left (fun w d => snd (sync_customer store d e w)) cs w in
    (customers w', next_id w') =
      upsert_customers (store_id store) (served e (db_calls w) cs) (customers w, next_id w).
Proof.
  induction cs as [|d cs IH]; intros w; [reflexivity|].
  cbn [fold_left served]. cbn zeta in *.
  destruct (sync_customer_state_any store d e w) as (H1 & H2).
  rewrite IH, H1, H2.
  destruct (db_fault e (db_calls w)); reflexivity.
Qed.

Lemma customers_phase_state_any store e w cs :
  answers e (net_calls w) (customersApiUrl store) (accessToken store) = Some (JCustomers cs) ->
  exists w1,
    customers_phase store e w = (Ok tt, w1)
    /\ customers w1 =
       fst (upsert_customers (store_id store) (served e (db_calls w) cs)
              (customers w, next_id w)).
Proof.
  intros Hc. unfold answers in Hc.
  destruct (net e (net_calls w) (customersApiUrl store) (accessToken store))
    as [|rc] eqn:Hnc; [discriminate|].
  destruct (ok rc) eqn:Hokc; [|discriminate].
  unfold customers_phase, bind, fetch. rewrite Hnc, Hokc.
  unfold json_customers. rewrite Hc. unfold ret, console, emit.
  rewrite (for_of_all (sync_customer store) e
             (fun x w0 => sync_customer_never_throws store x e w0)).
  match goal with
  | |- context [fold_left _ cs ?w0] =>
      pose proof (customers_loop_state_any store e cs w0) as C1
  end.
  eexists. split; [reflexivity|].
  cbn [customers next_id db_calls] in *.
  rewrite <- C1. reflexivity.
Qed.

Lemma orders_phase_keeps_customers store e w :
  customers (snd (orders_phase store e w)) = customers w.
Proof.
  pose proof (keeps_orders_phase
                (fun t t' : Tables => snd (fst t') = snd (fst t))
                (fun t => eq_refl)
                (fun t1 t2 t3 H12 H23 => eq_trans H23 H12)
                store
                (fun d cust w0 => order_upsert_query_customers d (store_id store) cust w0)
                e w) as H.
  exact H.
Qed.

(** X21: A customer whose upsert fails is skipped, and only that one: when
    Shopify answers the customers request, the customer table after the run
    is the table the run would have produced had it been sent only the
    customers whose database call went through, whatever happens to the
    others and to the orders. *)
Theorem sync_skips_failed_customers :
  forall (e : Env) (w : World) (store : Store) (cs : list RawCustomer),
    answers e (net_calls w) (customersApiUrl store) (accessToken store)
      = Some (JCustomers cs) ->
    customers (snd (syncHistoricalData store e w)) =
    fst (upsert_customers (store_id store) (served e (db_calls w) cs)
           (customers w, next_id w)).
Proof.
  intros e w store cs Hc.
  unfold syncHistoricalData, bind, try_catch, console, emit.
  match goal with
  | |- context [customers_phase store e ?w0] =>
      destruct (customers_phase_state_any store e w0 cs Hc) as (w1 & -> & C1)
  end.
  cbn [customers next_id db_calls] in C1.
  pose proof (orders_phase_keeps_customers store e w1) as HK.
  destruct (orders_phase store e w1) as [[[]|err] w2]; cbn [snd customers] in *;
    rewrite HK; exact C1.
Qed.

Lemma sync_skips_failed_customers_witness :
  answers env_first_call_fails (net_calls world_a) (customersApiUrl store_a)
          (accessToken store_a) = Some (JCustomers [alice; bob])
  /\ served env_first_call_fails (db_calls world_a) [alice; bob] = [bob]
  /\ map customer_shopifyId
         (customers (snd (syncHistoricalData store_a env_first_call_fails world_a))) = ["7002"%string].
Proof.
  assert (H1 : answers env_first_call_fails (net_calls world_a) (customersApiUrl store_a)
                 (accessToken store_a) = Some (JCustomers [alice; bob])) by reflexivity.
  split; [exact H1|]. split; [reflexivity|].
  rewrite (sync_skips_failed_customers env_first_call_fails world_a store_a [alice; bob] H1).
  reflexivity.
Defined.

(** ** Whose store is synced *)

Lemma resolve_store_cases uid param e w s :
  fst (resolve_store uid param e w) = Ok (inr s) ->
  In s (stores w)
  /\ (userId s = uid
      \/ (truthy param = false
          /\ find (fun s0 => userId s0 =? uid)%string (stores w) = None
          /\ hd_error (stores w) = Some s)).
Proof.
  unfold resolve_store. destruct (truthy param).
  - unfold bind, store_findUnique, db_call.
    destruct (db_fault e (db_calls w)); cbn [fst]; [discriminate|]. cbn [stores].
    destruct (find _ (stores w)) as [s0|] eqn:Hf; cbn [fst ret]; [|discriminate].
    destruct (userId s0 =? uid)%string eqn:Hu; cbn [negb fst ret]; [|discriminate].
    intros H; injection H as <-. apply find_some in Hf.
    split; [exact (proj1 Hf)|]. left. apply String.eqb_eq. exact Hu.
  - unfold bind at 1. unfold store_findFirst_of, db_call.
    destruct (db_fault e (db_calls w)); cbn [fst]; [discriminate|]. cbn [stores].
    destruct (find _ (stores w)) as [s0|] eqn:Hf.
    + cbn [bind ret fst]. unfold bind, ret. cbn [fst].
      intros H; injection H as <-. apply find_some in Hf.
      split; [exact (proj1 Hf)|]. left. apply String.eqb_eq. exact (proj2 Hf).
    + unfold bind at 1. unfold store_findFirst, db_call. cbn [db_calls stores].
      destruct (db_fault e (S (db_calls w))); cbn [fst]; [discriminate|].
      destruct (stores w) as [|s0 rest] eqn:Hs; cbn [hd_error].
      * unfold bind, console, emit, ret. cbn [fst]. discriminate.
      * unfold ret. cbn [fst]. intros H; injection H as <-.
        split; [left; reflexivity|]. right. split; [reflexivity|]. split; reflexivity.
Qed.

(** X22: The endpoint syncs a store of another user in one situation only: the
    request names no store, the signed-in user has no store, and the store
    is the first of the store table.  In every other case it either sends
    nothing to Shopify and changes no table, or runs the sync for a store of
    the signed-in user. *)
Theorem POST_foreign_store_only_by_fallback :
  forall (request : Request) (e : Env) (w : World),
    let w' := snd (POST request e w) in
    (requests_of (trace w') = requests_of (trace w) /\ tables w' = tables w)
    \/ (exists uid s w1,
          current_user e = Some uid
          /\ w' = snd (syncHistoricalData s e w1)
          /\ tables w1 = tables w
          /\ In s (stores w)
          /\ (userId s = uid
              \/ (truthy (searchParams_get "storeId" request) = false
                  /\ find (fun s0 => userId s0 =? uid)%string (stores w) = None
                  /\ hd_error (stores w) = Some s))).
Proof.
  intros request e w w'. subst w'.
  destruct (POST_outcome request e w)
    as [(resp & Hr & Hst & Hreq & Htab)
       | (uid & s & w0 & w1 & _ & Hcu & _ & Ht0 & Hres & Ht1 & _ & Hw' & _)].
  - left. split; assumption.
  - right. exists uid, s, w1. split; [exact Hcu|]. split; [exact Hw'|]. split; [exact Ht1|].
    assert (Hs : stores w0 = stores w) by (injection Ht0; auto).
    rewrite <- Hs. exact (resolve_store_cases uid _ e w0 s Hres).
Qed.

(** ** The guarded store lookup *)

Lemma withRetry_loop_inv {T} (fn : M T) (I : World -> Prop) (Q : T -> Prop)
    label retries base e :
  (forall w0, I w0 -> I (snd (fn e w0)) /\ forall v, fst (fn e w0) = Ok v -> Q v) ->
  (forall ev w0, I w0 -> I (snd (emit ev e w0))) ->
  forall fuel attempt w r w',
    I w ->
    withRetry_loop fuel fn label retries base attempt e w = Some (r, w') ->
    I w' /\ forall v, r = Ok v -> Q v.
Proof.
  intros Hfn Hemit. induction fuel as [|fuel IH]; intros attempt w r w' HI; [discriminate|].
  cbn [withRetry_loop]. destruct (Hfn w HI) as [HI1 HQ].
  destruct (fn e w) as [[v|err] w1]; cbn [fst snd] in *.
  - intros H; injection H as <- <-. split; [exact HI1|].
    intros v' Hv; injection Hv as <-. apply HQ. reflexivity.
  - destruct ((retries <? attempt + 1)%nat || negb (isPoolTimeout (message_of err))).
    + intros H; injection H as <- <-. split; [exact HI1 | discriminate].
    + unfold bind, console, sleep. 
      pose proof (Hemit (EvConsole (WarnRetry label (attempt + 1) retries
                                      (base * 2 ^ Z.of_nat (attempt + 1 - 1)))) w1 HI1) as HI2.
      destruct (emit _ e w1) as [[[]|err2] w2] eqn:He1; cbn [snd] in HI2.
      * pose proof (Hemit (EvTimeout (base * 2 ^ Z.of_nat (attempt + 1 - 1))) w2 HI2) as HI3.
        destruct (emit (EvTimeout _) e w2) as [r3 w3]; cbn [snd] in HI3.
        apply IH. exact HI3.
      * apply IH. exact HI2.
Qed.

(** X23: The lookup [prisma.store.findFirst({ where: { id: storeId, userId } })]
    wrapped in [withRetry]: whatever the database does on the way, a store
    it returns is in the store table, has the identifier asked for and
    belongs to the user asked for; and the retries change no table. *)
Theorem withRetry_lookup_guarded :
  forall (id uid label : string) (retries : nat) (baseDelayMs : Z) (fuel : nat)
         (e : Env) (w w' : World) (found : option Store),
    withRetry fuel (store_findFirst_where id uid) label retries baseDelayMs e w
      = Some (Ok found, w') ->
    tables w' = tables w
    /\ forall s, found = Some s -> In s (stores w) /\ store_id s = id /\ userId s = uid.
Proof.
  intros id uid label retries base fuel e w w' found H.
  destruct (withRetry_loop_inv (store_findFirst_where id uid)
              (fun w0 => tables w0 = tables w)
              (fun v => forall s, v = Some s ->
                                  In s (stores w) /\ store_id s = id /\ userId s = uid)
              label retries base e) with (fuel := fuel) (attempt := 0) (w := w)
              (r := Ok found) (w' := w') as [Ht HQ].
  - intros w0 Hw0. unfold store_findFirst_where, db_call.
    destruct (db_fault e (db_calls w0)); cbn [fst snd].
    + split; [exact Hw0 | discriminate].
    + split; [exact Hw0|]. intros v Hv; injection Hv as <-. cbn [stores].
      intros s Hf. apply find_some in Hf. destruct Hf as [Hin Hk].
      apply andb_true_iff in Hk. destruct Hk as [Hid Hu].
      assert (Hs : stores w0 = stores w) by (injection Hw0; auto).
      rewrite <- Hs. split; [exact Hin|]. split; apply String.eqb_eq; assumption.
  - intros ev w0 Hw0. exact Hw0.
  - reflexivity.
  - exact H.
  - split; [exact Ht|]. intros s Hs. exact (HQ found eq_refl s Hs).
Qed.

Lemma withRetry_lookup_guarded_witness :
  let op := StoreFindFirst (Some "store_a"%string) (Some "user_a"%string) in
  let w' := advance 4 (retry_rounds op "store.findFirst" 3 200 1 3 ++ [EvDb op]) world_a in
  withRetry 4 (store_findFirst_where "store_a" "user_a") "store.findFirst" 3 200
            env_flaky world_a = Some (Ok (Some store_a), w')
  /\ tables w' = tables world_a
  /\ userId store_a = "user_a"%string.
Proof.
  intros op w'.
  assert (H : withRetry 4 (store_findFirst_where "store_a" "user_a") "store.findFirst" 3 200
                env_flaky world_a = Some (Ok (Some store_a), w'))
    by (vm_compute; reflexivity).
  split; [exact H|].
  destruct (withRetry_lookup_guarded "store_a" "user_a" "store.findFirst" 3 200 4
              env_flaky world_a w' (Some store_a) H) as [Ht Hs].
  split; [exact Ht|]. exact (proj2 (proj2 (Hs store_a eq_refl))).
Defined.

(** X24: The store resolution without fallback hands over only stores of the
    signed-in user: a store it resolves is in the store table and belongs
    to that user, and it is the store named by the request when the request
    names one. *)
Theorem resolve_store_owned_only_own :
  forall (uid : string) (storeIdParam : option string) (e : Env) (w : World) (s : Store),
    fst (resolve_store_owned uid storeIdParam e w) = Ok (inr s) ->
    In s (stores w)
    /\ userId s = uid
    /\ (forall id, truthy storeIdParam = true -> storeIdParam = Some id -> store_id s = id).
Proof.
  intros uid param e w s. unfold resolve_store_owned. destruct (truthy param).
  - unfold bind, store_findUnique, db_call.
    destruct (db_fault e (db_calls w)); cbn [fst]; [discriminate|]. cbn [stores].
    destruct (find _ (stores w)) as [s0|] eqn:Hf; cbn [fst ret]; [|discriminate].
    destruct (userId s0 =? uid)%string eqn:Hu; cbn [negb fst ret]; [|discriminate].
    intros H; injection H as <-. apply find_some in Hf. destruct Hf as [Hin Hid].
    split; [exact Hin|]. split; [apply String.eqb_eq; exact Hu|].
    intros id _ ->. apply String.eqb_eq. exact Hid.
  - unfold bind, store_findFirst_of, db_call.
    destruct (db_fault e (db_calls w)); cbn [fst]; [discriminate|]. cbn [stores].
    destruct (find _ (stores w)) as [s0|] eqn:Hf; cbn [fst ret]; [|discriminate].
    intros H; injection H as <-. apply find_some in Hf. destruct Hf as [Hin Hu].
    split; [exact Hin|]. split; [apply String.eqb_eq; exact Hu|].
    intros id Ht. discriminate.
Qed.

Lemma resolve_store_owned_only_own_witness :
  fst (resolve_store_owned "user_a" None env_sync world_a) = Ok (inr store_a)
  /\ userId store_a = "user_a"%string
  /\ fst (resolve_store_owned "user_b" None env_other_user world_a)
     = Ok (inl (NextResponse_json [("error"%string, JString "No store connected.")] 404)).
Proof.
  assert (H : fst (resolve_store_owned "user_a" None env_sync world_a) = Ok (inr store_a))
    by reflexivity.
  split; [exact H|]. split; [|reflexivity].
  exact (proj1 (proj2 (resolve_store_owned_only_own "user_a" None env_sync world_a store_a H))).
Defined.
